(** * FixIt-AI: the client-side orchestration, embedded and verified

    The development follows the TypeScript sources:
    - [services/geminiService.ts]: the Model Gateway ([detectItems],
      [analyzeMedia], [getChatResponse], [getSupportChatResponse]);
    - [App.tsx]: the session state machine (the [handle*] callbacks);
    - [components/FileUpload.tsx]: the capture adapter ([handleFile],
      [handlePaste]);
    - [components/ResultDisplay.tsx]: the annotation overlay, the repair chat
      and the inline markup of the visual guide ([formatText]);
    - [components/SupportChat.tsx]: the support chat.

    Conventions.  A JavaScript string is a [string]; [undefined]/[null] in an
    optional position is [None]; a promise that rejects (or a [throw]) is the
    [Threw] branch of [outcome].  React state is a record, a [setX] call is a
    record update, and an [async] handler is split at its [await] into the part
    that runs at once and the continuation that runs when the promise
    settles.

    Left out: what is written to the console, the JSX and its styling,
    the dark-mode class on the document, the camera dialogue of the capture
    adapter (a camera shot reaches [handleFile] like a picked file) and the
    open/closed flag of the support chat window.

    Numbers.  [JSON.parse] keeps a number as the decimal it is written as,
    and an integer is a [Z]; where the code computes with numbers (the
    overlay of an annotation) they are binary64 numbers, rounded as
    JavaScript rounds them.  Not modelled where a number is only carried:
    the rounding of a literal beyond [2^53], the exponent notation of a
    number of [1e21] and above when it is put into a text, and the pairing
    of two [\u] escapes into one character outside the basic plane (each is
    written as its own three bytes). *)

From Stdlib Require Import ZArith NArith List String Ascii Bool Lia DecimalString.
From Stdlib Require Import QArith Qabs Lqa.
From Stdlib Require PrimFloat FloatOps SpecFloat Uint63 FloatAxioms.
Import ListNotations.
Close Scope Q_scope.
Open Scope string_scope.

Set Implicit Arguments.
Set Warnings "-register-all".

(** ** Outcomes of fallible calls *)

(** What a call that may throw evaluates to: a value, or the thrown error
    (its message). *)
Inductive outcome (A : Type) : Type :=
| Returned (a : A)
| Threw (msg : string).
Arguments Returned {A} a.
Arguments Threw {A} msg.

Definition bind {A B} (o : outcome A) (k : A -> outcome B) : outcome B :=
  match o with
  | Returned a => k a
  | Threw m => Threw m
  end.

Notation "x <- o ;; k" := (bind o (fun x => k))
  (at level 61, o at next level, right associativity).

Definition returned {A} (o : outcome A) : bool :=
  match o with Returned _ => true | Threw _ => false end.

Definition threw {A} (o : outcome A) : bool := negb (returned o).

(** ** JavaScript values as far as [JSON.parse] produces them *)

Module Json.

(** A number literal is kept as its exact decimal value [m * 10^e]. *)
Inductive JsValue : Type :=
| JNull
| JBool (b : bool)
| JNum (m e : Z)
| JStr (s : string)
| JArr (elems : list JsValue)
| JObj (props : list (string * JsValue)).

(** The double quote, the backslash and the control characters, by code. *)
Definition dquote : ascii := ascii_of_nat 34.
Definition backslash : ascii := ascii_of_nat 92.
Definition dq : string := String dquote EmptyString.

Definition is_ws (c : ascii) : bool :=
  let n := nat_of_ascii c in
  Nat.eqb n 32 || Nat.eqb n 9 || Nat.eqb n 10 || Nat.eqb n 13.

Fixpoint skip_ws (s : string) : string :=
  match s with
  | String c rest => if is_ws c then skip_ws rest else s
  | EmptyString => s
  end.

Definition digit_of (c : ascii) : option Z :=
  let n := nat_of_ascii c in
  if Nat.leb 48 n && Nat.leb n 57 then Some (Z.of_nat (n - 48)) else None.

Definition hex_of (c : ascii) : option N :=
  let n := nat_of_ascii c in
  if Nat.leb 48 n && Nat.leb n 57 then Some (N.of_nat (n - 48))
  else if Nat.leb 65 n && Nat.leb n 70 then Some (N.of_nat (n - 55))
  else if Nat.leb 97 n && Nat.leb n 102 then Some (N.of_nat (n - 87))
  else None.

(** [take_digits acc k s] reads the longest run of decimal digits at the head
    of [s]: the number they extend [acc] to, how many there were on top of
    [k], and what follows. *)
Fixpoint take_digits (acc : Z) (k : nat) (s : string) : Z * nat * string :=
  match s with
  | String c rest =>
      match digit_of c with
      | Some d => take_digits (10 * acc + d) (S k) rest
      | None => (acc, k, s)
      end
  | EmptyString => (acc, k, s)
  end.

(** [s] without its first character, when that is [c]. *)
Definition after (c : ascii) (s : string) : option string :=
  match s with
  | String c' rest => if Ascii.eqb c' c then Some rest else None
  | EmptyString => None
  end.

(** The integer part: a lone [0], or a run of digits not starting with [0]. *)
Definition parse_int (s : string) : option (Z * string) :=
  match s with
  | String c rest =>
      match digit_of c with
      | Some d =>
          if (d =? 0)%Z then Some (0%Z, rest)
          else let '(m, _, rest') := take_digits d 0 rest in Some (m, rest')
      | None => None
      end
  | EmptyString => None
  end.

(** The optional fraction [.ddd]: the mantissa extended by the digits and the
    number of digits read. *)
Definition parse_frac (m : Z) (s : string) : option (Z * nat * string) :=
  match after "." s with
  | Some rest =>
      let '(m', k, rest') := take_digits m 0 rest in
      match k with
      | O => None
      | S _ => Some (m', k, rest')
      end
  | None => Some (m, O, s)
  end.

(** The digits of an exponent, after its sign. *)
Definition parse_exp_digits (neg : bool) (s : string) : option (Z * string) :=
  let '(x, k, rest) := take_digits 0 0 s in
  match k with
  | O => None
  | S _ => Some (if neg then (- x)%Z else x, rest)
  end.

(** The optional exponent [e+dd]. *)
Definition parse_exp (s : string) : option (Z * string) :=
  let signed rest :=
    match after "+" rest with
    | Some rest' => parse_exp_digits false rest'
    | None =>
        match after "-" rest with
        | Some rest' => parse_exp_digits true rest'
        | None => parse_exp_digits false rest
        end
    end in
  match after "e" s with
  | Some rest => signed rest
  | None =>
      match after "E" s with
      | Some rest => signed rest
      | None => Some (0%Z, s)
      end
  end.

Definition parse_number (s : string) : option (JsValue * string) :=
  let '(neg, s1) :=
    match after "-" s with
    | Some rest => (true, rest)
    | None => (false, s)
    end in
  match parse_int s1 with
  | None => None
  | Some (i, s2) =>
      match parse_frac i s2 with
      | None => None
      | Some (m, k, s3) =>
          match parse_exp s3 with
          | None => None
          | Some (x, s4) =>
              Some (JNum (if neg then - m else m) (x - Z.of_nat k), s4)
          end
      end
  end.

(** [\uXXXX] yields one UTF-16 code unit; a string being modelled by its
    bytes, the unit is written in UTF-8 (one to three bytes). *)
Definition bytes_of_unit (u : N) : string :=
  let b (n : N) := String (ascii_of_N n) EmptyString in
  (if u <? 128 then b u
   else if u <? 2048 then b (192 + u / 64) ++ b (128 + u mod 64)
   else b (224 + u / 4096) ++ b (128 + (u / 64) mod 64) ++ b (128 + u mod 64))%N.

Definition parse_hex4 (s : string) : option (N * string) :=
  match s with
  | String a (String b (String c (String d rest))) =>
      match hex_of a, hex_of b, hex_of c, hex_of d with
      | Some x, Some y, Some z, Some w =>
          Some (((x * 16 + y) * 16 + z) * 16 + w, rest)%N
      | _, _, _, _ => None
      end
  | _ => None
  end.

(** What a parsing function answers: a value and the rest of the text, a
    syntax error, or that its fuel ran out (which [fuel_suffices] below
    excludes for the fuel [JSON_parse] starts with). *)
Inductive parsed (A : Type) : Type :=
| Parsed (a : A) (rest : string)
| SyntaxError
| OutOfFuel.
Arguments Parsed {A} a rest.
Arguments SyntaxError {A}.
Arguments OutOfFuel {A}.

Definition of_option {A} (o : option (A * string)) : parsed A :=
  match o with
  | Some (a, rest) => Parsed a rest
  | None => SyntaxError
  end.

(** The characters of a string literal after its opening quote, up to and
    including the closing quote; [acc] is the text decoded so far. *)
Fixpoint parse_chars (fuel : nat) (acc : string) (s : string) : parsed string :=
  match fuel with
  | O => OutOfFuel
  | S fuel' =>
      match s with
      | EmptyString => SyntaxError
      | String c rest =>
          if Ascii.eqb c dquote then Parsed acc rest
          else if Ascii.eqb c backslash then
            match rest with
            | EmptyString => SyntaxError
            | String e rest' =>
                let simple ch :=
                  parse_chars fuel' (acc ++ String ch EmptyString) rest' in
                if Ascii.eqb e dquote then simple dquote
                else if Ascii.eqb e backslash then simple backslash
                else if Ascii.eqb e "/" then simple "/"%char
                else if Ascii.eqb e "b" then simple (ascii_of_nat 8)
                else if Ascii.eqb e "f" then simple (ascii_of_nat 12)
                else if Ascii.eqb e "n" then simple (ascii_of_nat 10)
                else if Ascii.eqb e "r" then simple (ascii_of_nat 13)
                else if Ascii.eqb e "t" then simple (ascii_of_nat 9)
                else if Ascii.eqb e "u" then
                  match parse_hex4 rest' with
                  | Some (u, rest'') =>
                      parse_chars fuel' (acc ++ bytes_of_unit u) rest''
                  | None => SyntaxError
                  end
                else SyntaxError
            end
          else if Nat.ltb (nat_of_ascii c) 32 then SyntaxError
          else parse_chars fuel' (acc ++ String c EmptyString) rest
      end
  end.

Definition parse_string (s : string) : parsed string :=
  parse_chars (S (String.length s)) EmptyString s.

(** A keyword: [s] must start with [lit]. *)
Fixpoint strip_prefix (lit s : string) : option string :=
  match lit, s with
  | EmptyString, _ => Some s
  | String a lit', String b s' =>
      if Ascii.eqb a b then strip_prefix lit' s' else None
  | String _ _, EmptyString => None
  end.

Definition expect (lit : string) (v : JsValue) (s : string) : parsed JsValue :=
  match strip_prefix lit s with
  | Some rest => Parsed v rest
  | None => SyntaxError
  end.

(** The value grammar.  Every recursive call is on a strictly shorter text
    with one unit of fuel less. *)
Fixpoint parse_value (fuel : nat) (s : string) : parsed JsValue :=
  match fuel with
  | O => OutOfFuel
  | S fuel' =>
      match skip_ws s with
      | EmptyString => SyntaxError
      | String c rest as s' =>
          if Ascii.eqb c "{" then
            match after "}" (skip_ws rest) with
            | Some rest' => Parsed (JObj []) rest'
            | None => parse_members fuel' [] rest
            end
          else if Ascii.eqb c "[" then
            match after "]" (skip_ws rest) with
            | Some rest' => Parsed (JArr []) rest'
            | None => parse_elements fuel' [] rest
            end
          else if Ascii.eqb c dquote then
            match parse_string rest with
            | Parsed str rest' => Parsed (JStr str) rest'
            | SyntaxError => SyntaxError
            | OutOfFuel => OutOfFuel
            end
          else if Ascii.eqb c "t" then expect "true" (JBool true) s'
          else if Ascii.eqb c "f" then expect "false" (JBool false) s'
          else if Ascii.eqb c "n" then expect "null" JNull s'
          else of_option (parse_number s')
      end
  end

with parse_elements (fuel : nat) (acc : list JsValue) (s : string)
  : parsed JsValue :=
  match fuel with
  | O => OutOfFuel
  | S fuel' =>
      match parse_value fuel' s with
      | Parsed v rest =>
          match after "," (skip_ws rest) with
          | Some rest' => parse_elements fuel' (acc ++ [v]) rest'
          | None =>
              match after "]" (skip_ws rest) with
              | Some rest' => Parsed (JArr (acc ++ [v])) rest'
              | None => SyntaxError
              end
          end
      | SyntaxError => SyntaxError
      | OutOfFuel => OutOfFuel
      end
  end

with parse_members (fuel : nat) (acc : list (string * JsValue)) (s : string)
  : parsed JsValue :=
  match fuel with
  | O => OutOfFuel
  | S fuel' =>
      match after dquote (skip_ws s) with
      | Some rest =>
          match parse_string rest with
          | Parsed key rest1 =>
              match after ":" (skip_ws rest1) with
              | Some rest2 =>
                  match parse_value fuel' rest2 with
                  | Parsed v rest3 =>
                      match after "," (skip_ws rest3) with
                      | Some rest4 =>
                          parse_members fuel' (acc ++ [(key, v)]) rest4
                      | None =>
                          match after "}" (skip_ws rest3) with
                          | Some rest4 => Parsed (JObj (acc ++ [(key, v)])) rest4
                          | None => SyntaxError
                          end
                      end
                  | SyntaxError => SyntaxError
                  | OutOfFuel => OutOfFuel
                  end
              | None => SyntaxError
              end
          | SyntaxError => SyntaxError
          | OutOfFuel => OutOfFuel
          end
      | None => SyntaxError
      end
  end.

Definition parse_fuel (text : string) : nat := 2 * String.length text + 2.

(** [JSON.parse(text)]: one value, surrounded by white space only;
    [None] is the [SyntaxError] that [JSON.parse] throws. *)
Definition JSON_parse (text : string) : option JsValue :=
  match parse_value (parse_fuel text) text with
  | Parsed v rest =>
      match skip_ws rest with
      | EmptyString => Some v
      | String _ _ => None
      end
  | SyntaxError | OutOfFuel => None
  end.

(** *** The operators the gateway applies to a parsed value *)

(** A number literal denotes the double nearest to [m * 10^e]; that double is
    zero when [m] is, or when the value is at most half the least positive
    double, [2^-1075]. *)
Definition is_zero_number (m e : Z) : bool :=
  (m =? 0)%Z || ((e <? 0)%Z && (Z.abs m * 2 ^ 1075 <=? 10 ^ (- e))%Z).

(** [ToBoolean]: what [v || d] and [if (v)] test. *)
Definition truthy (v : JsValue) : bool :=
  match v with
  | JNull => false
  | JBool b => b
  | JNum m e => negb (is_zero_number m e)
  | JStr s => negb (String.eqb s EmptyString)
  | JArr _ | JObj _ => true
  end.

(** The own property [key] of an object built by [JSON.parse]: of two members
    with one key the later one stays. *)
Fixpoint lookup (key : string) (props : list (string * JsValue))
  : option JsValue :=
  match props with
  | [] => None
  | (k, v) :: rest =>
      match lookup key rest with
      | Some v' => Some v'
      | None => if String.eqb k key then Some v else None
      end
  end.

End Json.

Import Json.

(** ** The data model ([types.ts]) *)

Module RepairStep.
Record t := mk { step : Z; instruction : string; detail : string }.
End RepairStep.

(** Modelled from the spec: the declaration of [Annotation], which
    [ResultDisplay.tsx] imports from a [types.ts] later than the one at
    hand, and the [annotations] field of [FixItResponse] with it.  The
    spec's [{label, box: (yMin, xMin, yMax, xMax)}], under the names that
    [AnnotatedImage] reads and the response schema declares: [label] and
    [box_2d], an array of numbers in that order. *)
Module Annotation.
Record t := mk { label : string; box_2d : list Z }.
End Annotation.

Module FixItResponse.
Record t := mk {
  id : option string;
  timestamp : option Z;
  imageUrl : option string;
  title : string;
  problemDescription : string;
  rootCause : string;
  safetyWarnings : list string;
  toolsNeeded : list string;
  steps : list RepairStep.t;
  visualGuide : string;
  annotations : option (list Annotation.t)
}.
End FixItResponse.

(** The browser's [File]: what the code reads of it, and its bytes in
    base64 (what [readAsDataURL] encodes). *)
Module File.
Record t := mk { name : string; size : Z; type : string; bytes64 : string }.
End File.

Inductive MediaKind := image | video.

Module MediaFile.
Record t := mk {
  file : File.t;
  previewUrl : string;
  type : MediaKind;
  base64 : option string
}.
End MediaFile.

Module DetectedItem.
Record t := mk { id : string; name : string; description : string }.
End DetectedItem.

Inductive AppStatus :=
| IDLE | UPLOADED | DETECTING | SELECTING | ANALYZING | SUCCESS | ERROR.

Inductive Role := user | model.

Module ChatMessage.
Record t := mk { role : Role; text : string }.
End ChatMessage.

(** Truthiness of a string and of an optional string. *)
Definition nonempty (s : string) : bool := negb (String.eqb s EmptyString).

Definition truthy_opt (o : option string) : bool :=
  match o with
  | Some s => nonempty s
  | None => false
  end.

(** [o || d] on an optional string. *)
Definition or_else (o : option string) (d : string) : string :=
  match o with
  | Some s => if nonempty s then s else d
  | None => d
  end.

(** ** The Model Gateway ([services/geminiService.ts])

    The functions return what the source returns, a parsed JSON value where
    the source casts one to a declared type.  ([getSupportChatResponse] is in
    the copy of the file that has the support chat; the other functions
    follow the copy with the annotations.) *)

Module Gateway.

(** *** The external service, as the gateway sees it *)

(** A response schema ([Type.OBJECT], [Type.ARRAY], ...); the [description]
    annotations are documentation for the model and are left out. *)
Inductive Schema : Type :=
| STRING
| INTEGER
| ARRAY (items : Schema)
| OBJECT (properties : list (string * Schema)) (required : list string).

Definition RESPONSE_SCHEMA_REPAIR : Schema :=
  OBJECT
    [ ("title", STRING);
      ("problemDescription", STRING);
      ("rootCause", STRING);
      ("safetyWarnings", ARRAY STRING);
      ("toolsNeeded", ARRAY STRING);
      ("steps",
        ARRAY (OBJECT [("step", INTEGER); ("instruction", STRING); ("detail", STRING)]
                 ["step"; "instruction"; "detail"]));
      ("visualGuide", STRING);
      ("annotations",
        ARRAY (OBJECT [("label", STRING); ("box_2d", ARRAY INTEGER)]
                 ["label"; "box_2d"])) ]
    ["title"; "problemDescription"; "rootCause"; "safetyWarnings";
     "toolsNeeded"; "steps"; "visualGuide"].

Definition DETECTED_ITEM_SCHEMA : Schema :=
  OBJECT [("id", STRING); ("name", STRING); ("description", STRING)]
    ["id"; "name"; "description"].

Definition RESPONSE_SCHEMA_DETECTION : Schema :=
  OBJECT [("items", ARRAY DETECTED_ITEM_SCHEMA)] ["items"].

(** The system instructions are fixed prompt texts; the one of the repair
    chat interpolates the diagnosis. *)
Inductive Instruction : Type :=
| SYSTEM_INSTRUCTION_REPAIR
| SYSTEM_INSTRUCTION_SUPPORT
| contextInstruction (title problemDescription steps : string).

Inductive Part : Type :=
| inlineData (data mimeType : string)
| text (t : string).

Module GenerateContent.
Record params := mk {
  model : string;
  parts : list Part;
  systemInstruction : option Instruction;
  responseMimeType : string;
  responseSchema : Schema
}.
End GenerateContent.

Module Content.
Record t := mk { role : Role; parts : list Part }.
End Content.

Module Chat.
Record params := mk {
  model : string;
  systemInstruction : Instruction;
  history : list Content.t
}.
End Chat.

Module Response.
Record t := mk { text : option string }.
End Response.

(** [new GoogleGenAI({ apiKey })]: the two exchanges the gateway uses.  Each
    either answers or throws (network failure, refusal, timeout). *)
Record GoogleGenAI := {
  generateContent : GenerateContent.params -> outcome Response.t;
  sendMessage : Chat.params -> string -> outcome Response.t
}.

(** The process environment and the service behind each credential. *)
Record Env := {
  API_KEY : option string;
  connect : string -> GoogleGenAI
}.

(** [if (!apiKey) throw new Error(msg)]. *)
Definition require_key (env : Env) (msg : string) : outcome string :=
  match API_KEY env with
  | Some k => if nonempty k then Returned k else Threw msg
  | None => Threw msg
  end.

(** *** detectItems *)

Definition detection_prompt : string :=
  "Identify the distinct objects, appliances, or repair scenarios visible in this image. List them so the user can choose which one to fix. Provide 3-5 distinct items max.".

Definition detection_request (base64Data mimeType : string)
  : GenerateContent.params :=
  GenerateContent.mk "gemini-2.5-flash"
    [inlineData base64Data mimeType; text detection_prompt]
    None "application/json" RESPONSE_SCHEMA_DETECTION.

(** The text parsed when the response has none: [{ "items": [] }]. *)
Definition empty_items_text : string :=
  "{ " ++ dq ++ "items" ++ dq ++ ": [] }".

(** [JSON.parse(t)], throwing on a syntax error. *)
Definition parse_or_throw (t : string) : outcome JsValue :=
  match JSON_parse t with
  | Some v => Returned v
  | None => Threw "SyntaxError"
  end.

(** [parsed.items]: [undefined] ([None]) unless [parsed] is an object with
    that member; reading a property of [null] throws. *)
Definition get_items (parsed : JsValue) : outcome (option JsValue) :=
  match parsed with
  | JNull => Threw "TypeError"
  | JObj props => Returned (lookup "items" props)
  | JBool _ | JNum _ _ | JStr _ | JArr _ => Returned None
  end.

(** [v || []]. *)
Definition or_empty_array (v : option JsValue) : JsValue :=
  match v with
  | Some x => if truthy x then x else JArr []
  | None => JArr []
  end.

(** The [catch] block logs and rethrows the same error, so the body's
    outcome is the function's.  The result is typed [DetectedItem[]] by an
    unchecked annotation: what is returned is the parsed value itself. *)
Definition detectItems (env : Env) (base64Data mimeType : string)
  : outcome JsValue :=
  apiKey <- require_key env "API Key not found" ;;
  response <- generateContent (connect env apiKey)
                (detection_request base64Data mimeType) ;;
  parsed <- parse_or_throw (or_else (Response.text response) empty_items_text) ;;
  items <- get_items parsed ;;
  Returned (or_empty_array items).

(** *** analyzeMedia *)

Definition analysis_prompt (focusContext : option string) : string :=
  match focusContext with
  | Some f =>
      if nonempty f
      then "Analyze the image focusing specifically on this item: " ++ dq ++ f
           ++ dq ++ ". Provide a detailed repair guide and annotations for this specific problem."
      else "Analyze this and provide a repair guide with annotations."
  | None => "Analyze this and provide a repair guide with annotations."
  end.

Definition analysis_request (base64Data mimeType : string)
    (focusContext : option string) : GenerateContent.params :=
  GenerateContent.mk "gemini-2.5-flash"
    [inlineData base64Data mimeType; text (analysis_prompt focusContext)]
    (Some SYSTEM_INSTRUCTION_REPAIR) "application/json" RESPONSE_SCHEMA_REPAIR.

(** [JSON.parse(text) as FixItResponse]: the cast checks nothing. *)
Definition analyzeMedia (env : Env) (base64Data mimeType : string)
    (focusContext : option string) : outcome JsValue :=
  apiKey <- require_key env "API Key not found in environment variables" ;;
  response <- generateContent (connect env apiKey)
                (analysis_request base64Data mimeType focusContext) ;;
  match Response.text response with
  | Some t => if nonempty t then parse_or_throw t else Threw "No response from AI"
  | None => Threw "No response from AI"
  end.

(** *** The two chats *)

Definition string_of_Z (z : Z) : string :=
  DecimalString.NilZero.string_of_int (Z.to_int z).

(** [steps.map(s => `${s.step}. ${s.instruction}`).join(' ')]. *)
Definition condensed_steps (steps : list RepairStep.t) : string :=
  String.concat " "
    (map (fun s => string_of_Z (RepairStep.step s) ++ ". " ++ RepairStep.instruction s)
       steps).

(** [history.map(msg => ({ role: msg.role, parts: [{ text: msg.text }] }))]. *)
Definition to_contents (history : list ChatMessage.t) : list Content.t :=
  map (fun msg => Content.mk (ChatMessage.role msg) [text (ChatMessage.text msg)])
    history.

Definition repair_chat (currentContext : FixItResponse.t)
    (history : list ChatMessage.t) : Chat.params :=
  Chat.mk "gemini-2.5-flash"
    (contextInstruction (FixItResponse.title currentContext)
       (FixItResponse.problemDescription currentContext)
       (condensed_steps (FixItResponse.steps currentContext)))
    (to_contents history).

Definition support_chat (history : list ChatMessage.t) : Chat.params :=
  Chat.mk "gemini-2.5-flash" SYSTEM_INSTRUCTION_SUPPORT (to_contents history).

Definition NO_REPLY_REPAIR : string := "I couldn't generate a response.".
Definition NO_REPLY_SUPPORT : string :=
  "I'm having trouble connecting right now. Please try again later.".

Definition getChatResponse (env : Env) (currentContext : FixItResponse.t)
    (history : list ChatMessage.t) (newMessage : string) : outcome string :=
  apiKey <- require_key env "API Key not found" ;;
  result <- sendMessage (connect env apiKey)
              (repair_chat currentContext history) newMessage ;;
  Returned (or_else (Response.text result) NO_REPLY_REPAIR).

Definition getSupportChatResponse (env : Env) (history : list ChatMessage.t)
    (newMessage : string) : outcome string :=
  apiKey <- require_key env "API Key not found" ;;
  result <- sendMessage (connect env apiKey) (support_chat history) newMessage ;;
  Returned (or_else (Response.text result) NO_REPLY_SUPPORT).

(** *** What the declared schema asks of a value

    The service is asked to answer in the schema; the gateway itself never
    checks.  [conforms] is the check it could make: the value has the
    schema's type, every required member is there, and every declared member
    that is there conforms. *)
Definition is_integer (m e : Z) : bool :=
  (0 <=? e)%Z || (m mod 10 ^ (- e) =? 0)%Z.

Fixpoint conforms (sch : Schema) (v : JsValue) {struct sch} : bool :=
  match sch, v with
  | STRING, JStr _ => true
  | INTEGER, JNum m e => is_integer m e
  | ARRAY items, JArr elems => forallb (conforms items) elems
  | OBJECT properties required, JObj props =>
      forallb (fun k => match lookup k props with Some _ => true | None => false end)
        required
      && (fix declared (ps : list (string * Schema)) : bool :=
            match ps with
            | [] => true
            | (k, sch') :: ps' =>
                match lookup k props with
                | Some v' => conforms sch' v'
                | None => true
                end && declared ps'
            end) properties
  | _, _ => false
  end.

End Gateway.

(** ** React state of the components *)

(** [App]'s [useState] cells. *)
Module App.
Record State := mk {
  status : AppStatus;
  result : option FixItResponse.t;
  error : option string;
  history : list FixItResponse.t;
  isSidebarOpen : bool;
  isDarkMode : bool;
  currentMedia : option MediaFile.t;
  detectedItems : list DetectedItem.t
}.

Definition initial : State := mk IDLE None None [] false true None [].

Definition setStatus v s :=
  mk v (result s) (error s) (history s) (isSidebarOpen s) (isDarkMode s)
    (currentMedia s) (detectedItems s).
Definition setResult v s :=
  mk (status s) v (error s) (history s) (isSidebarOpen s) (isDarkMode s)
    (currentMedia s) (detectedItems s).
Definition setError v s :=
  mk (status s) (result s) v (history s) (isSidebarOpen s) (isDarkMode s)
    (currentMedia s) (detectedItems s).
(** [setHistory(prev => f(prev))]. *)
Definition setHistory (f : list FixItResponse.t -> list FixItResponse.t) s :=
  mk (status s) (result s) (error s) (f (history s)) (isSidebarOpen s)
    (isDarkMode s) (currentMedia s) (detectedItems s).
Definition setIsSidebarOpen v s :=
  mk (status s) (result s) (error s) (history s) v (isDarkMode s)
    (currentMedia s) (detectedItems s).
Definition setIsDarkMode v s :=
  mk (status s) (result s) (error s) (history s) (isSidebarOpen s) v
    (currentMedia s) (detectedItems s).
Definition setCurrentMedia v s :=
  mk (status s) (result s) (error s) (history s) (isSidebarOpen s)
    (isDarkMode s) v (detectedItems s).
Definition setDetectedItems v s :=
  mk (status s) (result s) (error s) (history s) (isSidebarOpen s)
    (isDarkMode s) (currentMedia s) v.
End App.

(** [FileUpload]'s preview cell (the camera and drag flags do not reach the
    session and are left out). *)
Module Upload.
Record State := mk { preview : option MediaFile.t }.
Definition initial : State := mk None.
Definition setPreview v (_ : State) := mk v.
End Upload.

(** The cells of a chat panel: [chatHistory]/[messages], [input] and
    [isChatLoading]/[isLoading], in [ResultDisplay] and in [SupportChat]. *)
Module ChatPanel.
Record State := mk {
  chatHistory : list ChatMessage.t;
  input : string;
  isChatLoading : bool
}.
Definition setChatHistory (f : list ChatMessage.t -> list ChatMessage.t) s :=
  mk (f (chatHistory s)) (input s) (isChatLoading s).
Definition setInput v s := mk (chatHistory s) v (isChatLoading s).
Definition setIsChatLoading v s := mk (chatHistory s) (input s) v.

(** [ResultDisplay] starts with an empty transcript. *)
Definition initial : State := mk [] "" false.

(** [SupportChat] starts with its greeting. *)
Definition WELCOME : ChatMessage.t :=
  ChatMessage.mk model
    "Hi! I can help you use the FixIt AI app. What can I do for you?".
Definition initial_support : State := mk [WELCOME] "" false.
End ChatPanel.

(** The mounted components together.  [App] and [SupportChat] live as long
    as the page; [FileUpload] and [ResultDisplay] are mounted and unmounted
    as the status changes, and [uploadGen]/[chatGen] number their
    instances: a [setState] of an instance that is gone does nothing. *)
Module UI.
Record State := mk {
  app : App.State;
  uploadGen : nat;
  upload : Upload.State;
  chatGen : nat;
  chat : ChatPanel.State;
  support : ChatPanel.State
}.

Definition initial : State :=
  mk App.initial 0 Upload.initial 0 ChatPanel.initial ChatPanel.initial_support.

Definition onApp (f : App.State -> App.State) (u : State) : State :=
  mk (f (app u)) (uploadGen u) (upload u) (chatGen u) (chat u) (support u).

Definition onUpload (gen : nat) (f : Upload.State -> Upload.State) (u : State)
  : State :=
  if Nat.eqb gen (uploadGen u)
  then mk (app u) (uploadGen u) (f (upload u)) (chatGen u) (chat u) (support u)
  else u.

Definition onChat (gen : nat) (f : ChatPanel.State -> ChatPanel.State)
    (u : State) : State :=
  if Nat.eqb gen (chatGen u)
  then mk (app u) (uploadGen u) (upload u) (chatGen u) (f (chat u)) (support u)
  else u.

Definition onSupport (f : ChatPanel.State -> ChatPanel.State) (u : State)
  : State :=
  mk (app u) (uploadGen u) (upload u) (chatGen u) (chat u) (f (support u)).
End UI.

(** ** Handlers as processes *)

(** What a synchronous stretch of a handler draws from the platform:
    [crypto.randomUUID()], [Date.now()] and [URL.createObjectURL(file)]. *)
Record Tick := { uuid : string; now : Z; blobUrl : string }.

(** The body of a handler: state updates, alerts, reads of the platform,
    and the points where it awaits.  A [try]/[catch] around an [await] is the
    case analysis on the awaited [outcome]; [Spawn p k] calls the async
    function [p] without awaiting it.  What a gateway call settles with is
    taken at the type the gateway function declares. *)
Inductive Proc : Type :=
| Return
| Set_ (upd : UI.State -> UI.State) (k : Proc)
| Alert (msg : string) (k : Proc)
| RandomUUID (k : string -> Proc)
| DateNow (k : Z -> Proc)
| CreateObjectURL (k : string -> Proc)
| ReadAsDataURL (f : File.t) (onload : option string -> Proc)
| AwaitDetectItems (base64 mimeType : string)
    (k : outcome (list DetectedItem.t) -> Proc)
| AwaitAnalyzeMedia (base64 mimeType : string) (focusContext : option string)
    (k : outcome FixItResponse.t -> Proc)
| AwaitChatResponse (currentContext : FixItResponse.t)
    (history : list ChatMessage.t) (newMessage : string)
    (k : outcome string -> Proc)
| AwaitSupportChatResponse (history : list ChatMessage.t) (newMessage : string)
    (k : outcome string -> Proc)
| Spawn (p : Proc) (k : Proc).

Declare Scope proc_scope.
Delimit Scope proc_scope with proc.
Bind Scope proc_scope with Proc.
Notation "u >> k" := (Set_ u k) (at level 62, right associativity) : proc_scope.

(** An operation in flight and the continuation waiting for it. *)
Inductive Call : Type :=
| FileRead (f : File.t)
| DetectItems (base64 mimeType : string)
| AnalyzeMedia (base64 mimeType : string) (focusContext : option string)
| ChatResponse (currentContext : FixItResponse.t)
    (history : list ChatMessage.t) (newMessage : string)
| SupportChatResponse (history : list ChatMessage.t) (newMessage : string).

Inductive Waiting : Type :=
| OnRead (k : option string -> Proc)
| OnItems (k : outcome (list DetectedItem.t) -> Proc)
| OnAnalysis (k : outcome FixItResponse.t -> Proc)
| OnText (k : outcome string -> Proc).

(** What settles an operation in flight. *)
Inductive Answer : Type :=
| Loaded (dataUrl : option string)
| Items (o : outcome (list DetectedItem.t))
| Analysis (o : outcome FixItResponse.t)
| Reply (o : outcome string).

Definition resume (w : Waiting) (a : Answer) : option Proc :=
  match w, a with
  | OnRead k, Loaded r => Some (k r)
  | OnItems k, Items o => Some (k o)
  | OnAnalysis k, Analysis o => Some (k o)
  | OnText k, Reply o => Some (k o)
  | _, _ => None
  end.

(** One synchronous stretch: the state it leaves, the alerts it raised and
    the operations it started. *)
Record Ran := {
  state : UI.State;
  alerts : list string;
  started : list (Call * Waiting)
}.

Fixpoint run (p : Proc) (tick : Tick) (u : UI.State) : Ran :=
  match p with
  | Return => Build_Ran u [] []
  | Set_ upd k => run k tick (upd u)
  | Alert msg k =>
      let r := run k tick u in
      Build_Ran (state r) (msg :: alerts r) (started r)
  | RandomUUID k => run (k (uuid tick)) tick u
  | DateNow k => run (k (now tick)) tick u
  | CreateObjectURL k => run (k (blobUrl tick)) tick u
  | ReadAsDataURL f onload => Build_Ran u [] [(FileRead f, OnRead onload)]
  | AwaitDetectItems b m k => Build_Ran u [] [(DetectItems b m, OnItems k)]
  | AwaitAnalyzeMedia b m f k =>
      Build_Ran u [] [(AnalyzeMedia b m f, OnAnalysis k)]
  | AwaitChatResponse c h m k => Build_Ran u [] [(ChatResponse c h m, OnText k)]
  | AwaitSupportChatResponse h m k =>
      Build_Ran u [] [(SupportChatResponse h m, OnText k)]
  | Spawn p k =>
      let r1 := run p tick u in
      let r2 := run k tick (state r1) in
      Build_Ran (state r2) (alerts r1 ++ alerts r2) (started r1 ++ started r2)
  end.

(** *** Strings as the handlers use them *)

(** [s.split(sep)] for a one-character separator. *)
Fixpoint split_on (sep : ascii) (s : string) : list string :=
  match s with
  | EmptyString => [EmptyString]
  | String c rest =>
      if Ascii.eqb c sep then EmptyString :: split_on sep rest
      else
        match split_on sep rest with
        | hd :: tl => String c hd :: tl
        | [] => [String c EmptyString]
        end
  end.

(** [!s.trim()]: the text is only white space.  The white space of
    ECMAScript, in the UTF-8 bytes of the text: TAB to CR, space, U+00A0,
    U+1680, U+2000 to U+200A, U+2028, U+2029, U+202F, U+205F, U+3000 and
    U+FEFF. *)
Fixpoint blank (s : string) : bool :=
  match s with
  | EmptyString => true
  | String c rest =>
      let n := nat_of_ascii c in
      if (Nat.leb 9 n && Nat.leb n 13) || Nat.eqb n 32 then blank rest
      else
        match rest with
        | String c2 rest2 =>
            let n2 := nat_of_ascii c2 in
            if Nat.eqb n 194 && Nat.eqb n2 160 then blank rest2
            else
              match rest2 with
              | String c3 rest3 =>
                  let n3 := nat_of_ascii c3 in
                  if (Nat.eqb n 225 && Nat.eqb n2 154 && Nat.eqb n3 128)
                     || (Nat.eqb n 226 && Nat.eqb n2 128
                         && ((Nat.leb 128 n3 && Nat.leb n3 138)
                             || Nat.eqb n3 168 || Nat.eqb n3 169 || Nat.eqb n3 175))
                     || (Nat.eqb n 226 && Nat.eqb n2 129 && Nat.eqb n3 159)
                     || (Nat.eqb n 227 && Nat.eqb n2 128 && Nat.eqb n3 128)
                     || (Nat.eqb n 239 && Nat.eqb n2 187 && Nat.eqb n3 191)
                  then blank rest3
                  else false
              | EmptyString => false
              end
        | EmptyString => false
        end
  end.

(** ** The capture adapter ([FileUpload.tsx]) *)

Module FileUpload.

Definition MAX_SIZE : Z := 20 * 1024 * 1024.

Definition TOO_LARGE : string :=
  "File size too large. Please upload files smaller than 20MB.".

(** What [reader.readAsDataURL(file)] hands to [onload]. *)
Definition dataURL (file : File.t) : string :=
  "data:"
  ++ (if nonempty (File.type file) then File.type file
      else "application/octet-stream")
  ++ ";base64," ++ File.bytes64 file.

(** [handleFile], of the instance [gen] of the component, with the
    [onFileSelect] it was given.  (Its first line, [if (!file) return], never
    fires: every caller passes a [File].) *)
Definition handleFile (gen : nat) (onFileSelect : MediaFile.t -> Proc)
    (file : File.t) : Proc :=
  if (MAX_SIZE <? File.size file)%Z then Alert TOO_LARGE Return
  else
    let fileType := if String.prefix "video" (File.type file) then video else image in
    ReadAsDataURL file (fun result =>
      if truthy_opt result then
        CreateObjectURL (fun url =>
          let mediaFile :=
            MediaFile.mk file url fileType
              (nth_error (split_on "," (or_else result "")) 1) in
          (UI.onUpload gen (Upload.setPreview (Some mediaFile))
           >> onFileSelect mediaFile)%proc)
      else Return).

(** [clearFile], with the [onClear] it was given. *)
Definition clearFile (gen : nat) (onClear : Proc) : Proc :=
  (UI.onUpload gen (Upload.setPreview None) >> onClear)%proc.

End FileUpload.

(** ** The session state machine ([App.tsx]) *)

Module Session.

Import App.

Definition DETECTION_FAILED : string :=
  "Failed to identify items in the image. Please try again.".
Definition DIAGNOSIS_FAILED : string :=
  "Failed to generate repair guide. Please try again.".

Definition set (f : App.State -> App.State) : UI.State -> UI.State := UI.onApp f.

Definition handleFileSelect (media : MediaFile.t) : Proc :=
  if negb (truthy_opt (MediaFile.base64 media)) then Return
  else
    (set (setCurrentMedia (Some media))
     >> set (setStatus UPLOADED)
     >> set (setError None)
     >> Return)%proc.

(** [currentMedia?.base64], when it is truthy, with the media. *)
Definition captured (render : App.State) : option (MediaFile.t * string) :=
  match currentMedia render with
  | Some media =>
      match MediaFile.base64 media with
      | Some b => if nonempty b then Some (media, b) else None
      | None => None
      end
  | None => None
  end.

(** [{ ...analysisResult, id, timestamp, imageUrl }]: the three stamps
    replace whatever the analysis result carried under those names. *)
Definition with_meta (analysisResult : FixItResponse.t) (id : string)
    (timestamp : Z) (imageUrl : string) : FixItResponse.t :=
  FixItResponse.mk (Some id) (Some timestamp) (Some imageUrl)
    (FixItResponse.title analysisResult)
    (FixItResponse.problemDescription analysisResult)
    (FixItResponse.rootCause analysisResult)
    (FixItResponse.safetyWarnings analysisResult)
    (FixItResponse.toolsNeeded analysisResult)
    (FixItResponse.steps analysisResult)
    (FixItResponse.visualGuide analysisResult)
    (FixItResponse.annotations analysisResult).

(** [`${item.name} - ${item.description}`], or [undefined]. *)
Definition focus_of (item : option DetectedItem.t) : option string :=
  match item with
  | Some i => Some (DetectedItem.name i ++ " - " ++ DetectedItem.description i)
  | None => None
  end.

(** [handleItemSelect] as created by the render [render], whose
    [currentMedia] it closes over. *)
Definition handleItemSelect (render : App.State) (item : option DetectedItem.t)
  : Proc :=
  match captured render with
  | None => Return
  | Some (media, base64) =>
      (set (setStatus ANALYZING)
       >> AwaitAnalyzeMedia base64 (File.type (MediaFile.file media)) (focus_of item)
            (fun settled =>
               match settled with
               | Returned analysisResult =>
                   RandomUUID (fun id =>
                   DateNow (fun timestamp =>
                     let resultWithMeta :=
                       with_meta analysisResult id timestamp
                         (MediaFile.previewUrl media) in
                     set (setResult (Some resultWithMeta))
                     >> set (setHistory (cons resultWithMeta))
                     >> set (setStatus SUCCESS)
                     >> Return))
               | Threw _ =>
                   set (setStatus ERROR)
                   >> set (setError (Some DIAGNOSIS_FAILED))
                   >> Return
               end))%proc
  end.

(** [handleStartDetection] as created by the render [render]; the
    [handleItemSelect] it calls is the one of the same render. *)
Definition handleStartDetection (render : App.State) : Proc :=
  match captured render with
  | None => Return
  | Some (media, base64) =>
      (set (setStatus DETECTING)
       >> set (setError None)
       >> AwaitDetectItems base64 (File.type (MediaFile.file media))
            (fun settled =>
               match settled with
               | Returned items =>
                   if Nat.ltb 0 (List.length items) then
                     set (setDetectedItems items)
                     >> set (setStatus SELECTING)
                     >> Return
                   else Spawn (handleItemSelect render None) Return
               | Threw _ =>
                   set (setStatus ERROR)
                   >> set (setError (Some DETECTION_FAILED))
                   >> Return
               end))%proc
  end.

Definition handleReset : Proc :=
  (set (setStatus IDLE)
   >> set (setResult None)
   >> set (setError None)
   >> set (setCurrentMedia None)
   >> set (setDetectedItems [])
   >> Return)%proc.

Definition handleClearFile : Proc :=
  (set (setStatus IDLE)
   >> set (setCurrentMedia None)
   >> set (setDetectedItems [])
   >> Return)%proc.

Definition handleSelectAnother : Proc :=
  (set (setResult None) >> set (setStatus SELECTING) >> Return)%proc.

Definition handleHistorySelect (item : FixItResponse.t) : Proc :=
  (set (setResult (Some item))
   >> set (setStatus SUCCESS)
   >> set (setIsSidebarOpen false)
   >> Return)%proc.

End Session.

(** ** The two chats ([ResultDisplay.tsx], [SupportChat.tsx]) *)

Module Chats.

Import ChatPanel.

Definition REPAIR_APOLOGY : string :=
  "Sorry, I encountered an error answering that.".
Definition SUPPORT_APOLOGY : string :=
  "Sorry, I'm having trouble connecting. Please check your internet or try again.".

Definition append (msg : ChatMessage.t) (prev : list ChatMessage.t) :=
  (prev ++ [msg])%list.

(** [handleSendChat] of the instance [gen] of [ResultDisplay], as created
    by a render with the diagnosis [data] and the cells [render]. *)
Definition handleSendChat (gen : nat) (data : FixItResponse.t)
    (render : ChatPanel.State) : Proc :=
  if blank (input render) || isChatLoading render then Return
  else
    let set f := UI.onChat gen f in
    let userMsg := ChatMessage.mk user (input render) in
    (set (setChatHistory (append userMsg))
     >> set (setInput "")
     >> set (setIsChatLoading true)
     >> AwaitChatResponse data (chatHistory render) (ChatMessage.text userMsg)
          (fun settled =>
             match settled with
             | Returned responseText =>
                 set (setChatHistory (append (ChatMessage.mk model responseText)))
                 >> set (setIsChatLoading false)
                 >> Return
             | Threw _ =>
                 set (setChatHistory (append (ChatMessage.mk model REPAIR_APOLOGY)))
                 >> set (setIsChatLoading false)
                 >> Return
             end))%proc.

(** [handleSend] of [SupportChat], as created by a render with the cells
    [render]. *)
Definition handleSend (render : ChatPanel.State) : Proc :=
  if blank (input render) || isChatLoading render then Return
  else
    let set f := UI.onSupport f in
    let userMsg := ChatMessage.mk user (input render) in
    (set (setChatHistory (append userMsg))
     >> set (setInput "")
     >> set (setIsChatLoading true)
     >> AwaitSupportChatResponse (chatHistory render) (ChatMessage.text userMsg)
          (fun settled =>
             match settled with
             | Returned responseText =>
                 set (setChatHistory (append (ChatMessage.mk model responseText)))
                 >> set (setIsChatLoading false)
                 >> Return
             | Threw _ =>
                 set (setChatHistory (append (ChatMessage.mk model SUPPORT_APOLOGY)))
                 >> set (setIsChatLoading false)
                 >> Return
             end))%proc.

End Chats.

(** ** The presentation mapper ([AnnotatedImage] in [ResultDisplay.tsx]) *)

Module Presentation.

(** The arithmetic of the source is that of JavaScript numbers, binary64,
    and is taken in binary64: the primitive floating-point numbers, with
    their division, multiplication and subtraction rounding as IEEE 754
    prescribes. *)

(** The number an integer entry of the box is: the integer rounded to
    binary64 (to nearest, ties to even), as [JSON.parse] reads it. *)
Definition of_integer (n : Z) : PrimFloat.float :=
  FloatOps.SF2Prim
    (SpecFloat.binary_normalize FloatOps.prec FloatOps.emax n 0 false).

(** An entry read by the destructuring [[ymin, xmin, ymax, xmax] = box_2d]:
    a missing one is [undefined], which arithmetic turns into [NaN]. *)
Definition number (entry : option Z) : PrimFloat.float :=
  match entry with
  | Some n => of_integer n
  | None => PrimFloat.nan
  end.

(** [(x / 1000) * 100]. *)
Definition percent (x : PrimFloat.float) : PrimFloat.float :=
  PrimFloat.mul (PrimFloat.div x (of_integer 1000)) (of_integer 100).

(** The [style] of one overlay, in percent of the displayed image. *)
Record Overlay := {
  top : PrimFloat.float; left : PrimFloat.float;
  height : PrimFloat.float; width : PrimFloat.float
}.

Definition overlay (ann : Annotation.t) : Overlay :=
  let box := Annotation.box_2d ann in
  let ymin := number (nth_error box 0) in
  let xmin := number (nth_error box 1) in
  let ymax := number (nth_error box 2) in
  let xmax := number (nth_error box 3) in
  {| top := percent ymin;
     left := percent xmin;
     height := percent (PrimFloat.sub ymax ymin);
     width := percent (PrimFloat.sub xmax xmin) |}.

(** [(n / 1000) * 100] for an integer [n]. *)
Definition percent64 (n : Z) : PrimFloat.float := percent (of_integer n).

(** The overlays drawn over the image: none without annotations. *)
Definition AnnotatedImage (annotations : option (list Annotation.t))
  : list (string * Overlay) :=
  match annotations with
  | None => []
  | Some anns => map (fun ann => (Annotation.label ann, overlay ann)) anns
  end.

End Presentation.

(** ** The page as a transition system *)

Module Machine.

Import App.

Record Sys := { ui : UI.State; pending : list (Call * Waiting) }.

Definition initial : Sys := {| ui := UI.initial; pending := [] |}.

(** What the user and the platform can do. *)
Inductive Event : Type :=
| Pick (f : File.t)          (* browse, drop or camera shot *)
| Paste (f : File.t)
| ClickClear                 (* the cross on the preview *)
| ClickAnalyze
| ClickItem (i : nat)
| ClickReset                 (* logo, New Analysis, Cancel, Try Again, New Upload *)
| ClickSelectAnother
| OpenSidebar
| CloseSidebar
| ClickHistory (i : nat)
| ToggleDarkMode
| TypeChat (s : string)
| SendChat
| TypeSupport (s : string)
| SendSupport
| Settle (i : nat) (a : Answer).

(** Which components the render of a state mounts. *)
Definition showsUpload (a : App.State) : bool :=
  match status a with IDLE | UPLOADED => true | _ => false end.

Definition showsSelector (a : App.State) : bool :=
  match status a, currentMedia a with SELECTING, Some _ => true | _, _ => false end.

Definition shownResult (a : App.State) : option FixItResponse.t :=
  match status a with SUCCESS => result a | _ => None end.

Definition is_some {A} (o : option A) : bool :=
  match o with Some _ => true | None => false end.

Definition contains (sub s : string) : bool := is_some (String.index 0 sub s).

Fixpoint remove_nth {A} (i : nat) (l : list A) : list A :=
  match l, i with
  | [], _ => []
  | _ :: tl, O => tl
  | hd :: tl, S j => hd :: remove_nth j tl
  end.

(** The handler an event invokes, with the closures of the current render,
    and the operations left in flight; [None] when the render offers no
    such control (or nothing such is in flight). *)
Definition dispatch (s : Sys) (e : Event) : option (Proc * list (Call * Waiting)) :=
  let u := ui s in
  let a := UI.app u in
  let offered (b : bool) (p : Proc) :=
    if b then Some (p, pending s) else None in
  match e with
  | Pick f =>
      offered (showsUpload a && negb (is_some (Upload.preview (UI.upload u))))
        (FileUpload.handleFile (UI.uploadGen u) Session.handleFileSelect f)
  | Paste f =>
      offered (showsUpload a && contains "image" (File.type f))
        (FileUpload.handleFile (UI.uploadGen u) Session.handleFileSelect f)
  | ClickClear =>
      offered (showsUpload a && is_some (Upload.preview (UI.upload u)))
        (FileUpload.clearFile (UI.uploadGen u) Session.handleClearFile)
  | ClickAnalyze =>
      offered (match status a with UPLOADED => true | _ => false end)
        (Session.handleStartDetection a)
  | ClickItem i =>
      match nth_error (detectedItems a) i with
      | Some item =>
          offered (showsSelector a) (Session.handleItemSelect a (Some item))
      | None => None
      end
  | ClickReset => offered true Session.handleReset
  | ClickSelectAnother =>
      offered (is_some (shownResult a) && Nat.ltb 0 (List.length (detectedItems a)))
        Session.handleSelectAnother
  | OpenSidebar => offered true (Session.set (setIsSidebarOpen true) >> Return)%proc
  | CloseSidebar =>
      offered (isSidebarOpen a) (Session.set (setIsSidebarOpen false) >> Return)%proc
  | ClickHistory i =>
      match nth_error (history a) i with
      | Some item =>
          offered (isSidebarOpen a)
            (Spawn (Session.handleHistorySelect item)
               (Session.set (setIsSidebarOpen false) >> Return))%proc
      | None => None
      end
  | ToggleDarkMode =>
      offered true (Session.set (setIsDarkMode (negb (isDarkMode a))) >> Return)%proc
  | TypeChat text =>
      offered (is_some (shownResult a))
        (UI.onChat (UI.chatGen u) (ChatPanel.setInput text) >> Return)%proc
  | SendChat =>
      match shownResult a with
      | Some data => offered true (Chats.handleSendChat (UI.chatGen u) data (UI.chat u))
      | None => None
      end
  | TypeSupport text =>
      offered true (UI.onSupport (ChatPanel.setInput text) >> Return)%proc
  | SendSupport => offered true (Chats.handleSend (UI.support u))
  | Settle i ans =>
      match nth_error (pending s) i with
      | Some (call, w) =>
          let faithful :=
            match call, ans with
            | FileRead f, Loaded r =>
                match r with
                | Some url => String.eqb url (FileUpload.dataURL f)
                | None => false
                end
            | _, _ => true
            end in
          match resume w ans with
          | Some p => if faithful then Some (p, remove_nth i (pending s)) else None
          | None => None
          end
      | None => None
      end
  end.

Definition same_id (r1 r2 : option FixItResponse.t) : bool :=
  match r1, r2 with
  | Some x, Some y =>
      match FixItResponse.id x, FixItResponse.id y with
      | Some i, Some j => String.eqb i j
      | None, None => true
      | _, _ => false
      end
  | _, _ => false
  end.

(** The render that follows a task: a [FileUpload] or [ResultDisplay] that
    is no longer shown is unmounted, its cells are lost and its pending
    [setState]s become void; a [ResultDisplay] that stays while [data.id]
    changes runs its effect, which empties the transcript and the input. *)
Definition rerender (old new : UI.State) : UI.State :=
  let a0 := UI.app old in
  let a1 := UI.app new in
  let '(ug, up) :=
    if showsUpload a0 && negb (showsUpload a1)
    then (S (UI.uploadGen new), Upload.initial)
    else (UI.uploadGen new, UI.upload new) in
  let '(cg, ch) :=
    match shownResult a0, shownResult a1 with
    | Some _, None => (S (UI.chatGen new), ChatPanel.initial)
    | Some _, Some _ =>
        if same_id (shownResult a0) (shownResult a1)
        then (UI.chatGen new, UI.chat new)
        else (UI.chatGen new,
              ChatPanel.setInput "" (ChatPanel.setChatHistory (fun _ => []) (UI.chat new)))
    | None, _ => (UI.chatGen new, UI.chat new)
    end in
  UI.mk a1 ug up cg ch (UI.support new).

(** One task: the handler runs to its end or to its awaits, then the page
    renders.  The result carries the alerts shown. *)
Definition step (tick : Tick) (s : Sys) (e : Event) : option (Sys * list string) :=
  match dispatch s e with
  | Some (p, rest) =>
      let r := run p tick (ui s) in
      Some ({| ui := rerender (ui s) (state r); pending := rest ++ started r |},
            alerts r)
  | None => None
  end.

Fixpoint exec (s : Sys) (trace : list (Tick * Event)) : option Sys :=
  match trace with
  | [] => Some s
  | (tick, e) :: rest =>
      match step tick s e with
      | Some (s', _) => exec s' rest
      | None => None
      end
  end.

Definition reachable (s : Sys) : Prop := exists trace, exec initial trace = Some s.

End Machine.

(** ** Vocabulary of the statements *)

Module GatewaySpec.

Import Json Gateway.

(** The service answered the detection request of [detectItems env b m] with
    the response text [t]. *)
Definition answered (env : Env) (b m : string) (t : option string) : Prop :=
  exists apiKey response,
    require_key env "API Key not found" = Returned apiKey
    /\ generateContent (connect env apiKey) (detection_request b m)
       = Returned response
    /\ Response.text response = t.

(** The reading of the specification: whatever [detectItems] returns is the
    [items] member of a response text that parses and conforms to the
    declared schema. *)
Definition returns_only_valid_lists (env : Env) (b m : string) : Prop :=
  forall v,
    detectItems env b m = Returned v ->
    exists t parsed,
      answered env b m (Some t)
      /\ JSON_parse t = Some parsed
      /\ conforms RESPONSE_SCHEMA_DETECTION parsed = true
      /\ get_items parsed = Returned (Some v).

(** A service that answers every request with the text [t] (or with none). *)
Definition answering (t : option string) : Env :=
  {| API_KEY := Some "key";
     connect := fun _ =>
       {| generateContent := fun _ => Returned (Response.mk t);
          sendMessage := fun _ _ => Returned (Response.mk t) |} |}.

(** A parsed value read at the type [detectItems] declares,
    [DetectedItem[]]: an array of objects with three string members. *)
Definition as_item (v : JsValue) : option DetectedItem.t :=
  match v with
  | JObj props =>
      match lookup "id" props, lookup "name" props, lookup "description" props with
      | Some (JStr i), Some (JStr n), Some (JStr d) => Some (DetectedItem.mk i n d)
      | _, _, _ => None
      end
  | _ => None
  end.

Fixpoint as_items (elems : list JsValue) : option (list DetectedItem.t) :=
  match elems with
  | [] => Some []
  | v :: rest =>
      match as_item v, as_items rest with
      | Some i, Some l => Some (i :: l)
      | _, _ => None
      end
  end.

(** A response with one item, as text and as parsed. *)
Definition faucet_text : string :=
  "{" ++ dq ++ "items" ++ dq ++ ": [{"
  ++ dq ++ "id" ++ dq ++ ": " ++ dq ++ "1" ++ dq ++ ", "
  ++ dq ++ "name" ++ dq ++ ": " ++ dq ++ "Faucet" ++ dq ++ ", "
  ++ dq ++ "description" ++ dq ++ ": " ++ dq ++ "dripping" ++ dq ++ "}]}".

Definition faucet_json : JsValue :=
  JObj [("items",
         JArr [JObj [("id", JStr "1"); ("name", JStr "Faucet");
                     ("description", JStr "dripping")]])].

End GatewaySpec.

Module PresentationSpec.

(** The rational a finite binary64 number is. *)
Definition exact (f : PrimFloat.float) : option Q :=
  match FloatOps.Prim2SF f with
  | SpecFloat.S754_zero _ => Some 0%Q
  | SpecFloat.S754_finite s m e =>
      let v := if s then Z.neg m else Z.pos m in
      Some (if (0 <=? e)%Z then inject_Z (v * 2 ^ e)
            else Qmake v (Pos.pow 2 (Z.to_pos (- e))))
  | SpecFloat.S754_infinity _ | SpecFloat.S754_nan => None
  end.

(** [percent64 n] is a number between 0 and 100, at most [2^-46] away from
    [n / 10]. *)
Definition close (n : Z) : bool :=
  match exact (Presentation.percent64 n) with
  | Some q =>
      Qle_bool 0 q && Qle_bool q 100
      && Qle_bool (Qabs (q - inject_Z n / 10)) (1 # 2 ^ 46)
  | None => false
  end.

(** The reading of the specification: the overlay lies within the image,
    [top], [left], [top + height] and [left + width] between 0 and 100. *)
Definition within (o : Presentation.Overlay) : Prop :=
  exists t l h w,
    exact (Presentation.top o) = Some t
    /\ exact (Presentation.left o) = Some l
    /\ exact (Presentation.height o) = Some h
    /\ exact (Presentation.width o) = Some w
    /\ (0 <= t <= 100 /\ 0 <= l <= 100
        /\ 0 <= t + h <= 100 /\ 0 <= l + w <= 100)%Q.

(** The integers from 0 to 1000, and a check of all pairs of them. *)
Definition range : list Z := map Z.of_nat (seq 0 1001).

Definition all_pairs (P : Z -> Z -> bool) : bool :=
  forallb (fun a => forallb (P a) range) range.

(** The conversion of the processor, for an integer from 0 below [2^63]. *)
Definition quick (n : Z) : PrimFloat.float :=
  PrimFloat.of_uint63 (Uint63.of_Z n).

(** The difference of two entries is computed without rounding. *)
Definition difference_exact (a b : Z) : bool :=
  if (a <=? b)%Z
  then PrimFloat.Leibniz.eqb (PrimFloat.sub (quick b) (quick a)) (quick (b - a))
  else true.

(** [((b - a) / 1000) * 100] is below zero exactly when [b < a]. *)
Definition negative_when_reversed (a b : Z) : bool :=
  Bool.eqb
    (PrimFloat.ltb
       (PrimFloat.mul
          (PrimFloat.div (PrimFloat.sub (quick b) (quick a)) (quick 1000))
          (quick 100))
       (quick 0))
    (b <? a)%Z.

End PresentationSpec.

Module MachineSpec.

Import App Machine.

(** *** What every handler respects

    [respects P p]: every single update of the process [p], now or after any
    of its awaits, relates the state before to the state after by [P]. *)
Section Keeping.

Variable P : UI.State -> UI.State -> Prop.

Fixpoint respects (p : Proc) : Prop :=
  match p with
  | Return => True
  | Set_ upd k => (forall u, P u (upd u)) /\ respects k
  | Alert _ k => respects k
  | RandomUUID k => forall x, respects (k x)
  | DateNow k => forall x, respects (k x)
  | CreateObjectURL k => forall x, respects (k x)
  | ReadAsDataURL _ k => forall x, respects (k x)
  | AwaitDetectItems _ _ k => forall x, respects (k x)
  | AwaitAnalyzeMedia _ _ _ k => forall x, respects (k x)
  | AwaitChatResponse _ _ _ k => forall x, respects (k x)
  | AwaitSupportChatResponse _ _ k => forall x, respects (k x)
  | Spawn p k => respects p /\ respects k
  end.

Definition respects_waiting (cw : Call * Waiting) : Prop :=
  forall a p, resume (snd cw) a = Some p -> respects p.

End Keeping.

(** The history of the state after is the one before with entries put in
    front. *)
Definition grows (u u' : UI.State) : Prop :=
  exists new, history (UI.app u') = (new ++ history (UI.app u))%list.

(** Every operation in flight waits with a continuation that keeps the
    history. *)
Definition well_formed (s : Sys) : Prop :=
  Forall (respects_waiting grows) (pending s).

(** [stamps tick pushed p]: run in a task that draws [tick], the process
    [p] puts at most one entry in front of the history (none if [pushed]),
    with the identifier of [tick], and changes the history in no other way;
    and so do its continuations, each in the task it runs in. *)
Fixpoint stamps (tick : Tick) (pushed : bool) (p : Proc) {struct p} : Prop :=
  match p with
  | Return => True
  | Set_ upd k =>
      ((forall u, history (UI.app (upd u)) = history (UI.app u))
       /\ stamps tick pushed k)
      \/ (pushed = false
          /\ (exists r,
                FixItResponse.id r = Some (uuid tick)
                /\ forall u, history (UI.app (upd u)) = r :: history (UI.app u))
          /\ stamps tick true k)
  | Alert _ k => stamps tick pushed k
  | RandomUUID k => stamps tick pushed (k (uuid tick))
  | DateNow k => stamps tick pushed (k (now tick))
  | CreateObjectURL k => stamps tick pushed (k (blobUrl tick))
  | ReadAsDataURL _ k => forall tick' x, stamps tick' false (k x)
  | AwaitDetectItems _ _ k => forall tick' x, stamps tick' false (k x)
  | AwaitAnalyzeMedia _ _ _ k => forall tick' x, stamps tick' false (k x)
  | AwaitChatResponse _ _ _ k => forall tick' x, stamps tick' false (k x)
  | AwaitSupportChatResponse _ _ k => forall tick' x, stamps tick' false (k x)
  | Spawn p k => stamps tick true p /\ stamps tick pushed k
  end.

Definition stamps_waiting (cw : Call * Waiting) : Prop :=
  forall tick a p, resume (snd cw) a = Some p -> stamps tick false p.

Definition well_stamped (s : Sys) : Prop := Forall stamps_waiting (pending s).

Definition identifiers (s : Sys) : list (option string) :=
  map FixItResponse.id (history (UI.app (ui s))).

(** A run in which [crypto.randomUUID()] never gives an identifier that is
    already in the history. *)
Fixpoint fresh_run (s : Sys) (trace : list (Tick * Event)) : Prop :=
  match trace with
  | [] => True
  | (tick, e) :: rest =>
      ~ In (Some (uuid tick)) (identifiers s)
      /\ match step tick s e with
         | Some (s', _) => fresh_run s' rest
         | None => True
         end
  end.

(** The reading of the specification: where both are offered, clearing the
    capture and resetting leave the same session state. *)
Definition clear_like_reset (s : Sys) : Prop :=
  forall tick cleared reset shown shown',
    step tick s ClickClear = Some (cleared, shown) ->
    step tick s ClickReset = Some (reset, shown') ->
    UI.app (ui cleared) = UI.app (ui reset).

(** *** A session, for the examples *)

Definition photo (name bytes64 : string) : File.t :=
  File.mk name 2097152%Z "image/jpeg" bytes64.

Definition first_photo : File.t := photo "tap.jpg" "QUJD".
Definition second_photo : File.t := photo "sink.jpg" "REVG".
Definition third_photo : File.t := photo "pipe.jpg" "R0hJ".

Definition early : Tick := {| uuid := "uuid-1"; now := 1700000000000%Z; blobUrl := "blob:1" |}.
Definition late : Tick := {| uuid := "uuid-2"; now := 1700000060000%Z; blobUrl := "blob:2" |}.

Definition loaded (f : File.t) : Answer := Loaded (Some (FileUpload.dataURL f)).

Definition first_media : MediaFile.t :=
  MediaFile.mk first_photo "blob:1" image (Some "QUJD").

Definition faucet : DetectedItem.t := DetectedItem.mk "1" "Faucet" "dripping".

(** An analysis result as the model may send it, with an [id] of its own. *)
Definition analysis : FixItResponse.t :=
  FixItResponse.mk (Some "from-the-model") None None
    "Leaky tap" "The tap drips." "Worn washer"
    ["Close the water supply."] ["Wrench"]
    [RepairStep.mk 1%Z "Close the valve" "Turn it clockwise.";
     RepairStep.mk 2%Z "Replace the washer" "Use one of the same size."]
    "Look at the [valve]." (Some [Annotation.mk "Leak" [100; 200; 300; 400]%Z]).

Definition stored_analysis : FixItResponse.t :=
  Session.with_meta analysis "uuid-1" 1700000000000%Z "blob:1".

(** Capture, detection of one item, its selection, diagnosis. *)
Definition faucet_trace : list (Tick * Event) :=
  [ (early, Pick first_photo);
    (early, Settle 0 (loaded first_photo));
    (early, ClickAnalyze);
    (early, Settle 0 (Items (Returned [faucet])));
    (early, ClickItem 0);
    (early, Settle 0 (Analysis (Returned analysis))) ].

(** After a first diagnosis and a reset, the user picks a photo and, while
    it is being read, opens an entry of the history; the read then
    completes; the user picks another photo, whose preview shows the
    cross. *)
Definition stale_result_trace : list (Tick * Event) :=
  (faucet_trace ++
  [ (late, ClickReset);
    (late, Pick second_photo);
    (late, OpenSidebar);
    (late, ClickHistory 0);
    (late, Settle 0 (loaded second_photo));
    (late, Pick third_photo);
    (late, Settle 0 (loaded third_photo)) ])%list.

(** A question is sent under the first result and, while its call is
    running, the user starts a new analysis. *)
Definition abandoned_chat_trace : list (Tick * Event) :=
  (faucet_trace ++
  [ (late, TypeChat "Which washer?");
    (late, SendChat);
    (late, ClickReset) ])%list.

(** A second photo is diagnosed, a question is sent under its result and,
    while its call is running, the user opens the first result from the
    history. *)
Definition switched_chat_trace : list (Tick * Event) :=
  (faucet_trace ++
  [ (late, ClickReset);
    (late, Pick second_photo);
    (late, Settle 0 (loaded second_photo));
    (late, ClickAnalyze);
    (late, Settle 0 (Items (Returned [])));
    (late, Settle 0 (Analysis (Returned analysis)));
    (late, TypeChat "Which washer?");
    (late, SendChat);
    (late, OpenSidebar);
    (late, ClickHistory 1) ])%list.

(** C6 as the spec words it for the repair chat: whenever the call of a
    send fails, the transcript then holds the message sent and, as a [model]
    turn, the apology. *)
Definition failure_keeps_the_exchange (s : Sys) : Prop :=
  forall i data sent message tick msg s' shown,
    nth_error (map fst (pending s)) i = Some (ChatResponse data sent message) ->
    step tick s (Settle i (Reply (Threw msg))) = Some (s', shown) ->
    In (ChatMessage.mk user message) (ChatPanel.chatHistory (UI.chat (ui s')))
    /\ In (ChatMessage.mk model "Sorry, I encountered an error answering that.")
         (ChatPanel.chatHistory (UI.chat (ui s'))).

(** The state a trace leads to from the initial page. *)
Definition run_trace (trace : list (Tick * Event)) : Sys :=
  match exec initial trace with
  | Some s => s
  | None => initial
  end.

(** The render in which the first photo is captured. *)
Definition captured_render : App.State :=
  App.mk UPLOADED None None [] false true (Some first_media) [].

(** A transcript with a question typed in. *)
Definition asking (question : string) : ChatPanel.State :=
  ChatPanel.mk [] question false.

Definition oversized : File.t :=
  File.mk "film.mp4" (25 * 1024 * 1024)%Z "video/mp4" "AAAA".

End MachineSpec.

(** ** The inline markup of the visual guide ([formatText] in
    [ResultDisplay.tsx]) *)

Module Markup.

Definition LF : string := String (ascii_of_nat 10) EmptyString.

(** Whether a line terminator starts [s]: LF, CR, U+2028 or U+2029 (in
    UTF-8, E2 80 A8 and E2 80 A9).  These are what [.] does not match. *)
Definition at_line_terminator (s : string) : bool :=
  match s with
  | String c rest =>
      let n := nat_of_ascii c in
      Nat.eqb n 10 || Nat.eqb n 13
      || (Nat.eqb n 226
          && match rest with
             | String c2 (String c3 _) =>
                 Nat.eqb (nat_of_ascii c2) 128
                 && (Nat.eqb (nat_of_ascii c3) 168 || Nat.eqb (nat_of_ascii c3) 169)
             | _ => false
             end)
  | EmptyString => false
  end.

(** [.*?close] at the head of [s]: the shortest run of characters other than
    line terminators that [close] follows; the run, and what follows
    [close]. *)
Fixpoint lazy_until (close : string) (s : string) : option (string * string) :=
  match Json.strip_prefix close s with
  | Some rest => Some (EmptyString, rest)
  | None =>
      match s with
      | EmptyString => None
      | String c s' =>
          if at_line_terminator s then None
          else
            match lazy_until close s' with
            | Some (run, rest) => Some (String c run, rest)
            | None => None
            end
      end
  end.

(** [open.*?close] at the head of [s]: the text matched, and the rest. *)
Definition delimited (open close : string) (s : string) : option (string * string) :=
  match Json.strip_prefix open s with
  | Some inner =>
      match lazy_until close inner with
      | Some (run, rest) => Some (open ++ run ++ close, rest)
      | None => None
      end
  | None => None
  end.

Definition or_try {A} (a b : option A) : option A :=
  match a with
  | Some x => Some x
  | None => b
  end.

(** One match of [(\n|\*\*.*?\*\*|\*.*?\*|\[.*?\])] at the head of [s], the
    alternatives tried in their order. *)
Definition token_at (s : string) : option (string * string) :=
  or_try (option_map (fun rest => (LF, rest)) (Json.strip_prefix LF s))
    (or_try (delimited "**" "**" s)
       (or_try (delimited "*" "*" s) (delimited "[" "]" s))).

(** [text.split(pattern)] with the pattern in a capturing group: the
    stretches between the matches and the matches themselves, in their
    order.  [seg] is the stretch read so far; [None] is fuel run out. *)
Fixpoint split_tokens (fuel : nat) (seg : string) (s : string)
  : option (list string) :=
  match fuel with
  | O => None
  | S fuel' =>
      match s with
      | EmptyString => Some [seg]
      | String c s' =>
          match token_at s with
          | Some (tok, rest) =>
              match split_tokens fuel' EmptyString rest with
              | Some parts => Some (seg :: tok :: parts)
              | None => None
              end
          | None => split_tokens fuel' (seg ++ String c EmptyString) s'
          end
      end
  end.

Definition split (text : string) : list string :=
  match split_tokens (S (String.length text)) EmptyString text with
  | Some parts => parts
  | None => []
  end.

(** The elements [formatText] builds. *)
Inductive Node : Type :=
| br
| strong (t : string)
| em (t : string)
| highlight (t : string)
| span (t : string).

Definition startsWith (p s : string) : bool := String.prefix p s.

Definition endsWith (p s : string) : bool :=
  Nat.leb (String.length p) (String.length s)
  && String.eqb
       (String.substring (String.length s - String.length p) (String.length p) s) p.

(** [part.slice(from, -back)], for [from] and [back] within the part or
    not: empty when they cross. *)
Definition slice (from back : nat) (part : string) : string :=
  String.substring from (String.length part - back - from) part.

Definition element (part : string) : Node :=
  if String.eqb part LF then br
  else if startsWith "**" part && endsWith "**" part then strong (slice 2 2 part)
  else if startsWith "*" part && endsWith "*" part then em (slice 1 1 part)
  else if startsWith "[" part && endsWith "]" part then highlight (slice 1 1 part)
  else span part.

(** [formatText(text)]; [None] is the [null] returned for an empty text. *)
Definition formatText (text : string) : option (list Node) :=
  if nonempty text then Some (map element (split text)) else None.

End Markup.

(** ** Vocabulary of the further statements *)

Module MarkupSpec.

Import Markup.

(** No character of [s] is [c]. *)
Fixpoint free_of (c : ascii) (s : string) : bool :=
  match s with
  | EmptyString => true
  | String c' rest => negb (Ascii.eqb c' c) && free_of c rest
  end.

(** No line terminator anywhere in [s]. *)
Fixpoint one_line (s : string) : bool :=
  match s with
  | EmptyString => true
  | String _ rest => negb (at_line_terminator s) && one_line rest
  end.

(** No character of [s] can start a token: no line feed, star or opening
    bracket. *)
Definition plain (s : string) : bool :=
  free_of (ascii_of_nat 10) s && free_of "*" s && free_of "[" s.

(** The well-formed tokens and the element each stands for. *)
Inductive token : string -> Node -> Prop :=
| token_br : token LF br
| token_strong x :
    free_of "*" x = true -> one_line x = true ->
    token ("**" ++ x ++ "**") (strong x)
| token_em x :
    x <> EmptyString -> free_of "*" x = true -> one_line x = true ->
    token ("*" ++ x ++ "*") (em x)
| token_highlight x :
    free_of "]" x = true -> one_line x = true ->
    token ("[" ++ x ++ "]") (highlight x).

End MarkupSpec.


(** ** Further vocabulary: the gateway *)

Module GatewayCases.

Import Gateway.

(** An environment whose credential is the empty string, in front of a
    service that would answer. *)
Definition no_key : Env :=
  {| API_KEY := Some EmptyString;
     connect := connect (GatewaySpec.answering (Some GatewaySpec.faucet_text)) |}.

End GatewayCases.

(** ** Further vocabulary: what holds in every state of the page *)

Module Coherence.

Import App Machine.

Section Keeping.

Variable I : UI.State -> Prop.

(** Run as a task in a state where [I] holds, [p] leaves a state where [I]
    holds. *)
Definition task (p : Proc) : Prop :=
  forall tick u, I u -> I (state (run p tick u)).

(** Every continuation of [p], after any of its awaits, is such a task, and
    so are the continuations of that one. *)
Fixpoint later (p : Proc) : Prop :=
  match p with
  | Return => True
  | Set_ _ k => later k
  | Alert _ k => later k
  | RandomUUID k => forall x, later (k x)
  | DateNow k => forall x, later (k x)
  | CreateObjectURL k => forall x, later (k x)
  | ReadAsDataURL _ k => forall x, task (k x) /\ later (k x)
  | AwaitDetectItems _ _ k => forall x, task (k x) /\ later (k x)
  | AwaitAnalyzeMedia _ _ _ k => forall x, task (k x) /\ later (k x)
  | AwaitChatResponse _ _ _ k => forall x, task (k x) /\ later (k x)
  | AwaitSupportChatResponse _ _ k => forall x, task (k x) /\ later (k x)
  | Spawn p k => later p /\ later k
  end.

Definition waiting_keeps (cw : Call * Waiting) : Prop :=
  forall a p, resume (snd cw) a = Some p -> task p /\ later p.

End Keeping.

(** A stored result carries the three stamps. *)
Definition stamped (r : FixItResponse.t) : Prop :=
  FixItResponse.id r <> None
  /\ FixItResponse.timestamp r <> None
  /\ FixItResponse.imageUrl r <> None.

(** What the status says about the other cells. *)
Definition coherent (a : App.State) : Prop :=
  (status a = SUCCESS -> result a <> None)
  /\ (status a = SELECTING -> detectedItems a <> [])
  /\ (status a = UPLOADED -> currentMedia a <> None)
  /\ (status a = ERROR ->
      error a = Some Session.DETECTION_FAILED
      \/ error a = Some Session.DIAGNOSIS_FAILED)
  /\ (forall media, currentMedia a = Some media ->
      truthy_opt (MediaFile.base64 media) = true)
  /\ Forall stamped (history a).

Definition coherent_page (u : UI.State) : Prop := coherent (UI.app u).

(** The first events of the faucet session: the photo captured; one item
    detected; and a capture whose detection fails. *)
Definition captured_trace : list (Tick * Event) := firstn 2 MachineSpec.faucet_trace.

Definition detected_trace : list (Tick * Event) := firstn 4 MachineSpec.faucet_trace.

Definition failed_trace : list (Tick * Event) :=
  (firstn 3 MachineSpec.faucet_trace
   ++ [(MachineSpec.late, Settle 0 (Items (Threw "503")))])%list.

End Coherence.

(** ** Further vocabulary: the support chat *)

Module SupportSpec.

Import App Machine.

(** The support transcript of the state after is the one before with
    messages put at its end. *)
Definition extends (u u' : UI.State) : Prop :=
  exists more,
    ChatPanel.chatHistory (UI.support u')
    = (ChatPanel.chatHistory (UI.support u) ++ more)%list.

(** The state a trace leads to from [s]. *)
Definition run_from (s : Sys) (trace : list (Tick * Event)) : Sys :=
  match exec s trace with
  | Some s' => s'
  | None => s
  end.

(** A question typed and sent in the support chat, and its answer. *)
Definition support_trace : list (Tick * Event) :=
  [ (MachineSpec.late, TypeSupport "How do I upload?");
    (MachineSpec.late, SendSupport);
    (MachineSpec.late, Settle 0 (Reply (Returned "Drag a photo onto the page."))) ].

End SupportSpec.

(** ** Further vocabulary: captures *)

Module CaptureSpec.

(** The media [handleFile] builds from a file read in the task [tick], with
    the payload [base64]. *)
Definition media_of (file : File.t) (tick : Tick) (base64 : option string)
  : MediaFile.t :=
  MediaFile.mk file (blobUrl tick)
    (if String.prefix "video" (File.type file) then video else image)
    base64.

(** A short film, and a file without content. *)
Definition film : File.t := File.mk "leak.mp4" 1048576%Z "video/mp4" "AAAAIGZ0eXA=".

Definition empty_file : File.t := File.mk "empty.png" 0%Z "image/png" EmptyString.

End CaptureSpec.

(** ** Further vocabulary: the operations in flight *)

Module Flight.

Import App Machine.

Definition is_detection (c : Call) : bool :=
  match c with DetectItems _ _ => true | _ => false end.

Definition is_diagnosis (c : Call) : bool :=
  match c with AnalyzeMedia _ _ _ => true | _ => false end.

Definition is_support (c : Call) : bool :=
  match c with SupportChatResponse _ _ => true | _ => false end.

(** How many of the operations in flight are of the kind [f]. *)
Definition flying (f : Call -> bool) (pending : list (Call * Waiting)) : nat :=
  List.length (filter f (map fst pending)).

(** Whatever settles the operation and whenever, the continuation [w], run
    in a state [u], makes a run [r] with [Q u r]. *)
Definition whenever (w : Waiting) (Q : UI.State -> Ran -> Prop) : Prop :=
  forall a p tick u, resume w a = Some p -> Q u (run p tick u).

Definition loading (u : UI.State) : bool := ChatPanel.isChatLoading (UI.support u).

(** What the continuation of a read does: nothing, or the capture. *)
Definition ends_read (u : UI.State) (r : Ran) : Prop :=
  started r = [] /\ UI.support (state r) = UI.support u
  /\ (UI.app (state r) = UI.app u \/ status (UI.app (state r)) = UPLOADED).

(** What the continuation of a diagnosis does: the result or the error. *)
Definition ends_diagnosis (u : UI.State) (r : Ran) : Prop :=
  started r = [] /\ UI.support (state r) = UI.support u
  /\ (status (UI.app (state r)) = SUCCESS \/ status (UI.app (state r)) = ERROR).

(** What the continuation of a detection does: the selection, the error,
    or the diagnosis without focus, which it starts. *)
Definition ends_detection (u : UI.State) (r : Ran) : Prop :=
  UI.support (state r) = UI.support u
  /\ ((started r = []
       /\ (status (UI.app (state r)) = SELECTING \/ status (UI.app (state r)) = ERROR))
      \/ (status (UI.app (state r)) = ANALYZING
          /\ exists b m f k,
              started r = [(AnalyzeMedia b m f, OnAnalysis k)]
              /\ whenever (OnAnalysis k) ends_diagnosis)).

(** What the continuation of a repair chat call does: its panel only. *)
Definition ends_chat (u : UI.State) (r : Ran) : Prop :=
  started r = [] /\ UI.app (state r) = UI.app u /\ UI.support (state r) = UI.support u.

(** What the continuation of a support chat call does: its panel only, with
    the loading flag cleared. *)
Definition ends_support (u : UI.State) (r : Ran) : Prop :=
  started r = [] /\ UI.app (state r) = UI.app u /\ loading (state r) = false.

(** An operation in flight waits with the continuation of its kind. *)
Definition disciplined (cw : Call * Waiting) : Prop :=
  match cw with
  | (FileRead _, OnRead k) => whenever (OnRead k) ends_read
  | (DetectItems _ _, OnItems k) => whenever (OnItems k) ends_detection
  | (AnalyzeMedia _ _ _, OnAnalysis k) => whenever (OnAnalysis k) ends_diagnosis
  | (ChatResponse _ _ _, OnText k) => whenever (OnText k) ends_chat
  | (SupportChatResponse _ _, OnText k) => whenever (OnText k) ends_support
  | _ => False
  end.

(** The operations in flight agree with what the page shows: a spinner of
    the session has its request in flight, and the support chat is loading
    exactly when its one request is in flight. *)
Definition orderly (s : Sys) : Prop :=
  Forall disciplined (pending s)
  /\ (status (UI.app (ui s)) = DETECTING -> 0 < flying is_detection (pending s))
  /\ (status (UI.app (ui s)) = ANALYZING -> 0 < flying is_diagnosis (pending s))
  /\ flying is_support (pending s) = (if loading (ui s) then 1 else 0).

(** The faucet session while its detection, and while its diagnosis, is in
    flight; and the page with a support question in flight. *)
Definition detecting_trace : list (Tick * Event) := firstn 3 MachineSpec.faucet_trace.

Definition analyzing_trace : list (Tick * Event) := firstn 5 MachineSpec.faucet_trace.

Definition asking_trace : list (Tick * Event) := firstn 2 SupportSpec.support_trace.

End Flight.

(** ** Further vocabulary: sessions that overlap *)

Module Overlap.

Import App Machine.

(** What the main area of the page shows nothing of: no capture adapter, no
    spinner, no selector, no error and no result. *)
Definition shows_nothing (a : App.State) : Prop :=
  showsUpload a = false
  /\ status a <> DETECTING
  /\ showsSelector a = false
  /\ status a <> ANALYZING
  /\ status a <> ERROR
  /\ shownResult a = None.

(** A second result as the history may hold it. *)
Definition other_analysis : FixItResponse.t :=
  Session.with_meta MachineSpec.analysis "uuid-0" 1600000000000%Z "blob:0".

(** Two sessions one after the other, the second with nothing detected,
    and then a question typed under the second result. *)
Definition two_results_trace : list (Tick * Event) :=
  (MachineSpec.faucet_trace ++
  [ (MachineSpec.late, ClickReset);
    (MachineSpec.late, Pick MachineSpec.second_photo);
    (MachineSpec.late, Settle 0 (MachineSpec.loaded MachineSpec.second_photo));
    (MachineSpec.late, ClickAnalyze);
    (MachineSpec.late, Settle 0 (Items (Returned [])));
    (MachineSpec.late, Settle 0 (Analysis (Returned MachineSpec.analysis)));
    (MachineSpec.late, TypeChat "Which washer?") ])%list.

End Overlap.

(** ** Pasting into the capture adapter ([handlePaste] in [FileUpload.tsx]) *)

Module Clipboard.

(** An entry of [e.clipboardData.items]: its MIME type and what
    [getAsFile()] gives. *)
Record Item := { type : string; getAsFile : option File.t }.

(** The loop of [handlePaste]: the file of the first item whose type
    contains [image] and that has a file; an image item without a file is
    passed over. *)
Fixpoint first_image_file (items : list Item) : option File.t :=
  match items with
  | [] => None
  | item :: rest =>
      if Machine.contains "image" (type item) then
        match getAsFile item with
        | Some file => Some file
        | None => first_image_file rest
        end
      else first_image_file rest
  end.

(** [handlePaste] of the instance [gen], with the [isLoading] it was given
    and its [isCameraOpen]; [items] is [e.clipboardData?.items].  (That the
    default paste is prevented when a file is handled is left out.) *)
Definition handlePaste (gen : nat) (onFileSelect : MediaFile.t -> Proc)
    (isLoading isCameraOpen : bool) (items : option (list Item)) : Proc :=
  if isLoading || isCameraOpen then Return
  else
    match items with
    | None => Return
    | Some l =>
        match first_image_file l with
        | Some file => FileUpload.handleFile gen onFileSelect file
        | None => Return
        end
    end.

(** The item has no image to give. *)
Definition passed_over (item : Item) : Prop :=
  Machine.contains "image" (type item) = false \/ getAsFile item = None.

End Clipboard.

(** ** Further vocabulary: the identifiers a task draws *)

Module Draws.

Import App Machine.

(** [draws tick p]: run in a task that draws [tick], the process [p] calls
    [crypto.randomUUID()] before it ends or awaits. *)
Fixpoint draws (tick : Tick) (p : Proc) {struct p} : bool :=
  match p with
  | Return => false
  | Set_ _ k => draws tick k
  | Alert _ k => draws tick k
  | RandomUUID _ => true
  | DateNow k => draws tick (k (now tick))
  | CreateObjectURL k => draws tick (k (blobUrl tick))
  | ReadAsDataURL _ _ => false
  | AwaitDetectItems _ _ _ => false
  | AwaitAnalyzeMedia _ _ _ _ => false
  | AwaitChatResponse _ _ _ _ => false
  | AwaitSupportChatResponse _ _ _ => false
  | Spawn p k => draws tick p || draws tick k
  end.

(** A run in which [crypto.randomUUID()], each time a task calls it, gives
    an identifier that is not in the history; the ticks of the tasks that
    do not call it are not constrained. *)
Fixpoint fresh_draws (s : Sys) (trace : list (Tick * Event)) : Prop :=
  match trace with
  | [] => True
  | (tick, e) :: rest =>
      match dispatch s e with
      | Some (p, _) =>
          draws tick p = true -> ~ In (Some (uuid tick)) (MachineSpec.identifiers s)
      | None => True
      end
      /\ match step tick s e with
         | Some (s', _) => fresh_draws s' rest
         | None => True
         end
  end.

(** [draws_first tick drawn p]: the process [p] changes the history only
    after it has called [crypto.randomUUID()] in the same task ([drawn]
    tells that it has), and so do its continuations, each in the task it
    runs in. *)
Fixpoint draws_first (tick : Tick) (drawn : bool) (p : Proc) {struct p} : Prop :=
  match p with
  | Return => True
  | Set_ upd k =>
      (drawn = true \/ forall u, history (UI.app (upd u)) = history (UI.app u))
      /\ draws_first tick drawn k
  | Alert _ k => draws_first tick drawn k
  | RandomUUID k => draws_first tick true (k (uuid tick))
  | DateNow k => draws_first tick drawn (k (now tick))
  | CreateObjectURL k => draws_first tick drawn (k (blobUrl tick))
  | ReadAsDataURL _ k => forall tick' x, draws_first tick' false (k x)
  | AwaitDetectItems _ _ k => forall tick' x, draws_first tick' false (k x)
  | AwaitAnalyzeMedia _ _ _ k => forall tick' x, draws_first tick' false (k x)
  | AwaitChatResponse _ _ _ k => forall tick' x, draws_first tick' false (k x)
  | AwaitSupportChatResponse _ _ k => forall tick' x, draws_first tick' false (k x)
  | Spawn p k => draws_first tick drawn p /\ draws_first tick drawn k
  end.

Definition draws_waiting (cw : Call * Waiting) : Prop :=
  forall tick a p, resume (snd cw) a = Some p -> draws_first tick false p.

Definition well_drawn (s : Sys) : Prop := Forall draws_waiting (pending s).

End Draws.

(** * Properties *)

Unset Implicit Arguments.

(** ** [JSON.parse]: the fuel is never the reason for a failure *)

Module JsonFacts.

Import Json.

Ltac break_match :=
  match goal with
  | H : context [match ?x with _ => _ end] |- _ => destruct x eqn:?
  | |- context [match ?x with _ => _ end] => destruct x eqn:?
  end.

Ltac inv H := inversion H; subst; clear H.

Lemma skip_ws_length s : String.length (skip_ws s) <= String.length s.
Proof.
  induction s as [|c s IH]; simpl; [lia|].
  destruct (is_ws c); simpl; lia.
Qed.

Lemma after_length c s r : after c s = Some r -> String.length s = S (String.length r).
Proof.
  destruct s as [|c' s]; simpl; [discriminate|].
  destruct (Ascii.eqb c' c); [|discriminate].
  intros H; inv H; reflexivity.
Qed.

Lemma take_digits_length s : forall acc k m k' r,
  take_digits acc k s = (m, k', r) -> String.length r <= String.length s.
Proof.
  induction s as [|c s IH]; simpl; intros acc k m k' r H.
  - inv H; simpl; lia.
  - destruct (digit_of c).
    + apply IH in H; lia.
    + inv H; simpl; lia.
Qed.

Lemma parse_int_length s m r :
  parse_int s = Some (m, r) -> String.length r < String.length s.
Proof.
  destruct s as [|c s]; simpl; [discriminate|].
  destruct (digit_of c) as [d|]; [|discriminate].
  destruct (d =? 0)%Z.
  - intros H; inv H; lia.
  - destruct (take_digits d 0 s) as [[m' k'] r'] eqn:E.
    intros H; inv H. apply take_digits_length in E; lia.
Qed.

Lemma parse_frac_length m s m' k r :
  parse_frac m s = Some (m', k, r) -> String.length r <= String.length s.
Proof.
  unfold parse_frac. destruct (after "." s) as [rest|] eqn:A.
  - destruct (take_digits m 0 rest) as [[m1 k1] r1] eqn:E.
    destruct k1; [discriminate|]. intros H; inv H.
    apply after_length in A. apply take_digits_length in E. lia.
  - intros H; inv H; lia.
Qed.

Lemma parse_exp_digits_length neg s x r :
  parse_exp_digits neg s = Some (x, r) -> String.length r <= String.length s.
Proof.
  unfold parse_exp_digits.
  destruct (take_digits 0 0 s) as [[m1 k1] r1] eqn:E.
  destruct k1; [discriminate|]. intros H; inv H.
  apply take_digits_length in E; lia.
Qed.

Lemma parse_exp_length s x r :
  parse_exp s = Some (x, r) -> String.length r <= String.length s.
Proof.
  unfold parse_exp. intros H.
  repeat break_match;
    repeat match goal with
      | A : after _ _ = Some _ |- _ => apply after_length in A
      | E : parse_exp_digits _ _ = Some _ |- _ => apply parse_exp_digits_length in E
      end;
    try discriminate; try (inv H); try lia.
Qed.

Lemma parse_number_length s v r :
  parse_number s = Some (v, r) -> String.length r < String.length s.
Proof.
  unfold parse_number. intros H.
  destruct (after "-" s) as [rest|] eqn:A.
  - destruct (parse_int rest) as [[i s2]|] eqn:I; [|discriminate].
    destruct (parse_frac i s2) as [[[m k] s3]|] eqn:F; [|discriminate].
    destruct (parse_exp s3) as [[x s4]|] eqn:X; [|discriminate].
    inv H. apply after_length in A. apply parse_int_length in I.
    apply parse_frac_length in F. apply parse_exp_length in X. lia.
  - destruct (parse_int s) as [[i s2]|] eqn:I; [|discriminate].
    destruct (parse_frac i s2) as [[[m k] s3]|] eqn:F; [|discriminate].
    destruct (parse_exp s3) as [[x s4]|] eqn:X; [|discriminate].
    inv H. apply parse_int_length in I.
    apply parse_frac_length in F. apply parse_exp_length in X. lia.
Qed.

Lemma parse_hex4_length s u r :
  parse_hex4 s = Some (u, r) -> String.length r < String.length s.
Proof.
  unfold parse_hex4. intros H.
  repeat break_match; try discriminate. inv H. simpl. lia.
Qed.

Lemma parse_chars_length fuel : forall acc s a r,
  parse_chars fuel acc s = Parsed a r -> String.length r < String.length s.
Proof.
  induction fuel as [|fuel IH]; simpl; intros acc s a r H; [discriminate|].
  destruct s as [|c s]; [discriminate|].
  destruct (Ascii.eqb c dquote); [inv H; simpl; lia|].
  destruct (Ascii.eqb c backslash).
  - destruct s as [|e s]; [discriminate|].
    repeat match type of H with
      | (if ?b then _ else _) = _ => destruct b
      end;
      try (apply IH in H; simpl; lia); try discriminate.
    destruct (parse_hex4 s) as [[u r']|] eqn:E; [|discriminate].
    apply IH in H. apply parse_hex4_length in E. simpl; lia.
  - destruct (Nat.ltb (nat_of_ascii c) 32); [discriminate|].
    apply IH in H. simpl; lia.
Qed.

Lemma parse_chars_fuel fuel : forall acc s,
  String.length s < fuel -> parse_chars fuel acc s <> OutOfFuel.
Proof.
  induction fuel as [|fuel IH]; simpl; intros acc s L; [lia|].
  destruct s as [|c s]; [discriminate|]. simpl in L.
  destruct (Ascii.eqb c dquote); [discriminate|].
  destruct (Ascii.eqb c backslash).
  - destruct s as [|e s]; [discriminate|]. simpl in L.
    repeat match goal with
      | |- (if ?b then _ else _) <> _ => destruct b
      end;
      try (apply IH; lia); try discriminate.
    destruct (parse_hex4 s) as [[u r']|] eqn:E; [|discriminate].
    apply parse_hex4_length in E. apply IH; lia.
  - destruct (Nat.ltb (nat_of_ascii c) 32); [discriminate|].
    apply IH; lia.
Qed.

Lemma parse_string_length s a r :
  parse_string s = Parsed a r -> String.length r < String.length s.
Proof. apply parse_chars_length. Qed.

Lemma parse_string_fuel s : parse_string s <> OutOfFuel.
Proof. apply parse_chars_fuel; lia. Qed.

Lemma strip_prefix_length lit : forall s r,
  strip_prefix lit s = Some r ->
  String.length s = String.length lit + String.length r.
Proof.
  induction lit as [|a lit IH]; simpl; intros s r H.
  - inv H; reflexivity.
  - destruct s as [|b s]; [discriminate|].
    destruct (Ascii.eqb a b); [|discriminate].
    apply IH in H. simpl; lia.
Qed.

Lemma expect_length lit v s v' r :
  expect lit v s = Parsed v' r ->
  String.length s = String.length lit + String.length r.
Proof.
  unfold expect. destruct (strip_prefix lit s) eqn:E; [|discriminate].
  intros H; inv H. now apply strip_prefix_length.
Qed.

Lemma parse_shrinks fuel :
  (forall s v r,
      parse_value fuel s = Parsed v r -> String.length r < String.length s)
  /\ (forall acc s v r,
      parse_elements fuel acc s = Parsed v r -> String.length r < String.length s)
  /\ (forall acc s v r,
      parse_members fuel acc s = Parsed v r -> String.length r < String.length s).
Proof.
  induction fuel as [|fuel [IHv [IHe IHm]]].
  - repeat split; intros; discriminate.
  - repeat split.
    + intros s v r H. simpl in H.
      pose proof (skip_ws_length s) as W.
      destruct (skip_ws s) as [|c rest] eqn:S; [discriminate|]. simpl in W.
      pose proof (skip_ws_length rest) as W'.
      destruct (Ascii.eqb c "{").
      { destruct (after "}" (skip_ws rest)) as [r'|] eqn:A.
        - inv H. apply after_length in A. lia.
        - apply IHm in H. lia. }
      destruct (Ascii.eqb c "[").
      { destruct (after "]" (skip_ws rest)) as [r'|] eqn:A.
        - inv H. apply after_length in A. lia.
        - apply IHe in H. lia. }
      destruct (Ascii.eqb c dquote).
      { destruct (parse_string rest) as [str r'| |] eqn:P; try discriminate.
        inv H. apply parse_string_length in P. lia. }
      destruct (Ascii.eqb c "t"); [apply expect_length in H; simpl in H; lia|].
      destruct (Ascii.eqb c "f"); [apply expect_length in H; simpl in H; lia|].
      destruct (Ascii.eqb c "n"); [apply expect_length in H; simpl in H; lia|].
      destruct (parse_number (String c rest)) as [[v' r']|] eqn:N; [|discriminate].
      inv H. apply parse_number_length in N. simpl in N. lia.
    + intros acc s v r H. simpl in H.
      destruct (parse_value fuel s) as [v1 r1| |] eqn:V; try discriminate.
      apply IHv in V. pose proof (skip_ws_length r1) as W.
      destruct (after "," (skip_ws r1)) as [r2|] eqn:A.
      { apply after_length in A. apply IHe in H. lia. }
      destruct (after "]" (skip_ws r1)) as [r2|] eqn:B; [|discriminate].
      inv H. apply after_length in B. lia.
    + intros acc s v r H. simpl in H.
      pose proof (skip_ws_length s) as W.
      destruct (after dquote (skip_ws s)) as [r0|] eqn:Q; [|discriminate].
      apply after_length in Q.
      destruct (parse_string r0) as [key r1| |] eqn:P; try discriminate.
      apply parse_string_length in P. pose proof (skip_ws_length r1) as W1.
      destruct (after ":" (skip_ws r1)) as [r2|] eqn:C; [|discriminate].
      apply after_length in C.
      destruct (parse_value fuel r2) as [v3 r3| |] eqn:V; try discriminate.
      apply IHv in V. pose proof (skip_ws_length r3) as W3.
      destruct (after "," (skip_ws r3)) as [r4|] eqn:A.
      { apply after_length in A. apply IHm in H. lia. }
      destruct (after "}" (skip_ws r3)) as [r4|] eqn:B; [|discriminate].
      inv H. apply after_length in B. lia.
Qed.

Lemma expect_fuel lit v s : expect lit v s <> OutOfFuel.
Proof. unfold expect; destruct (strip_prefix lit s); discriminate. Qed.

Lemma of_option_fuel {A} (o : option (A * string)) : of_option o <> OutOfFuel.
Proof. destruct o as [[a r]|]; discriminate. Qed.

(** Fuel above twice the length of the text is never used up. *)
Lemma fuel_suffices fuel :
  (forall s, 2 * String.length s < fuel -> parse_value fuel s <> OutOfFuel)
  /\ (forall acc s,
      2 * String.length s + 1 < fuel -> parse_elements fuel acc s <> OutOfFuel)
  /\ (forall acc s,
      2 * String.length s + 1 < fuel -> parse_members fuel acc s <> OutOfFuel).
Proof.
  induction fuel as [|fuel [IHv [IHe IHm]]].
  - repeat split; intros; lia.
  - repeat split.
    + intros s L. simpl.
      pose proof (skip_ws_length s) as W.
      destruct (skip_ws s) as [|c rest] eqn:S; [discriminate|]. simpl in W.
      destruct (Ascii.eqb c "{").
      { destruct (after "}" (skip_ws rest)); [discriminate|]. apply IHm; lia. }
      destruct (Ascii.eqb c "[").
      { destruct (after "]" (skip_ws rest)); [discriminate|]. apply IHe; lia. }
      destruct (Ascii.eqb c dquote).
      { pose proof (parse_string_fuel rest).
        destruct (parse_string rest); congruence. }
      destruct (Ascii.eqb c "t"); [apply expect_fuel|].
      destruct (Ascii.eqb c "f"); [apply expect_fuel|].
      destruct (Ascii.eqb c "n"); [apply expect_fuel|].
      apply of_option_fuel.
    + intros acc s L. simpl.
      pose proof (IHv s ltac:(lia)) as Hv.
      destruct (parse_value fuel s) as [v1 r1| |] eqn:V; try congruence.
      apply parse_shrinks in V. pose proof (skip_ws_length r1) as W.
      destruct (after "," (skip_ws r1)) as [r2|] eqn:A.
      { apply after_length in A. apply IHe; lia. }
      destruct (after "]" (skip_ws r1)); discriminate.
    + intros acc s L. simpl.
      pose proof (skip_ws_length s) as W.
      destruct (after dquote (skip_ws s)) as [r0|] eqn:Q; [|discriminate].
      apply after_length in Q.
      pose proof (parse_string_fuel r0) as Hs.
      destruct (parse_string r0) as [key r1| |] eqn:P; try congruence.
      apply parse_string_length in P. pose proof (skip_ws_length r1) as W1.
      destruct (after ":" (skip_ws r1)) as [r2|] eqn:C; [|discriminate].
      apply after_length in C.
      pose proof (IHv r2 ltac:(lia)) as Hv.
      destruct (parse_value fuel r2) as [v3 r3| |] eqn:V; try congruence.
      apply parse_shrinks in V. pose proof (skip_ws_length r3) as W3.
      destruct (after "," (skip_ws r3)) as [r4|] eqn:A.
      { apply after_length in A. apply IHm; lia. }
      destruct (after "}" (skip_ws r3)); discriminate.
Qed.

Lemma JSON_parse_fuel text : parse_value (parse_fuel text) text <> OutOfFuel.
Proof. apply fuel_suffices. unfold parse_fuel. lia. Qed.

(** [JSON_parse] answers [None] only for a text that is not JSON: a syntax
    error in the value, or something other than white space after it. *)
Lemma JSON_parse_none text :
  JSON_parse text = None ->
  parse_value (parse_fuel text) text = SyntaxError
  \/ exists v rest,
      parse_value (parse_fuel text) text = Parsed v rest
      /\ skip_ws rest <> EmptyString.
Proof.
  unfold JSON_parse. pose proof (JSON_parse_fuel text) as F.
  destruct (parse_value (parse_fuel text) text) as [v rest| |];
    [|now left|contradiction].
  destruct (skip_ws rest) eqn:S; [discriminate|].
  intros _. right. exists v, rest. split; [reflexivity|].
  rewrite S. discriminate.
Qed.

End JsonFacts.

(** ** The gateway *)

Module GatewayFacts.

Import Json Gateway JsonFacts GatewaySpec.

Lemma answering_answered t b m : answered (answering t) b m t.
Proof. exists "key", (Response.mk t). repeat split. Qed.

Lemma answered_unique env b m t t' :
  answered env b m t -> answered env b m t' -> t = t'.
Proof.
  intros (k & r & K & G & T) (k' & r' & K' & G' & T').
  rewrite K in K'. inv K'. rewrite G in G'. inv G'. reflexivity.
Qed.

Lemma detectItems_answered env b m t :
  answered env b m t ->
  detectItems env b m =
  (parsed <- parse_or_throw (or_else t empty_items_text) ;;
   items <- get_items parsed ;;
   Returned (or_empty_array items)).
Proof.
  intros (k & r & K & G & T). unfold detectItems.
  rewrite K. simpl. rewrite G. simpl. rewrite T. reflexivity.
Qed.

Lemma conforms_detection_items parsed :
  conforms RESPONSE_SCHEMA_DETECTION parsed = true ->
  exists l,
    get_items parsed = Returned (Some (JArr l))
    /\ forallb (conforms DETECTED_ITEM_SCHEMA) l = true.
Proof.
  destruct parsed as [| | | | |props]; simpl; try discriminate.
  destruct (lookup "items" props) as [v|]; simpl; [|discriminate].
  rewrite andb_true_r.
  destruct v as [| | | |l|]; try discriminate.
  intros H. now exists l.
Qed.

Lemma conforms_item v :
  conforms DETECTED_ITEM_SCHEMA v = true -> exists i, as_item v = Some i.
Proof.
  destruct v as [| | | | |props]; simpl; try discriminate.
  destruct (lookup "id" props) as [[| | |i| |]|]; simpl; try discriminate;
    destruct (lookup "name" props) as [[| | |n| |]|]; simpl; try discriminate;
    destruct (lookup "description" props) as [[| | |d| |]|]; simpl;
    try discriminate.
  intros _. now eexists.
Qed.

Lemma conforms_items l :
  forallb (conforms DETECTED_ITEM_SCHEMA) l = true ->
  exists typed, as_items l = Some typed /\ List.length typed = List.length l.
Proof.
  induction l as [|v l IH]; intros F.
  - now exists [].
  - cbn [forallb] in F. apply andb_true_iff in F. destruct F as [Fv Fl].
    destruct (conforms_item v Fv) as [i Ei]. destruct (IH Fl) as (typed & El & Ll).
    exists (i :: typed). cbn [as_items]. rewrite Ei, El. simpl. now rewrite Ll.
Qed.

Lemma JSON_parse_empty : JSON_parse "" = None.
Proof. reflexivity. Qed.

Lemma or_else_nonempty s d : nonempty s = true -> or_else (Some s) d = s.
Proof. simpl. now intros ->. Qed.

Lemma JSON_parse_some_nonempty s v : JSON_parse s = Some v -> nonempty s = true.
Proof. destruct s; [discriminate|reflexivity]. Qed.

(** Three responses, none of them a valid item list, and what [detectItems]
    makes of them. *)
Example detectItems_no_text :
  detectItems (answering None) "QUJD" "image/jpeg" = Returned (JArr []).
Proof. reflexivity. Qed.

Example detectItems_no_items_member :
  detectItems (answering (Some "{}")) "QUJD" "image/jpeg" = Returned (JArr []).
Proof. reflexivity. Qed.

Example detectItems_partial_item :
  let t := "{" ++ dq ++ "items" ++ dq ++ ": [{" ++ dq ++ "id" ++ dq ++ ": 7}]}" in
  detectItems (answering (Some t)) "QUJD" "image/jpeg"
  = Returned (JArr [JObj [("id", JNum 7 0)]]).
Proof. reflexivity. Qed.

Example detectItems_not_json :
  detectItems (answering (Some "Sorry, I cannot help.")) "QUJD" "image/jpeg"
  = Threw "SyntaxError".
Proof. reflexivity. Qed.

(** C1, as stated, fails: a response without text makes [detectItems] return
    the empty list instead of failing. *)
Lemma detectItems_coerces_absent_text :
  ~ returns_only_valid_lists (answering None) "QUJD" "image/jpeg".
Proof.
  intros H.
  destruct (H (JArr []) eq_refl) as (t & parsed & A & _).
  pose proof (answered_unique _ _ _ _ _ A (answering_answered None "QUJD" "image/jpeg")).
  discriminate.
Qed.

(** C1, amended: [detectItems] fails when the credential is missing, when the
    exchange throws, and when a non-empty response text is not JSON (or is
    [null]); a response without text, and a parsed value without a truthy
    [items] member, give the empty list; otherwise the [items] member is
    returned as parsed, which for a response that conforms to the schema is
    its complete list of items, each one an item at its declared type. *)
Theorem detectItems_outcomes (env : Env) (b m : string) :
  (forall msg,
      require_key env "API Key not found" = Threw msg ->
      detectItems env b m = Threw msg)
  /\ (forall apiKey msg,
      require_key env "API Key not found" = Returned apiKey ->
      generateContent (connect env apiKey) (detection_request b m) = Threw msg ->
      detectItems env b m = Threw msg)
  /\ (forall t,
      answered env b m t -> truthy_opt t = false ->
      detectItems env b m = Returned (JArr []))
  /\ (forall t,
      answered env b m (Some t) -> nonempty t = true ->
      JSON_parse t = None \/ JSON_parse t = Some JNull ->
      threw (detectItems env b m) = true)
  /\ (forall t parsed items,
      answered env b m (Some t) -> JSON_parse t = Some parsed ->
      get_items parsed = Returned items ->
      detectItems env b m = Returned (or_empty_array items))
  /\ (forall t parsed,
      answered env b m (Some t) -> JSON_parse t = Some parsed ->
      conforms RESPONSE_SCHEMA_DETECTION parsed = true ->
      exists l typed,
        get_items parsed = Returned (Some (JArr l))
        /\ detectItems env b m = Returned (JArr l)
        /\ as_items l = Some typed
        /\ List.length typed = List.length l).
Proof.
  repeat split.
  - intros msg K. unfold detectItems. now rewrite K.
  - intros k msg K G. unfold detectItems. rewrite K. simpl. now rewrite G.
  - intros t A F. rewrite (detectItems_answered _ _ _ _ A).
    destruct t as [s|]; simpl in *.
    + destruct (nonempty s); [discriminate|reflexivity].
    + reflexivity.
  - intros t A N P. rewrite (detectItems_answered _ _ _ _ A).
    rewrite or_else_nonempty by exact N. unfold parse_or_throw.
    destruct P as [-> | ->]; reflexivity.
  - intros t parsed items A P G. rewrite (detectItems_answered _ _ _ _ A).
    rewrite or_else_nonempty by exact (JSON_parse_some_nonempty _ _ P).
    unfold parse_or_throw. rewrite P. simpl. now rewrite G.
  - intros t parsed A P C. destruct (conforms_detection_items _ C) as (l & G & F).
    destruct (conforms_items l F) as (typed & T & L).
    exists l, typed. repeat split; trivial.
    rewrite (detectItems_answered _ _ _ _ A).
    rewrite or_else_nonempty by exact (JSON_parse_some_nonempty _ _ P).
    unfold parse_or_throw. rewrite P. simpl. now rewrite G.
Qed.

Lemma detectItems_outcomes_witness :
  exists l typed,
    get_items faucet_json = Returned (Some (JArr l))
    /\ detectItems (answering (Some faucet_text)) "QUJD" "image/jpeg"
       = Returned (JArr l)
    /\ as_items l = Some typed
    /\ List.length typed = List.length l.
Proof.
  apply (proj2 (proj2 (proj2 (proj2 (proj2
           (detectItems_outcomes (answering (Some faucet_text)) "QUJD" "image/jpeg"))))))
    with (t := faucet_text).
  - exists "key", (Response.mk (Some faucet_text)). repeat split.
  - reflexivity.
  - reflexivity.
Defined.

(** C10: when the exchange of a chat succeeds but the reply has no text, or
    an empty one, the gateway returns its canned sentence, as it would
    return a reply with that very text. *)
Theorem chat_empty_reply_is_canned (env : Env) (apiKey : string)
    (ctx : FixItResponse.t) (history : list ChatMessage.t) (newMessage : string) :
  require_key env "API Key not found" = Returned apiKey ->
  (forall reply,
      sendMessage (connect env apiKey) (repair_chat ctx history) newMessage
      = Returned reply ->
      truthy_opt (Response.text reply) = false ->
      getChatResponse env ctx history newMessage
      = Returned "I couldn't generate a response.")
  /\ (forall reply,
      sendMessage (connect env apiKey) (support_chat history) newMessage
      = Returned reply ->
      truthy_opt (Response.text reply) = false ->
      getSupportChatResponse env history newMessage
      = Returned "I'm having trouble connecting right now. Please try again later.")
  /\ (forall reply t,
      sendMessage (connect env apiKey) (repair_chat ctx history) newMessage
      = Returned reply ->
      Response.text reply = Some t -> nonempty t = true ->
      getChatResponse env ctx history newMessage = Returned t)
  /\ (forall reply t,
      sendMessage (connect env apiKey) (support_chat history) newMessage
      = Returned reply ->
      Response.text reply = Some t -> nonempty t = true ->
      getSupportChatResponse env history newMessage = Returned t).
Proof.
  intros K. unfold getChatResponse, getSupportChatResponse. rewrite K. simpl.
  repeat split.
  - intros reply S F. rewrite S. simpl.
    destruct (Response.text reply) as [t|]; simpl in *; [|reflexivity].
    destruct (nonempty t); [discriminate|reflexivity].
  - intros reply S F. rewrite S. simpl.
    destruct (Response.text reply) as [t|]; simpl in *; [|reflexivity].
    destruct (nonempty t); [discriminate|reflexivity].
  - intros reply t S T N. rewrite S. simpl. rewrite T. simpl. now rewrite N.
  - intros reply t S T N. rewrite S. simpl. rewrite T. simpl. now rewrite N.
Qed.

Lemma chat_empty_reply_is_canned_witness :
  getChatResponse (answering (Some "")) MachineSpec.stored_analysis [] "Which washer?"
  = Returned "I couldn't generate a response."
  /\ getSupportChatResponse (answering None) [] "How do I upload?"
     = Returned "I'm having trouble connecting right now. Please try again later.".
Proof.
  split.
  - apply (proj1 (chat_empty_reply_is_canned (answering (Some "")) "key"
                    MachineSpec.stored_analysis [] "Which washer?" eq_refl)
             (Gateway.Response.mk (Some ""))); reflexivity.
  - apply (proj1 (proj2 (chat_empty_reply_is_canned (answering None) "key"
                    MachineSpec.stored_analysis [] "How do I upload?" eq_refl))
             (Gateway.Response.mk None)); reflexivity.
Defined.

End GatewayFacts.

(** ** The session state machine *)

Module SessionFacts.

Import App Session JsonFacts.

Lemma captured_spec render media base64 :
  captured render = Some (media, base64) <->
  currentMedia render = Some media
  /\ MediaFile.base64 media = Some base64
  /\ base64 <> "".
Proof.
  unfold captured, nonempty. split.
  - destruct (currentMedia render) as [m|]; [|discriminate].
    destruct (MediaFile.base64 m) as [b|] eqn:B; [|discriminate].
    destruct (String.eqb_spec b ""); simpl; [discriminate|].
    intros H; inv H. repeat split; assumption.
  - intros (-> & -> & N).
    destruct (String.eqb_spec base64 ""); simpl; [contradiction|reflexivity].
Qed.

(** C2: with a non-empty payload captured, a detection that succeeds with
    no item does not show the selection: its continuation is the call
    [handleItemSelect(null)], which sets [ANALYZING] and asks for the
    diagnosis of the same payload with no focus. *)
Theorem empty_detection_goes_to_diagnosis
    (render : App.State) (media : MediaFile.t) (base64 : string) :
  currentMedia render = Some media ->
  MediaFile.base64 media = Some base64 ->
  base64 <> "" ->
  let mimeType := File.type (MediaFile.file media) in
  exists k,
    (forall tick u,
        started (run (handleStartDetection render) tick u)
        = [(DetectItems base64 mimeType, OnItems k)])
    /\ forall tick u,
        let after := run (k (Returned [])) tick u in
        after = run (handleItemSelect render None) tick u
        /\ status (UI.app (state after)) = ANALYZING
        /\ detectedItems (UI.app (state after)) = detectedItems (UI.app u)
        /\ map fst (started after) = [AnalyzeMedia base64 mimeType None]
        /\ Gateway.GenerateContent.parts
             (Gateway.analysis_request base64 mimeType None)
           = [Gateway.inlineData base64 mimeType;
              Gateway.text "Analyze this and provide a repair guide with annotations."].
Proof.
  intros M B N mimeType.
  assert (C : captured render = Some (media, base64))
    by (apply captured_spec; auto).
  unfold handleStartDetection, handleItemSelect. rewrite C.
  eexists. split.
  - intros tick u. simpl. reflexivity.
  - intros tick u. simpl. repeat split.
Qed.

(** C4: from any state, reset leaves [IDLE] with the media, the detected
    items, the result and the error cleared, the history (and the two
    display flags) untouched, and starts nothing. *)
Theorem reset_clears_all_but_history (tick : Tick) (u : UI.State) :
  let after := run handleReset tick u in
  UI.app (state after)
  = App.mk IDLE None None (history (UI.app u)) (isSidebarOpen (UI.app u))
      (isDarkMode (UI.app u)) None []
  /\ history (UI.app (state after)) = history (UI.app u)
  /\ alerts after = []
  /\ started after = [].
Proof. repeat split. Qed.

(** What [handleClearFile] does. *)
Lemma clear_file_effect (tick : Tick) (u : UI.State) :
  UI.app (state (run handleClearFile tick u))
  = App.mk IDLE (result (UI.app u)) (error (UI.app u)) (history (UI.app u))
      (isSidebarOpen (UI.app u)) (isDarkMode (UI.app u)) None [].
Proof. reflexivity. Qed.

(** C3, amended: clearing the capture leaves [IDLE] with the media and the
    detected items cleared and keeps the result, the error and the history;
    its outcome is that of reset exactly when no result and no error are
    stored. *)
Theorem clear_agrees_with_reset_iff (tick : Tick) (u : UI.State) :
  let cleared := UI.app (state (run handleClearFile tick u)) in
  let reset := UI.app (state (run handleReset tick u)) in
  status cleared = IDLE
  /\ currentMedia cleared = None
  /\ detectedItems cleared = []
  /\ result cleared = result (UI.app u)
  /\ error cleared = error (UI.app u)
  /\ history cleared = history (UI.app u)
  /\ (cleared = reset <-> result (UI.app u) = None /\ error (UI.app u) = None).
Proof.
  simpl. repeat (split; [reflexivity|]). split.
  - intros H. inv H. split; congruence.
  - intros [R E]. unfold setDetectedItems, setCurrentMedia, setStatus, setResult,
      setError; simpl. now rewrite R, E.
Qed.

(** C5: when the diagnosis succeeds, the result stored carries the
    identifier and the time drawn from the platform at that moment, whatever
    the analysis result carried under those names, and the preview of the
    captured media; it becomes the current result, the status becomes
    [SUCCESS], and it is put in front of the history, whose entries stay as
    they were.  An identifier not yet in the history keeps the identifiers
    of the history distinct. *)
Theorem diagnosis_success_is_stamped_and_kept
    (render : App.State) (item : option DetectedItem.t)
    (media : MediaFile.t) (base64 : string) :
  currentMedia render = Some media ->
  MediaFile.base64 media = Some base64 ->
  base64 <> "" ->
  exists k,
    (forall tick u,
        started (run (handleItemSelect render item) tick u)
        = [(AnalyzeMedia base64 (File.type (MediaFile.file media)) (focus_of item),
            OnAnalysis k)])
    /\ forall analysisResult tick u,
        let stored :=
          with_meta analysisResult (uuid tick) (now tick) (MediaFile.previewUrl media) in
        let after := UI.app (state (run (k (Returned analysisResult)) tick u)) in
        FixItResponse.id stored = Some (uuid tick)
        /\ FixItResponse.timestamp stored = Some (now tick)
        /\ result after = Some stored
        /\ status after = SUCCESS
        /\ history after = stored :: history (UI.app u)
        /\ (NoDup (map FixItResponse.id (history (UI.app u))) ->
            ~ In (Some (uuid tick)) (map FixItResponse.id (history (UI.app u))) ->
            NoDup (map FixItResponse.id (history after))).
Proof.
  intros M B N.
  assert (C : captured render = Some (media, base64))
    by (apply captured_spec; auto).
  unfold handleItemSelect. rewrite C.
  eexists. split.
  - intros tick u. simpl. reflexivity.
  - intros analysisResult tick u. simpl. repeat split.
    intros D F. now constructor.
Qed.

Lemma empty_detection_goes_to_diagnosis_witness :
  exists k,
    forall tick u,
      started (run (handleStartDetection MachineSpec.captured_render) tick u)
      = [(DetectItems "QUJD" "image/jpeg", OnItems k)]
      /\ map fst (started (run (k (Returned [])) tick u))
         = [AnalyzeMedia "QUJD" "image/jpeg" None].
Proof.
  destruct (empty_detection_goes_to_diagnosis MachineSpec.captured_render
              MachineSpec.first_media "QUJD" eq_refl eq_refl)
    as (k & S & A).
  - discriminate.
  - exists k. intros tick u. split; [apply S | apply (A tick u)].
Defined.

Lemma diagnosis_success_is_stamped_and_kept_witness :
  exists k,
    forall tick u,
      started (run (handleItemSelect MachineSpec.captured_render
                      (Some MachineSpec.faucet)) tick u)
      = [(AnalyzeMedia "QUJD" "image/jpeg" (Some "Faucet - dripping"), OnAnalysis k)]
      /\ history (UI.app (state (run (k (Returned MachineSpec.analysis))
                                   MachineSpec.early u)))
         = MachineSpec.stored_analysis :: history (UI.app u).
Proof.
  destruct (diagnosis_success_is_stamped_and_kept MachineSpec.captured_render
              (Some MachineSpec.faucet) MachineSpec.first_media "QUJD"
              eq_refl eq_refl)
    as (k & S & A).
  - discriminate.
  - exists k. intros tick u. split; [apply S|].
    apply (A MachineSpec.analysis MachineSpec.early u).
Defined.

End SessionFacts.

(** ** The chats *)

Module ChatFacts.

Import ChatPanel Chats.

Lemma onChat_keeps_app gen f u : UI.app (UI.onChat gen f u) = UI.app u.
Proof. unfold UI.onChat. now destruct (Nat.eqb gen (UI.chatGen u)). Qed.

Lemma onChat_keeps_support gen f u : UI.support (UI.onChat gen f u) = UI.support u.
Proof. unfold UI.onChat. now destruct (Nat.eqb gen (UI.chatGen u)). Qed.

(** C6, amended: a chat send appends the user's message and starts the
    gateway call.  When that call fails, the continuation never touches the
    session state (no [ERROR], the result kept) nor the other chat, and
    starts nothing.  In the support chat it appends the apology as a [model]
    turn to the transcript as it then is and removes nothing from it.  In the
    repair chat it does so when the result view that sent the question is
    still the one mounted ([UI.chatGen u = gen]): the apology goes to the end
    of the transcript as it then is, and after a send and its failure with
    nothing in between the transcript is the former one, the user's message,
    the apology; when that result view is gone, the continuation changes
    nothing at all. *)
Theorem chat_failure_appends_apology
    (gen : nat) (data : FixItResponse.t) (render srender : ChatPanel.State) :
  blank (input render) = false -> isChatLoading render = false ->
  blank (input srender) = false -> isChatLoading srender = false ->
  (exists k,
      (forall tick u,
          let sent := run (handleSendChat gen data render) tick u in
          started sent
          = [(ChatResponse data (chatHistory render) (input render), OnText k)]
          /\ UI.app (state sent) = UI.app u
          /\ (UI.chatGen u = gen ->
              chatHistory (UI.chat (state sent))
              = (chatHistory (UI.chat u) ++ [ChatMessage.mk user (input render)])%list))
      /\ forall msg tick u,
          let failed := run (k (Threw msg)) tick u in
          UI.app (state failed) = UI.app u
          /\ UI.support (state failed) = UI.support u
          /\ alerts failed = [] /\ started failed = []
          /\ (UI.chatGen u = gen ->
              chatHistory (UI.chat (state failed))
              = (chatHistory (UI.chat u)
                 ++ [ChatMessage.mk model "Sorry, I encountered an error answering that."])%list
              /\ isChatLoading (UI.chat (state failed)) = false
              /\ forall tick',
                  chatHistory
                    (UI.chat (state (run (k (Threw msg)) tick
                                       (state (run (handleSendChat gen data render) tick' u)))))
                  = (chatHistory (UI.chat u)
                     ++ [ChatMessage.mk user (input render);
                         ChatMessage.mk model "Sorry, I encountered an error answering that."])%list)
          /\ (UI.chatGen u <> gen -> state failed = u))
  /\ (exists k,
      (forall tick u,
          let sent := run (handleSend srender) tick u in
          started sent
          = [(SupportChatResponse (chatHistory srender) (input srender), OnText k)]
          /\ chatHistory (UI.support (state sent))
             = (chatHistory (UI.support u)
                ++ [ChatMessage.mk user (input srender)])%list
          /\ UI.app (state sent) = UI.app u)
      /\ forall msg tick u,
          let failed := run (k (Threw msg)) tick u in
          chatHistory (UI.support (state failed))
          = (chatHistory (UI.support u)
             ++ [ChatMessage.mk model
                   "Sorry, I'm having trouble connecting. Please check your internet or try again."])%list
          /\ isChatLoading (UI.support (state failed)) = false
          /\ UI.app (state failed) = UI.app u
          /\ UI.chat (state failed) = UI.chat u
          /\ alerts failed = [] /\ started failed = []
          /\ forall tick',
              chatHistory
                (UI.support (state (run (k (Threw msg)) tick
                                      (state (run (handleSend srender) tick' u)))))
              = (chatHistory (UI.support u)
                 ++ [ChatMessage.mk user (input srender);
                     ChatMessage.mk model
                       "Sorry, I'm having trouble connecting. Please check your internet or try again."])%list).
Proof.
  intros B L SB SL. split.
  - unfold handleSendChat. rewrite B, L. cbn [orb]. eexists. split.
    + intros tick u. cbn [run state started]. split; [reflexivity|].
      split; [now rewrite !onChat_keeps_app|].
      intros G. unfold UI.onChat. rewrite G, Nat.eqb_refl. simpl.
      rewrite Nat.eqb_refl. simpl. rewrite Nat.eqb_refl. reflexivity.
    + intros msg tick u. cbn [run state alerts started].
      split; [now rewrite !onChat_keeps_app|].
      split; [now rewrite !onChat_keeps_support|].
      split; [reflexivity|]. split; [reflexivity|]. split.
      * intros G. unfold UI.onChat. rewrite G, Nat.eqb_refl. simpl.
        rewrite Nat.eqb_refl. simpl. repeat split.
        intros tick'. repeat (rewrite Nat.eqb_refl; simpl).
        unfold append. now rewrite <- app_assoc.
      * intros G. apply Nat.eqb_neq in G. rewrite Nat.eqb_sym in G.
        unfold UI.onChat. rewrite G. now rewrite G.
  - unfold handleSend. rewrite SB, SL. simpl. eexists. split.
    + intros tick u. simpl. repeat split.
    + intros msg tick u. simpl. repeat split.
      intros tick'. unfold append. now rewrite <- app_assoc.
Qed.

Lemma chat_failure_appends_apology_witness :
  (exists k : outcome string -> Proc,
      (forall tick u,
          started (run (handleSendChat 0 MachineSpec.stored_analysis
                          (MachineSpec.asking "Which washer?")) tick u)
          = [(ChatResponse MachineSpec.stored_analysis [] "Which washer?", OnText k)])
      /\ forall msg tick u,
          UI.chatGen u = 0 ->
          chatHistory (UI.chat (state (run (k (Threw msg)) tick u)))
          = (chatHistory (UI.chat u)
             ++ [ChatMessage.mk model "Sorry, I encountered an error answering that."])%list)
  /\ (exists k : outcome string -> Proc,
      (forall tick u,
          started (run (handleSend (MachineSpec.asking "How do I upload?")) tick u)
          = [(SupportChatResponse [] "How do I upload?", OnText k)])
      /\ forall msg tick u,
          chatHistory (UI.support (state (run (k (Threw msg)) tick u)))
          = (chatHistory (UI.support u)
             ++ [ChatMessage.mk model
                   "Sorry, I'm having trouble connecting. Please check your internet or try again."])%list).
Proof.
  destruct (chat_failure_appends_apology 0 MachineSpec.stored_analysis
              (MachineSpec.asking "Which washer?")
              (MachineSpec.asking "How do I upload?")
              eq_refl eq_refl eq_refl eq_refl)
    as [(k & S & F) (k' & S' & F')].
  split.
  - exists k. split.
    + intros tick u. apply (S tick u).
    + intros msg tick u G. apply (F msg tick u). exact G.
  - exists k'. split.
    + intros tick u. apply (S' tick u).
    + intros msg tick u. apply (F' msg tick u).
Defined.

Import Machine.

(** C6, where the spec's sentence fails.  A question is sent under a
    result and its call fails after the user has left that result view.
    After New Analysis the failure appends nothing: no apology, and the
    transcript is empty.  After opening another result from the history the
    apology lands alone in the transcript of that other result, without the
    message sent.  Both runs start from the initial page, and the
    spec's sentence fails in the state each of them reaches. *)
Lemma chat_failure_can_lose_the_exchange :
  let abandoned := MachineSpec.run_trace MachineSpec.abandoned_chat_trace in
  let switched := MachineSpec.run_trace MachineSpec.switched_chat_trace in
  exec initial MachineSpec.abandoned_chat_trace = Some abandoned
  /\ exec initial MachineSpec.switched_chat_trace = Some switched
  /\ (exists s',
         map fst (pending abandoned)
         = [ChatResponse MachineSpec.stored_analysis [] "Which washer?"]
         /\ step MachineSpec.late abandoned (Settle 0 (Reply (Threw "503")))
            = Some (s', [])
         /\ chatHistory (UI.chat (ui s')) = [])
  /\ (exists data s',
         map fst (pending switched) = [ChatResponse data [] "Which washer?"]
         /\ App.result (UI.app (ui switched)) = Some MachineSpec.stored_analysis
         /\ step MachineSpec.late switched (Settle 0 (Reply (Threw "503")))
            = Some (s', [])
         /\ chatHistory (UI.chat (ui s'))
            = [ChatMessage.mk model "Sorry, I encountered an error answering that."])
  /\ ~ MachineSpec.failure_keeps_the_exchange abandoned
  /\ ~ MachineSpec.failure_keeps_the_exchange switched.
Proof.
  cbv zeta.
  assert (A : exists s',
             map fst (pending (MachineSpec.run_trace MachineSpec.abandoned_chat_trace))
             = [ChatResponse MachineSpec.stored_analysis [] "Which washer?"]
             /\ step MachineSpec.late
                  (MachineSpec.run_trace MachineSpec.abandoned_chat_trace)
                  (Settle 0 (Reply (Threw "503")))
                = Some (s', [])
             /\ chatHistory (UI.chat (ui s')) = []).
  { eexists. split; [|split]; vm_compute; reflexivity. }
  assert (B : exists data s',
             map fst (pending (MachineSpec.run_trace MachineSpec.switched_chat_trace))
             = [ChatResponse data [] "Which washer?"]
             /\ App.result (UI.app (ui (MachineSpec.run_trace MachineSpec.switched_chat_trace)))
                = Some MachineSpec.stored_analysis
             /\ step MachineSpec.late
                  (MachineSpec.run_trace MachineSpec.switched_chat_trace)
                  (Settle 0 (Reply (Threw "503")))
                = Some (s', [])
             /\ chatHistory (UI.chat (ui s'))
                = [ChatMessage.mk model "Sorry, I encountered an error answering that."]).
  { do 2 eexists. split; [|split; [|split]]; vm_compute; reflexivity. }
  split; [vm_compute; reflexivity|].
  split; [vm_compute; reflexivity|].
  split; [exact A|]. split; [exact B|].
  destruct A as (s' & P & S & H). destruct B as (d & t' & P' & _ & S' & H').
  split; intros K.
  - destruct (K 0 _ _ _ MachineSpec.late "503"%string s' []
                (f_equal (fun l => nth_error l 0) P) S) as [U _].
    rewrite H in U. exact U.
  - destruct (K 0 _ _ _ MachineSpec.late "503"%string t' []
                (f_equal (fun l => nth_error l 0) P') S') as [U _].
    rewrite H' in U. destruct U as [U|[]]. discriminate U.
Qed.

End ChatFacts.

(** ** The capture adapter *)

Module CaptureFacts.

Import FileUpload.

(** C7: [handleFile] on a file of more than 20 MB shows the validation
    message and does nothing else: the state of every component is as
    before, and no read and no gateway call is started. *)
Theorem oversized_file_is_rejected
    (gen : nat) (onFileSelect : MediaFile.t -> Proc) (file : File.t)
    (tick : Tick) (u : UI.State) :
  (20 * 1024 * 1024 < File.size file)%Z ->
  run (handleFile gen onFileSelect file) tick u
  = {| state := u;
       alerts := ["File size too large. Please upload files smaller than 20MB."];
       started := [] |}.
Proof.
  intros H. unfold handleFile, MAX_SIZE.
  destruct (Z.ltb_spec (20 * 1024 * 1024) (File.size file)); [reflexivity|lia].
Qed.

Lemma oversized_file_is_rejected_witness :
  run (handleFile 0 Session.handleFileSelect MachineSpec.oversized)
    MachineSpec.early UI.initial
  = {| state := UI.initial;
       alerts := ["File size too large. Please upload files smaller than 20MB."];
       started := [] |}.
Proof.
  apply (oversized_file_is_rejected 0 Session.handleFileSelect MachineSpec.oversized
           MachineSpec.early UI.initial).
  reflexivity.
Defined.

End CaptureFacts.

(** ** The presentation mapper *)

Module PresentationFacts.

Import Presentation PresentationSpec.

Lemma in_range n : (0 <= n <= 1000)%Z -> In n range.
Proof.
  intros H. unfold range. replace n with (Z.of_nat (Z.to_nat n)) by lia.
  apply in_map, in_seq. lia.
Qed.

Lemma pairs (P : Z -> Z -> bool) :
  all_pairs P = true ->
  forall a b, (0 <= a <= 1000)%Z -> (0 <= b <= 1000)%Z -> P a b = true.
Proof.
  intros T a b A B. unfold all_pairs in T.
  rewrite forallb_forall in T. specialize (T a (in_range a A)).
  rewrite forallb_forall in T. exact (T b (in_range b B)).
Qed.

(** Below [2^63] the conversion of the processor is the rounding. *)
Lemma of_integer_quick n : (0 <= n < 2 ^ 63)%Z -> of_integer n = quick n.
Proof.
  intros H. unfold of_integer, quick.
  rewrite <- (FloatAxioms.SF2Prim_Prim2SF (PrimFloat.of_uint63 (Uint63.of_Z n))).
  rewrite FloatAxioms.of_uint63_spec.
  rewrite Uint63.of_Z_spec. rewrite Z.mod_small; [reflexivity|].
  change Uint63.wB with (2 ^ 63)%Z. lia.
Qed.

Lemma differences_table : all_pairs difference_exact = true.
Proof. vm_compute. reflexivity. Qed.

Lemma reversed_table : all_pairs negative_when_reversed = true.
Proof. vm_compute. reflexivity. Qed.

Lemma close_table : forallb close range = true.
Proof. vm_compute. reflexivity. Qed.

(** [ymax - ymin] is computed without rounding. *)
Lemma sub_exact a b :
  (0 <= a <= b)%Z -> (b <= 1000)%Z ->
  PrimFloat.sub (of_integer b) (of_integer a) = of_integer (b - a).
Proof.
  intros A B. rewrite !of_integer_quick by lia.
  pose proof (pairs difference_exact differences_table a b ltac:(lia) ltac:(lia)) as T.
  unfold difference_exact in T.
  destruct (Z.leb_spec a b); [|lia].
  now apply FloatAxioms.Leibniz.eqb_spec.
Qed.

Local Open Scope Q_scope.

Lemma close_spec n :
  (0 <= n <= 1000)%Z ->
  exists q,
    exact (percent64 n) = Some q
    /\ 0 <= q <= 100
    /\ Qabs (q - inject_Z n / 10) <= 1 # 2 ^ 46.
Proof.
  intros H. pose proof close_table as T. rewrite forallb_forall in T.
  specialize (T n (in_range n H)). unfold close in T.
  destruct (exact (percent64 n)) as [q|]; [|discriminate].
  apply andb_prop in T. destruct T as [T C]. apply andb_prop in T. destruct T as [L U].
  apply Qle_bool_iff in L, U, C.
  exists q. repeat split; assumption.
Qed.

(** C8, amended: for a box with [0 <= yMin <= yMax <= 1000] and
    [0 <= xMin <= xMax <= 1000] the four percentages the code computes, in
    binary64, are numbers between 0 and 100, each at most [2^-46] away from
    [yMin/10], [xMin/10], [(yMax - yMin)/10] and [(xMax - xMin)/10]; so
    [top + height] and [left + width] are at least 0 and pass 100 by at most
    [2^-45]. *)
Theorem overlay_within_bounds (label : string) (yMin xMin yMax xMax : Z) :
  (0 <= yMin <= yMax)%Z -> (yMax <= 1000)%Z ->
  (0 <= xMin <= xMax)%Z -> (xMax <= 1000)%Z ->
  let o := overlay (Annotation.mk label [yMin; xMin; yMax; xMax]) in
  exists t l h w,
    exact (top o) = Some t /\ exact (left o) = Some l
    /\ exact (height o) = Some h /\ exact (width o) = Some w
    /\ Qabs (t - inject_Z yMin / 10) <= 1 # 2 ^ 46
    /\ Qabs (l - inject_Z xMin / 10) <= 1 # 2 ^ 46
    /\ Qabs (h - inject_Z (yMax - yMin) / 10) <= 1 # 2 ^ 46
    /\ Qabs (w - inject_Z (xMax - xMin) / 10) <= 1 # 2 ^ 46
    /\ 0 <= t <= 100 /\ 0 <= l <= 100
    /\ 0 <= h <= 100 /\ 0 <= w <= 100
    /\ 0 <= t + h <= 100 + (1 # 2 ^ 45)
    /\ 0 <= l + w <= 100 + (1 # 2 ^ 45).
Proof.
  intros Hy Hy' Hx Hx' o.
  destruct (close_spec yMin) as (t & Et & Bt & Ct); [lia|].
  destruct (close_spec xMin) as (l & El & Bl & Cl); [lia|].
  destruct (close_spec (yMax - yMin)) as (h & Eh & Bh & Ch); [lia|].
  destruct (close_spec (xMax - xMin)) as (w & Ew & Bw & Cw); [lia|].
  exists t, l, h, w. unfold o, overlay.
  cbn [Annotation.box_2d nth_error number top left height width].
  rewrite (sub_exact yMin yMax Hy Hy'), (sub_exact xMin xMax Hx Hx').
  fold (percent64 yMin) (percent64 xMin) (percent64 (yMax - yMin))
    (percent64 (xMax - xMin)).
  repeat (split; [assumption|]).
  apply Qabs_Qle_condition in Ct, Cl, Ch, Cw.
  assert (Dy : inject_Z (yMax - yMin) == inject_Z yMax - inject_Z yMin)
    by (unfold Z.sub; rewrite inject_Z_plus, inject_Z_opp; reflexivity).
  assert (Dx : inject_Z (xMax - xMin) == inject_Z xMax - inject_Z xMin)
    by (unfold Z.sub; rewrite inject_Z_plus, inject_Z_opp; reflexivity).
  rewrite Dy in Ch. rewrite Dx in Cw.
  assert (Uy : inject_Z yMax <= 1000)
    by (change 1000 with (inject_Z 1000); rewrite <- Zle_Qle; lia).
  assert (Ux : inject_Z xMax <= 1000)
    by (change 1000 with (inject_Z 1000); rewrite <- Zle_Qle; lia).
  change (2 ^ 46)%positive with 70368744177664%positive in *.
  change (2 ^ 45)%positive with 35184372088832%positive.
  clear Dy Dx Et El Eh Ew o.
  set (a := inject_Z yMin) in *. set (b := inject_Z yMax) in *.
  set (c := inject_Z xMin) in *. set (d := inject_Z xMax) in *.
  clearbody a b c d.
  unfold Qdiv in *. change (/ 10) with (1 # 10) in *.
  repeat split; lra.
Qed.

(** C8, as stated, fails: for the box [(64, 0, 1000, 1000)], which is in
    range, the code computes [top = 6.4] and [height = 93.60000000000001],
    the doubles nearest to [(64/1000)*100] and [(936/1000)*100] as binary64
    rounds them; the height is not [936/10], their sum is more than 100, as
    rationals and when added in binary64, and the overlay is not within the
    image. *)
Lemma overlay_can_overshoot :
  let o := overlay (Annotation.mk "Leak" [64; 0; 1000; 1000]%Z) in
  (exists t h,
      exact (top o) = Some t /\ exact (height o) = Some h
      /\ 100 < t + h
      /\ ~ h == inject_Z (1000 - 64) / 10)
  /\ PrimFloat.ltb (of_integer 100) (PrimFloat.add (top o) (height o)) = true
  /\ ~ within o.
Proof.
  cbv zeta.
  assert (Et : exact (top (overlay (Annotation.mk "Leak" [64; 0; 1000; 1000]%Z)))
               = Some (7205759403792794 # 1125899906842624))
    by (vm_compute; reflexivity).
  assert (Eh : exact (height (overlay (Annotation.mk "Leak" [64; 0; 1000; 1000]%Z)))
               = Some (6586514455029351 # 70368744177664))
    by (vm_compute; reflexivity).
  split; [|split].
  - eexists. eexists. split; [exact Et|]. split; [exact Eh|].
    split; [vm_compute; reflexivity|]. intros E. vm_compute in E. discriminate E.
  - vm_compute. reflexivity.
  - intros (t & l & h & w & Et' & _ & Eh' & _ & _ & _ & [_ B] & _).
    rewrite Et in Et'. rewrite Eh in Eh'. inversion Et'. inversion Eh'. subst t h.
    vm_compute in B. now apply B.
Qed.

(** X14: in binary64 each of the four percentages of such a box is a number
    between 0 and 100 that differs from the exact one by at most [2^-46]. *)
Lemma percent_binary64_close (n : Z) :
  (0 <= n <= 1000)%Z -> PresentationSpec.close n = true.
Proof.
  intros H. pose proof close_table as A.
  rewrite forallb_forall in A. apply A. now apply in_range.
Qed.

Lemma overlay_within_bounds_witness :
  exists t l h w,
    exact (top (overlay (Annotation.mk "Leak" [64; 0; 1000; 1000]%Z))) = Some t
    /\ exact (left (overlay (Annotation.mk "Leak" [64; 0; 1000; 1000]%Z))) = Some l
    /\ exact (height (overlay (Annotation.mk "Leak" [64; 0; 1000; 1000]%Z))) = Some h
    /\ exact (width (overlay (Annotation.mk "Leak" [64; 0; 1000; 1000]%Z))) = Some w
    /\ 0 <= t + h <= 100 + (1 # 2 ^ 45)
    /\ 0 <= l + w <= 100 + (1 # 2 ^ 45).
Proof.
  destruct (overlay_within_bounds "Leak" 64 0 1000 1000)
    as (t & l & h & w & Et & El & Eh & Ew & _ & _ & _ & _ & _ & _ & _ & _ & V & H);
    try lia.
  exists t, l, h, w. repeat split; solve [assumption | apply V | apply H].
Defined.

End PresentationFacts.

(** ** The page as a whole *)

Module MachineFacts.

Import App Machine JsonFacts MachineSpec.

Section Keeping.

Variable P : UI.State -> UI.State -> Prop.
Hypothesis P_refl : forall u, P u u.
Hypothesis P_trans : forall u v w, P u v -> P v w -> P u w.


Lemma run_respects p :
  respects P p ->
  forall tick u,
    P u (state (run p tick u))
    /\ Forall (respects_waiting P) (started (run p tick u)).
Proof.
  induction p as [ | upd k IH | msg k IH | k IH | k IH | k IH | f k IH
                 | b m k IH | b m fc k IH | c h m k IH | h m k IH | p IHp k IHk ];
    simpl; intros K tick u.
  - split; [apply P_refl | constructor].
  - destruct K as [Ku Kk]. destruct (IH Kk tick (upd u)) as [Q F].
    split; [eapply P_trans; eauto | exact F].
  - apply (IH K tick u).
  - apply (IH _ (K _) tick u).
  - apply (IH _ (K _) tick u).
  - apply (IH _ (K _) tick u).
  - split; [apply P_refl|]. constructor; [|constructor].
    intros a p; simpl. destruct a; try discriminate. intros E; inv E. apply K.
  - split; [apply P_refl|]. constructor; [|constructor].
    intros a p; simpl. destruct a; try discriminate. intros E; inv E. apply K.
  - split; [apply P_refl|]. constructor; [|constructor].
    intros a p; simpl. destruct a; try discriminate. intros E; inv E. apply K.
  - split; [apply P_refl|]. constructor; [|constructor].
    intros a p; simpl. destruct a; try discriminate. intros E; inv E. apply K.
  - split; [apply P_refl|]. constructor; [|constructor].
    intros a p; simpl. destruct a; try discriminate. intros E; inv E. apply K.
  - destruct K as [Kp Kk]. destruct (IHp Kp tick u) as [Q1 F1].
    destruct (IHk Kk tick (state (run p tick u))) as [Q2 F2].
    split; [eapply P_trans; eauto | apply Forall_app; split; assumption].
Qed.

End Keeping.

Lemma grows_refl u : grows u u.
Proof. now exists []. Qed.

Lemma grows_trans u v w : grows u v -> grows v w -> grows u w.
Proof.
  intros [n1 E1] [n2 E2]. exists (n2 ++ n1)%list.
  now rewrite E2, E1, app_assoc.
Qed.

Lemma grows_same u u' : history (UI.app u') = history (UI.app u) -> grows u u'.
Proof. intros E. now exists []. Qed.

Lemma onUpload_app gen f u : UI.app (UI.onUpload gen f u) = UI.app u.
Proof. unfold UI.onUpload. now destruct (Nat.eqb gen (UI.uploadGen u)). Qed.

Lemma onChat_app gen f u : UI.app (UI.onChat gen f u) = UI.app u.
Proof. unfold UI.onChat. now destruct (Nat.eqb gen (UI.chatGen u)). Qed.

Ltac respect :=
  repeat match goal with
    | |- _ /\ _ => split
    | |- forall _, _ => intro
    | |- True => exact I
    | |- grows _ (UI.onUpload _ _ _) => apply grows_same; now rewrite onUpload_app
    | |- grows _ (UI.onChat _ _ _) => apply grows_same; now rewrite onChat_app
    | |- grows _ (Session.set (setHistory (cons ?r)) _) => now exists [r]
    | |- grows _ _ => apply grows_same; reflexivity
    | |- respects _ (match ?x with _ => _ end) => destruct x
    | |- respects _ (if ?b then _ else _) => destruct b
    | |- respects _ _ => progress cbn [respects]
    end.

Lemma handleFileSelect_respects media : respects grows (Session.handleFileSelect media).
Proof. unfold Session.handleFileSelect. respect. Qed.

Lemma handleItemSelect_respects render item :
  respects grows (Session.handleItemSelect render item).
Proof.
  unfold Session.handleItemSelect.
  destruct (Session.captured render) as [[media b]|]; respect.
Qed.

Lemma handleStartDetection_respects render :
  respects grows (Session.handleStartDetection render).
Proof.
  unfold Session.handleStartDetection.
  destruct (Session.captured render) as [[media b]|]; respect.
  apply handleItemSelect_respects.
Qed.

Lemma handleFile_respects gen file :
  respects grows (FileUpload.handleFile gen Session.handleFileSelect file).
Proof.
  unfold FileUpload.handleFile.
  destruct (FileUpload.MAX_SIZE <? File.size file)%Z; respect.
  apply handleFileSelect_respects.
Qed.

Lemma handleSendChat_respects gen data render :
  respects grows (Chats.handleSendChat gen data render).
Proof. unfold Chats.handleSendChat. respect. Qed.

Lemma handleSend_respects render : respects grows (Chats.handleSend render).
Proof. unfold Chats.handleSend. respect. Qed.

Lemma Forall_remove_nth {A} (Q : A -> Prop) i : forall l,
  Forall Q l -> Forall Q (remove_nth i l).
Proof.
  induction i as [|i IH]; intros [|x l] F; simpl; trivial.
  - now inv F.
  - inv F. constructor; auto.
Qed.

Lemma dispatch_respects s e p rest :
  well_formed s -> dispatch s e = Some (p, rest) ->
  respects grows p /\ Forall (respects_waiting grows) rest.
Proof.
  intros W D.
  assert (O : forall (b : bool) q,
             (if b then Some (q, pending s) else None) = Some (p, rest) ->
             respects grows q -> respects grows p /\ Forall (respects_waiting grows) rest).
  { intros [|] q E K; [|discriminate]. inv E. split; assumption. }
  destruct e; simpl in D;
    try (destruct (nth_error (detectedItems (UI.app (ui s))) i); [|discriminate]);
    try (destruct (nth_error (history (UI.app (ui s))) i); [|discriminate]);
    try (destruct (shownResult (UI.app (ui s))) eqn:?; [|discriminate]);
    try (first [eapply O; [exact D|] | eapply (O true); [exact D|]];
         first [ apply handleFile_respects | apply handleStartDetection_respects
               | apply handleItemSelect_respects | apply handleSendChat_respects
               | apply handleSend_respects
               | unfold FileUpload.clearFile, Session.handleClearFile,
                   Session.handleReset, Session.handleSelectAnother,
                   Session.handleHistorySelect; respect ]).
  destruct (nth_error (pending s) i) as [[call w]|] eqn:N; [|discriminate].
  destruct (resume w a) as [q|] eqn:R; [|discriminate].
  match type of D with (if ?b then _ else _) = _ => destruct b end;
    [|discriminate].
  inv D. split.
  - apply nth_error_In in N.
    unfold well_formed in W. rewrite Forall_forall in W.
    exact (W _ N a p R).
  - now apply Forall_remove_nth.
Qed.

Lemma rerender_app old new : UI.app (rerender old new) = UI.app new.
Proof.
  unfold rerender.
  destruct (showsUpload (UI.app old) && negb (showsUpload (UI.app new)));
    destruct (shownResult (UI.app old)); destruct (shownResult (UI.app new));
    try destruct (same_id _ _); reflexivity.
Qed.

Lemma step_respects tick s e s' shown :
  well_formed s -> step tick s e = Some (s', shown) ->
  well_formed s' /\ grows (ui s) (ui s').
Proof.
  intros W S. unfold step in S.
  destruct (dispatch s e) as [[p rest]|] eqn:D; [|discriminate].
  inv S. destruct (dispatch_respects _ _ _ _ W D) as [K F].
  destruct (run_respects grows grows_refl grows_trans p K tick (ui s)) as [G F'].
  split.
  - unfold well_formed; simpl. apply Forall_app. split; assumption.
  - simpl. destruct G as [new E]. exists new. now rewrite rerender_app.
Qed.

Lemma exec_respects trace : forall s s',
  well_formed s -> exec s trace = Some s' ->
  well_formed s' /\ grows (ui s) (ui s').
Proof.
  induction trace as [|[tick e] trace IH]; simpl; intros s s' W E.
  - inv E. split; [assumption | apply grows_refl].
  - destruct (step tick s e) as [[s1 shown]|] eqn:S; [|discriminate].
    destruct (step_respects _ _ _ _ _ W S) as [W1 G1].
    destruct (IH _ _ W1 E) as [W' G'].
    split; [assumption | eapply grows_trans; eauto].
Qed.

Lemma reachable_well_formed s : reachable s -> well_formed s.
Proof.
  intros [trace E]. apply (exec_respects trace initial); [constructor | exact E].
Qed.

(** *** The identifiers in the history are distinct *)

Lemma run_stamps p : forall tick pushed u,
  stamps tick pushed p ->
  (history (UI.app (state (run p tick u))) = history (UI.app u)
   \/ (pushed = false
       /\ exists r,
           FixItResponse.id r = Some (uuid tick)
           /\ history (UI.app (state (run p tick u))) = r :: history (UI.app u)))
  /\ Forall stamps_waiting (started (run p tick u)).
Proof.
  assert (W : forall A (k : A -> Proc) (wrap : (A -> Proc) -> Waiting) call,
             (forall a, resume (wrap k) a = None
                        \/ exists x, resume (wrap k) a = Some (k x)) ->
             (forall tick' x, stamps tick' false (k x)) ->
             Forall stamps_waiting [(call, wrap k)]).
  { intros A k wrap call R K. constructor; [|constructor].
    intros tick a q E. cbn [snd] in E.
    destruct (R a) as [N | [x X]]; rewrite E in *; [discriminate|].
    inv X. apply K. }
  induction p as [ | upd k IH | msg k IH | k IH | k IH | k IH | f k IH
                 | b m k IH | b m fc k IH | c h m k IH | h m k IH | p IHp k IHk ];
    intros tick pushed u S; cbn [stamps] in S; cbn [run state started].
  - split; [now left | constructor].
  - destruct S as [[Same K] | (-> & (r & Id & Push) & K)].
    + destruct (IH tick pushed (upd u) K) as [H F]. split; [|exact F].
      rewrite Same in H. exact H.
    + destruct (IH tick true (upd u) K) as [[H | [? _]] F]; [|discriminate].
      split; [|exact F]. right. split; [reflexivity|].
      exists r. split; [exact Id|]. now rewrite H, Push.
  - apply (IH tick pushed u S).
  - apply (IH _ tick pushed u S).
  - apply (IH _ tick pushed u S).
  - apply (IH _ tick pushed u S).
  - split; [now left|]. apply (W _ k OnRead); [|exact S].
    intros [x|x|x|x]; cbn; eauto.
  - split; [now left|]. apply (W _ k OnItems); [|exact S].
    intros [x|x|x|x]; cbn; eauto.
  - split; [now left|]. apply (W _ k OnAnalysis); [|exact S].
    intros [x|x|x|x]; cbn; eauto.
  - split; [now left|]. apply (W _ k OnText); [|exact S].
    intros [x|x|x|x]; cbn; eauto.
  - split; [now left|]. apply (W _ k OnText); [|exact S].
    intros [x|x|x|x]; cbn; eauto.
  - destruct S as [Sp Sk].
    destruct (IHp tick true u Sp) as [[Hp | [? _]] Fp]; [|discriminate].
    destruct (IHk tick pushed (state (run p tick u)) Sk) as [Hk Fk].
    split; [|apply Forall_app; split; assumption].
    rewrite Hp in Hk. exact Hk.
Qed.

Lemma stamps_same tick pushed upd k :
  (forall u, history (UI.app (upd u)) = history (UI.app u)) ->
  stamps tick pushed k -> stamps tick pushed (Set_ upd k).
Proof. intros Same K. cbn [stamps]. left. now split. Qed.

Lemma stamps_push tick r upd k :
  FixItResponse.id r = Some (uuid tick) ->
  (forall u, history (UI.app (upd u)) = r :: history (UI.app u)) ->
  stamps tick true k -> stamps tick false (Set_ upd k).
Proof. intros Id Push K. cbn [stamps]. right. repeat split; eauto. Qed.

Lemma stamps_spawn tick pushed p k :
  stamps tick true p -> stamps tick pushed k -> stamps tick pushed (Spawn p k).
Proof. intros; cbn [stamps]; now split. Qed.

Ltac stamp :=
  repeat match goal with
    | |- forall _, _ => intro
    | |- stamps _ _ Return => exact I
    | |- stamps _ _ (match ?x with _ => _ end) => destruct x
    | |- stamps _ _ (if ?b then _ else _) => destruct b
    | |- stamps _ _ (Set_ (Session.set (setHistory (cons ?r))) _) =>
        apply (stamps_push _ r); [reflexivity | intro; reflexivity |]
    | |- stamps _ _ (Set_ _ _) =>
        apply stamps_same;
        [intro; first [reflexivity | now rewrite onUpload_app | now rewrite onChat_app]|]
    | |- stamps _ _ (Spawn _ _) => apply stamps_spawn
    | |- stamps ?t ?b (Alert _ ?k) => change (stamps t b k)
    | |- stamps ?t ?b (RandomUUID ?k) => change (stamps t b (k (uuid t))); cbv beta
    | |- stamps ?t ?b (DateNow ?k) => change (stamps t b (k (now t))); cbv beta
    | |- stamps ?t ?b (CreateObjectURL ?k) => change (stamps t b (k (blobUrl t))); cbv beta
    | |- stamps _ _ (ReadAsDataURL _ ?k) =>
        change (forall tick' x, stamps tick' false (k x)); cbv beta
    | |- stamps _ _ (AwaitDetectItems _ _ ?k) =>
        change (forall tick' x, stamps tick' false (k x)); cbv beta
    | |- stamps _ _ (AwaitAnalyzeMedia _ _ _ ?k) =>
        change (forall tick' x, stamps tick' false (k x)); cbv beta
    | |- stamps _ _ (AwaitChatResponse _ _ _ ?k) =>
        change (forall tick' x, stamps tick' false (k x)); cbv beta
    | |- stamps _ _ (AwaitSupportChatResponse _ _ ?k) =>
        change (forall tick' x, stamps tick' false (k x)); cbv beta
    end.

Lemma handleFileSelect_stamps tick pushed media :
  stamps tick pushed (Session.handleFileSelect media).
Proof. unfold Session.handleFileSelect. stamp. Qed.

Lemma handleItemSelect_stamps tick pushed render item :
  stamps tick pushed (Session.handleItemSelect render item).
Proof.
  unfold Session.handleItemSelect.
  destruct (Session.captured render) as [[media b]|]; stamp.
Qed.

Lemma handleStartDetection_stamps tick pushed render :
  stamps tick pushed (Session.handleStartDetection render).
Proof.
  unfold Session.handleStartDetection.
  destruct (Session.captured render) as [[media b]|]; stamp.
  apply handleItemSelect_stamps.
Qed.

Lemma handleFile_stamps tick pushed gen file :
  stamps tick pushed (FileUpload.handleFile gen Session.handleFileSelect file).
Proof.
  unfold FileUpload.handleFile.
  destruct (FileUpload.MAX_SIZE <? File.size file)%Z; stamp.
  apply handleFileSelect_stamps.
Qed.

Lemma handleSendChat_stamps tick pushed gen data render :
  stamps tick pushed (Chats.handleSendChat gen data render).
Proof. unfold Chats.handleSendChat. stamp. Qed.

Lemma handleSend_stamps tick pushed render :
  stamps tick pushed (Chats.handleSend render).
Proof.
  unfold Chats.handleSend, UI.onSupport. stamp.
Qed.

Lemma dispatch_stamps tick s e p rest :
  well_stamped s -> dispatch s e = Some (p, rest) ->
  stamps tick false p /\ Forall stamps_waiting rest.
Proof.
  intros W D.
  assert (O : forall (b : bool) q,
             (if b then Some (q, pending s) else None) = Some (p, rest) ->
             stamps tick false q -> stamps tick false p /\ Forall stamps_waiting rest).
  { intros [|] q E K; [|discriminate]. inv E. split; assumption. }
  destruct e; simpl in D;
    try (destruct (nth_error (detectedItems (UI.app (ui s))) i); [|discriminate]);
    try (destruct (nth_error (history (UI.app (ui s))) i); [|discriminate]);
    try (destruct (shownResult (UI.app (ui s))) eqn:?; [|discriminate]);
    try (first [eapply O; [exact D|] | eapply (O true); [exact D|]];
         first [ apply handleFile_stamps | apply handleStartDetection_stamps
               | apply handleItemSelect_stamps | apply handleSendChat_stamps
               | apply handleSend_stamps
               | unfold FileUpload.clearFile, Session.handleClearFile,
                   Session.handleReset, Session.handleSelectAnother,
                   Session.handleHistorySelect, UI.onSupport; stamp ]).
  destruct (nth_error (pending s) i) as [[call w]|] eqn:N; [|discriminate].
  destruct (resume w a) as [q|] eqn:R; [|discriminate].
  match type of D with (if ?b then _ else _) = _ => destruct b end;
    [|discriminate].
  inv D. split.
  - apply nth_error_In in N.
    unfold well_stamped in W. rewrite Forall_forall in W.
    exact (W _ N tick a p R).
  - now apply Forall_remove_nth.
Qed.

Lemma step_stamps tick s e s' shown :
  well_stamped s -> step tick s e = Some (s', shown) ->
  well_stamped s'
  /\ (identifiers s' = identifiers s
      \/ identifiers s' = Some (uuid tick) :: identifiers s).
Proof.
  intros W S. unfold step in S.
  destruct (dispatch s e) as [[p rest]|] eqn:D; [|discriminate].
  inv S. destruct (dispatch_stamps tick _ _ _ _ W D) as [K F].
  destruct (run_stamps p tick false (ui s) K) as [H F'].
  split.
  - unfold well_stamped; simpl. apply Forall_app. split; assumption.
  - unfold identifiers. cbn [ui]. rewrite rerender_app.
    destruct H as [-> | [_ (r & Id & ->)]]; [now left|].
    right. simpl. now rewrite Id.
Qed.

(** In every state of a run in which the platform never draws an identifier
    that is already stored, no two entries of the history have the same
    identifier. *)
Lemma identifiers_distinct trace : forall s s',
  well_stamped s -> NoDup (identifiers s) ->
  fresh_run s trace -> exec s trace = Some s' ->
  NoDup (identifiers s').
Proof.
  induction trace as [|[tick e] trace IH]; simpl; intros s s' W N F E.
  - now inv E.
  - destruct F as [Fresh F].
    destruct (step tick s e) as [[s1 shown]|] eqn:S; [|discriminate].
    destruct (step_stamps _ _ _ _ _ W S) as [W1 [Same | Push]].
    + apply (IH s1 s' W1); [now rewrite Same | exact F | exact E].
    + apply (IH s1 s' W1); [|exact F | exact E].
      rewrite Push. now constructor.
Qed.

Lemma identifiers_distinct_from_start trace s :
  fresh_run initial trace -> exec initial trace = Some s ->
  NoDup (identifiers s).
Proof.
  apply identifiers_distinct; constructor.
Qed.

(** *** Retrieval from the history *)

(** What a click on the [i]-th entry of the open sidebar does. *)
Lemma click_history tick s i r :
  isSidebarOpen (UI.app (ui s)) = true ->
  nth_error (history (UI.app (ui s))) i = Some r ->
  exists s',
    step tick s (ClickHistory i) = Some (s', [])
    /\ UI.app (ui s')
       = App.mk SUCCESS (Some r) (error (UI.app (ui s))) (history (UI.app (ui s)))
           false (isDarkMode (UI.app (ui s))) (currentMedia (UI.app (ui s)))
           (detectedItems (UI.app (ui s))).
Proof.
  intros O N. unfold step, dispatch. rewrite N, O.
  eexists. split; [reflexivity|].
  cbn [ui]. rewrite rerender_app. reflexivity.
Qed.

Lemma open_sidebar tick s :
  exists s',
    step tick s OpenSidebar = Some (s', [])
    /\ UI.app (ui s') = setIsSidebarOpen true (UI.app (ui s)).
Proof.
  unfold step, dispatch. eexists. split; [reflexivity|].
  cbn [ui]. rewrite rerender_app. reflexivity.
Qed.

(** C9: a result that is in the history is still in it, unchanged, after
    anything the page does, and selecting it there makes exactly that
    record, every field as it was stored, the current result. *)
Theorem history_round_trip
    (s s' : Sys) (trace : list (Tick * Event)) (r : FixItResponse.t)
    (tick tick' : Tick) :
  reachable s ->
  In r (history (UI.app (ui s))) ->
  exec s trace = Some s' ->
  exists i shown,
    nth_error (history (UI.app (ui s'))) i = Some r
    /\ exec s' [(tick, OpenSidebar); (tick', ClickHistory i)] = Some shown
    /\ result (UI.app (ui shown)) = Some r
    /\ status (UI.app (ui shown)) = SUCCESS
    /\ history (UI.app (ui shown)) = history (UI.app (ui s')).
Proof.
  intros R I E.
  destruct (exec_respects trace s s' (reachable_well_formed s R) E) as [_ [new G]].
  assert (I' : In r (history (UI.app (ui s')))).
  { rewrite G. apply in_or_app. now right. }
  destruct (In_nth_error _ _ I') as [i N].
  destruct (open_sidebar tick s') as (s1 & S1 & A1).
  destruct (click_history tick' s1 i r) as (s2 & S2 & A2).
  { now rewrite A1. }
  { now rewrite A1. }
  exists i, s2. split; [exact N|].
  cbn [exec]. rewrite S1, S2. rewrite A2, A1. repeat split.
Qed.

(** *** The session, as steps of the page *)

Lemma same_id_refl r : same_id (Some r) (Some r) = true.
Proof.
  unfold same_id. destruct (FixItResponse.id r); [apply String.eqb_refl | reflexivity].
Qed.

Lemma rerender_same u : rerender u u = u.
Proof.
  unfold rerender. rewrite andb_negb_r.
  destruct (shownResult (UI.app u)) as [r|]; [rewrite same_id_refl|];
    now destruct u.
Qed.

(** A file of more than 20 MB, picked or pasted: the page stays as it is,
    with the message shown. *)
Lemma oversized_file_is_no_transition tick s e f shown s' :
  e = Pick f \/ e = Paste f ->
  (20 * 1024 * 1024 < File.size f)%Z ->
  step tick s e = Some (s', shown) ->
  s' = s /\ shown = [FileUpload.TOO_LARGE].
Proof.
  intros E L S. unfold step in S.
  assert (R : run (FileUpload.handleFile (UI.uploadGen (ui s))
                     Session.handleFileSelect f) tick (ui s)
              = Build_Ran (ui s) [FileUpload.TOO_LARGE] []).
  { unfold FileUpload.handleFile, FileUpload.MAX_SIZE.
    destruct (Z.ltb_spec (20 * 1024 * 1024) (File.size f)); [reflexivity|lia]. }
  destruct E as [-> | ->]; simpl in S;
    match type of S with
    | match (if ?b then _ else _) with _ => _ end = _ => destruct b
    end; try discriminate;
    rewrite R in S; simpl in S; rewrite rerender_same, app_nil_r in S;
    inv S; (split; [now destruct s | reflexivity]).
Qed.

(** Reset is offered in every state and is one step to [IDLE]; what is in
    flight stays in flight. *)
Lemma reset_step tick s :
  exists s',
    step tick s ClickReset = Some (s', [])
    /\ UI.app (ui s')
       = App.mk IDLE None None (history (UI.app (ui s)))
           (isSidebarOpen (UI.app (ui s))) (isDarkMode (UI.app (ui s))) None []
    /\ pending s' = pending s.
Proof.
  unfold step, dispatch. eexists. split; [reflexivity|].
  cbn [ui pending]. rewrite rerender_app, app_nil_r. split; reflexivity.
Qed.

Lemma nth_error_last {A} (l : list A) x : nth_error (l ++ [x]) (List.length l) = Some x.
Proof. induction l; simpl; auto. Qed.

Lemma remove_nth_last {A} (l : list A) x : remove_nth (List.length l) (l ++ [x]) = l.
Proof. induction l; simpl; [reflexivity | now f_equal]. Qed.

(** With a payload captured, Analyze followed by a detection that finds
    nothing: the page goes from [UPLOADED] through [DETECTING] to
    [ANALYZING], never to [SELECTING], and the diagnosis without focus is in
    flight. *)
Lemma empty_detection_steps tick tick' s media base64 :
  status (UI.app (ui s)) = UPLOADED ->
  Session.captured (UI.app (ui s)) = Some (media, base64) ->
  exists s1 s2,
    step tick s ClickAnalyze = Some (s1, [])
    /\ status (UI.app (ui s1)) = DETECTING
    /\ step tick' s1 (Settle (List.length (pending s)) (Items (Returned [])))
       = Some (s2, [])
    /\ status (UI.app (ui s2)) = ANALYZING
    /\ detectedItems (UI.app (ui s2)) = detectedItems (UI.app (ui s))
    /\ map fst (pending s2)
       = (map fst (pending s)
          ++ [AnalyzeMedia base64 (File.type (MediaFile.file media)) None])%list.
Proof.
  intros U C.
  assert (S1 : exists s1,
             step tick s ClickAnalyze = Some (s1, [])
             /\ UI.app (ui s1)
                = setError None (setStatus DETECTING (UI.app (ui s)))
             /\ exists k,
                 pending s1
                 = (pending s
                    ++ [(DetectItems base64 (File.type (MediaFile.file media)),
                         OnItems k)])%list
                 /\ k (Returned [])
                    = Spawn (Session.handleItemSelect (UI.app (ui s)) None) Return).
  { unfold step, dispatch. rewrite U. cbn match.
    unfold Session.handleStartDetection. rewrite C.
    eexists. split; [reflexivity|]. cbn [ui pending]. rewrite rerender_app.
    split; [reflexivity|]. eexists. split; reflexivity. }
  destruct S1 as (s1 & S1 & A1 & k & P1 & K).
  assert (S2 : exists s2,
             step tick' s1 (Settle (List.length (pending s)) (Items (Returned [])))
             = Some (s2, [])
             /\ UI.app (ui s2) = setStatus ANALYZING (UI.app (ui s1))
             /\ map fst (pending s2)
                = (map fst (pending s)
                   ++ [AnalyzeMedia base64 (File.type (MediaFile.file media)) None])%list).
  { unfold step, dispatch. rewrite P1, nth_error_last. cbn [resume].
    rewrite K, remove_nth_last. unfold Session.handleItemSelect. rewrite C.
    eexists. split; [reflexivity|]. cbn [ui pending]. rewrite rerender_app.
    split; [reflexivity|]. simpl. now rewrite map_app. }
  destruct S2 as (s2 & S2 & A2 & P2).
  exists s1, s2. rewrite A2, A1. repeat split; assumption.
Qed.

Lemma rerender_same_app old new :
  UI.app new = UI.app old -> rerender old new = new.
Proof.
  intros E. unfold rerender. rewrite E, andb_negb_r.
  destruct (shownResult (UI.app old)) as [r|]; [rewrite same_id_refl|];
    destruct new; simpl in *; now subst.
Qed.

(** A question sent in the repair chat whose call fails: two steps of the
    page, after which the session state is what it was and the transcript
    has the question and the apology at its end. *)
Lemma chat_failure_steps tick tick' s data msg :
  shownResult (UI.app (ui s)) = Some data ->
  blank (ChatPanel.input (UI.chat (ui s))) = false ->
  ChatPanel.isChatLoading (UI.chat (ui s)) = false ->
  exists s1 s2,
    step tick s SendChat = Some (s1, [])
    /\ step tick' s1 (Settle (List.length (pending s)) (Reply (Threw msg)))
       = Some (s2, [])
    /\ UI.app (ui s2) = UI.app (ui s)
    /\ ChatPanel.chatHistory (UI.chat (ui s2))
       = (ChatPanel.chatHistory (UI.chat (ui s))
          ++ [ChatMessage.mk user (ChatPanel.input (UI.chat (ui s)));
              ChatMessage.mk model Chats.REPAIR_APOLOGY])%list
    /\ ChatPanel.isChatLoading (UI.chat (ui s2)) = false
    /\ pending s2 = pending s.
Proof.
  intros D B L. destruct s as [u pend]. cbn [ui pending] in *.
  assert (S1 : exists k,
             step tick (Build_Sys u pend) SendChat
             = Some (Build_Sys
                       (UI.mk (UI.app u) (UI.uploadGen u) (UI.upload u) (UI.chatGen u)
                          (ChatPanel.mk
                             (ChatPanel.chatHistory (UI.chat u)
                              ++ [ChatMessage.mk user (ChatPanel.input (UI.chat u))])
                             "" true)
                          (UI.support u))
                       (pend ++ [(ChatResponse data (ChatPanel.chatHistory (UI.chat u))
                                    (ChatPanel.input (UI.chat u)), OnText k)]), [])
             /\ k (Threw msg)
                = (UI.onChat (UI.chatGen u)
                     (ChatPanel.setChatHistory
                        (Chats.append (ChatMessage.mk model Chats.REPAIR_APOLOGY)))
                   >> UI.onChat (UI.chatGen u) (ChatPanel.setIsChatLoading false)
                   >> Return)%proc).
  { unfold step, dispatch. cbn [ui pending]. rewrite D.
    unfold Chats.handleSendChat. rewrite B, L. cbn [orb].
    eexists. split.
    - cbn [run state alerts started]. unfold UI.onChat. cbn.
      repeat (rewrite Nat.eqb_refl; cbn).
      rewrite rerender_same_app by reflexivity. reflexivity.
    - reflexivity. }
  destruct S1 as (k & S1 & K).
  eexists. eexists. split; [exact S1|].
  unfold step, dispatch. cbn [ui pending].
  rewrite nth_error_last. cbn [resume]. rewrite K, remove_nth_last.
  cbn [run state alerts started]. unfold UI.onChat. cbn.
  repeat (rewrite Nat.eqb_refl; cbn).
  rewrite rerender_same_app by reflexivity. rewrite app_nil_r.
  split; [reflexivity|]. cbn. unfold Chats.append. rewrite <- app_assoc.
  repeat split.
Qed.

(** *** Two sessions *)

(** Capture of a 2 MB photo, one item detected and selected, diagnosis: the
    page presents the stamped result, and the history holds it alone. *)
Example faucet_session :
  let s := run_trace faucet_trace in
  exec initial faucet_trace = Some s
  /\ status (UI.app (ui s)) = SUCCESS
  /\ result (UI.app (ui s)) = Some stored_analysis
  /\ history (UI.app (ui s)) = [stored_analysis]
  /\ detectedItems (UI.app (ui s)) = [faucet]
  /\ List.length (pending s) = 0.
Proof. vm_compute. repeat split. Qed.

(** Both sessions draw fresh identifiers. *)
Example sessions_are_fresh :
  fresh_run initial faucet_trace /\ fresh_run initial stale_result_trace.
Proof.
  split; vm_compute; repeat split;
    repeat match goal with
      | |- _ -> False => intros H
      | H : False |- _ => destruct H
      | H : _ \/ _ |- _ => destruct H
      | H : Some _ = Some _ |- _ => discriminate H
      end.
Qed.

(** C3, as stated, fails: in the state [stale_result_trace] leads to, the
    cross on the preview is offered and clearing keeps the result that a
    reset drops. *)
Lemma clear_keeps_stale_result :
  let s := run_trace stale_result_trace in
  exec initial stale_result_trace = Some s
  /\ (exists cleared reset,
        step late s ClickClear = Some (cleared, [])
        /\ step late s ClickReset = Some (reset, [])
        /\ result (UI.app (ui cleared)) = Some stored_analysis
        /\ result (UI.app (ui reset)) = None)
  /\ ~ clear_like_reset s.
Proof.
  assert (E : exec initial stale_result_trace
              = Some (run_trace stale_result_trace)) by (vm_compute; reflexivity).
  cbv zeta. split; [exact E|].
  assert (C : exists cleared,
             step late (run_trace stale_result_trace) ClickClear = Some (cleared, [])
             /\ result (UI.app (ui cleared)) = Some stored_analysis).
  { eexists. split; vm_compute; reflexivity. }
  assert (R : exists reset,
             step late (run_trace stale_result_trace) ClickReset = Some (reset, [])
             /\ result (UI.app (ui reset)) = None).
  { eexists. split; vm_compute; reflexivity. }
  destruct C as (cleared & SC & RC). destruct R as (reset & SR & RR).
  split.
  - exists cleared, reset. repeat split; assumption.
  - intros H. specialize (H late cleared reset [] [] SC SR).
    rewrite H in RC. rewrite RC in RR. discriminate.
Qed.

Lemma history_round_trip_witness :
  exists i shown,
    nth_error
      (history (UI.app (ui (run_trace (faucet_trace ++ [(late, ClickReset)]))))) i
    = Some stored_analysis
    /\ exec (run_trace (faucet_trace ++ [(late, ClickReset)]))
         [(late, OpenSidebar); (late, ClickHistory i)] = Some shown
    /\ result (UI.app (ui shown)) = Some stored_analysis
    /\ status (UI.app (ui shown)) = SUCCESS
    /\ history (UI.app (ui shown))
       = history (UI.app (ui (run_trace (faucet_trace ++ [(late, ClickReset)])))).
Proof.
  apply (history_round_trip (run_trace faucet_trace)
           (run_trace (faucet_trace ++ [(late, ClickReset)]))
           [(late, ClickReset)] stored_analysis late late).
  - exists faucet_trace. vm_compute. reflexivity.
  - vm_compute. left. reflexivity.
  - vm_compute. reflexivity.
Defined.

End MachineFacts.

(** ** The inline markup *)

Module MarkupFacts.

Import Json Markup MarkupSpec JsonFacts.

Lemma strip_prefix_app lit : forall s r,
  strip_prefix lit s = Some r -> s = lit ++ r.
Proof.
  induction lit as [|a lit IH]; simpl; intros s r H.
  - now inv H.
  - destruct s as [|b s]; [discriminate|].
    destruct (Ascii.eqb_spec a b); [|discriminate].
    subst. f_equal. now apply IH.
Qed.

Lemma strip_prefix_yes lit : forall r, strip_prefix lit (lit ++ r) = Some r.
Proof.
  induction lit as [|a lit IH]; simpl; intros r; [reflexivity|].
  now rewrite Ascii.eqb_refl.
Qed.

Lemma append_assoc (a b c : string) : (a ++ b) ++ c = a ++ b ++ c.
Proof. induction a; simpl; congruence. Qed.

Lemma append_nil_r (a : string) : a ++ "" = a.
Proof. induction a; simpl; congruence. Qed.

Lemma append_length (a b : string) :
  String.length (a ++ b) = String.length a + String.length b.
Proof. induction a; simpl; congruence. Qed.

Lemma lazy_until_app close : forall s run rest,
  lazy_until close s = Some (run, rest) -> s = run ++ close ++ rest.
Proof.
  induction s as [|c s IH]; intros run rest H.
  - simpl in H. destruct (strip_prefix close "") eqn:E; [|discriminate].
    inv H. now apply strip_prefix_app in E.
  - cbn [lazy_until] in H.
    destruct (strip_prefix close (String c s)) eqn:E.
    + inv H. now apply strip_prefix_app in E.
    + destruct (at_line_terminator (String c s)); [discriminate|].
      destruct (lazy_until close s) as [[run' rest']|] eqn:L; [|discriminate].
      inv H. simpl. f_equal. now apply IH.
Qed.

Lemma delimited_app open close s tok rest :
  delimited open close s = Some (tok, rest) ->
  s = tok ++ rest /\ String.length open <= String.length tok.
Proof.
  unfold delimited.
  destruct (strip_prefix open s) as [inner|] eqn:O; [|discriminate].
  destruct (lazy_until close inner) as [[run r]|] eqn:L; [|discriminate].
  intros H; inv H. apply strip_prefix_app in O. apply lazy_until_app in L.
  subst. split.
  - now rewrite !append_assoc.
  - rewrite append_length. lia.
Qed.

Lemma token_at_app s tok rest :
  token_at s = Some (tok, rest) ->
  s = tok ++ rest /\ 0 < String.length tok.
Proof.
  unfold token_at, or_try.
  destruct (strip_prefix LF s) as [r|] eqn:N; simpl.
  { intros H; inv H. apply strip_prefix_app in N. split; [exact N | simpl; lia]. }
  destruct (delimited "**" "**" s) as [[t r]|] eqn:B.
  { intros H; inv H. apply delimited_app in B. simpl in B. split; [tauto | lia]. }
  destruct (delimited "*" "*" s) as [[t r]|] eqn:I.
  { intros H; inv H. apply delimited_app in I. simpl in I. split; [tauto | lia]. }
  intros H. apply delimited_app in H. simpl in H. split; [tauto | lia].
Qed.

Lemma concat_cons2 (a b : string) l :
  String.concat "" (a :: b :: l) = a ++ String.concat "" (b :: l).
Proof. reflexivity. Qed.

Lemma split_tokens_concat fuel : forall seg s parts,
  split_tokens fuel seg s = Some parts -> String.concat "" parts = seg ++ s.
Proof.
  induction fuel as [|fuel IH]; intros seg s parts H; [discriminate|].
  cbn [split_tokens] in H. destruct s as [|c s].
  - inv H. simpl. now rewrite append_nil_r.
  - destruct (token_at (String c s)) as [[tok rest]|] eqn:T.
    + destruct (split_tokens fuel "" rest) as [l|] eqn:R; [|discriminate].
      inv H. apply IH in R. apply token_at_app in T. destruct T as [E _].
      destruct l as [|x l].
      * simpl in R. destruct rest; [|discriminate]. 
        rewrite concat_cons2. simpl. rewrite E. now rewrite !append_nil_r.
      * rewrite !concat_cons2. rewrite R. simpl. now rewrite E.
    + apply IH in H. rewrite H. rewrite append_assoc. reflexivity.
Qed.

Lemma split_tokens_fuel fuel : forall seg s,
  String.length s < fuel -> split_tokens fuel seg s <> None.
Proof.
  induction fuel as [|fuel IH]; intros seg s L; [lia|].
  cbn [split_tokens]. destruct s as [|c s]; [discriminate|].
  destruct (token_at (String c s)) as [[tok rest]|] eqn:T.
  - apply token_at_app in T. destruct T as [E P].
    assert (String.length rest < fuel).
    { apply (f_equal String.length) in E. rewrite append_length in E. simpl in *. lia. }
    specialize (IH "" rest H). destruct (split_tokens fuel "" rest); congruence.
  - apply IH. simpl in L. lia.
Qed.

(** More fuel changes nothing. *)
Lemma split_tokens_more fuel : forall fuel' seg s parts,
  split_tokens fuel seg s = Some parts -> fuel <= fuel' ->
  split_tokens fuel' seg s = Some parts.
Proof.
  induction fuel as [|fuel IH]; intros fuel' seg s parts H L; [discriminate|].
  destruct fuel' as [|fuel']; [lia|].
  cbn [split_tokens] in *. destruct s as [|c s]; [exact H|].
  destruct (token_at (String c s)) as [[tok rest]|].
  - destruct (split_tokens fuel "" rest) as [l|] eqn:R; [|discriminate].
    rewrite (IH fuel' "" rest l R) by lia. exact H.
  - apply IH; [exact H | lia].
Qed.

Lemma split_spec text :
  split_tokens (S (String.length text)) "" text = Some (split text).
Proof.
  unfold split.
  pose proof (split_tokens_fuel (S (String.length text)) "" text) as F.
  destruct (split_tokens (S (String.length text)) "" text); [reflexivity|].
  exfalso. apply F; [lia | reflexivity].
Qed.

(** X1: the split loses nothing: its parts, put together, are the text. *)
Theorem split_is_lossless (text : string) :
  String.concat "" (split text) = text.
Proof.
  apply (split_tokens_concat (S (String.length text)) "" text). apply split_spec.
Qed.

(** *** Plain text *)

Lemma plain_cons c s :
  plain (String c s) = true ->
  Ascii.eqb c (ascii_of_nat 10) = false /\ Ascii.eqb c "*" = false
  /\ Ascii.eqb c "[" = false /\ plain s = true.
Proof.
  unfold plain. simpl. rewrite !andb_true_iff, !negb_true_iff. tauto.
Qed.

Lemma eqb_sym_false (a b : ascii) : Ascii.eqb a b = false -> Ascii.eqb b a = false.
Proof. rewrite Ascii.eqb_sym. auto. Qed.

Lemma plain_token_at c s : plain (String c s) = true -> token_at (String c s) = None.
Proof.
  intros P. apply plain_cons in P. destruct P as (N & S & B & _).
  apply eqb_sym_false in N, S, B.
  unfold token_at, delimited, LF.
  cbn [strip_prefix option_map or_try]. now rewrite N, S, B.
Qed.

Lemma split_tokens_plain pre : forall fuel seg s parts,
  plain pre = true ->
  split_tokens fuel (seg ++ pre) s = Some parts ->
  split_tokens (String.length pre + fuel) seg (pre ++ s) = Some parts.
Proof.
  induction pre as [|c pre IH]; intros fuel seg s parts P H.
  - simpl. now rewrite append_nil_r in H.
  - cbn [String.length Nat.add append split_tokens].
    pose proof (plain_token_at c pre P) as T.
    assert (T' : token_at (String c (pre ++ s)) = None).
    { apply plain_cons in P. destruct P as (N & S & B & _).
      apply eqb_sym_false in N, S, B.
      unfold token_at, delimited, LF.
      cbn [strip_prefix option_map or_try]. now rewrite N, S, B. }
    rewrite T'. apply IH; [apply plain_cons in P; tauto|].
    now rewrite append_assoc.
Qed.

Lemma plain_element s : plain s = true -> element s = span s.
Proof.
  destruct s as [|c s]; [reflexivity|].
  intros P. apply plain_cons in P. destruct P as (N & S & B & _).
  unfold element, startsWith, LF.
  cbn [String.eqb String.prefix]. rewrite N.
  destruct (ascii_dec "*" c) as [<-|_]; [discriminate S|].
  destruct (ascii_dec "[" c) as [<-|_]; [discriminate B|].
  reflexivity.
Qed.

(** X2: a text without line feed, star and opening bracket is rendered as it
    is, in one span. *)
Theorem plain_text_is_one_span (text : string) :
  plain text = true -> text <> "" ->
  formatText text = Some [span text].
Proof.
  intros P N. unfold formatText, nonempty.
  destruct (String.eqb_spec text ""); [contradiction|]. simpl.
  assert (S : split text = [text]).
  { unfold split.
    assert (H : split_tokens (String.length text + 1) "" (text ++ "") = Some [text]).
    { apply split_tokens_plain; [exact P | reflexivity]. }
    rewrite append_nil_r in H.
    rewrite (split_tokens_more _ (S (String.length text)) _ _ _ H) by lia.
    reflexivity. }
  rewrite S. simpl. now rewrite plain_element.
Qed.

Lemma plain_text_is_one_span_witness :
  formatText "Tighten the nut by hand." = Some [span "Tighten the nut by hand."].
Proof.
  apply (plain_text_is_one_span "Tighten the nut by hand."); [reflexivity | discriminate].
Defined.

(** *** Tokens *)

Lemma at_line_terminator_ahead c x d rest :
  nat_of_ascii d < 128 ->
  at_line_terminator (String c (x ++ String d rest)) = at_line_terminator (String c x).
Proof.
  intros D. unfold at_line_terminator.
  destruct x as [|c2 [|c3 x]]; simpl; try reflexivity.
  - replace (Nat.eqb (nat_of_ascii d) 128) with false
      by (symmetry; apply Nat.eqb_neq; lia).
    now destruct rest.
  - replace (Nat.eqb (nat_of_ascii d) 168) with false
      by (symmetry; apply Nat.eqb_neq; lia).
    replace (Nat.eqb (nat_of_ascii d) 169) with false
      by (symmetry; apply Nat.eqb_neq; lia).
    simpl. now rewrite !andb_false_r.
Qed.

Lemma lazy_until_found d close x : forall post,
  nat_of_ascii d < 128 ->
  free_of d x = true -> one_line x = true ->
  lazy_until (String d close) (x ++ String d close ++ post) = Some (x, post).
Proof.
  induction x as [|c x IH]; intros post D F O.
  - pose proof (strip_prefix_yes (String d close) post) as Y.
    cbn [append] in Y. cbn [append lazy_until]. now rewrite Y.
  - cbn [append lazy_until].
    simpl in F. apply andb_true_iff in F. destruct F as [Fc F].
    apply negb_true_iff in Fc.
    cbn [one_line] in O. apply andb_true_iff in O. destruct O as [Oc O].
    apply negb_true_iff in Oc.
    cbn [strip_prefix]. rewrite Ascii.eqb_sym, Fc.
    change (String d close ++ post) with (String d (close ++ post)).
    rewrite at_line_terminator_ahead by exact D. rewrite Oc.
    change (String d (close ++ post)) with (String d close ++ post).
    now rewrite IH.
Qed.

Lemma low_ascii_star : nat_of_ascii "*" < 128.
Proof. apply Nat.ltb_lt. reflexivity. Qed.

Lemma low_ascii_bracket : nat_of_ascii "]" < 128.
Proof. apply Nat.ltb_lt. reflexivity. Qed.

Lemma strip_prefix_differs a lit b s :
  Ascii.eqb a b = false -> strip_prefix (String a lit) (String b s) = None.
Proof. intros E. cbn [strip_prefix]. now rewrite E. Qed.

Lemma delimited_found open d close x post :
  nat_of_ascii d < 128 -> free_of d x = true -> one_line x = true ->
  delimited open (String d close) (open ++ x ++ String d close ++ post)
  = Some (open ++ x ++ String d close, post).
Proof.
  intros D F O. unfold delimited.
  rewrite strip_prefix_yes, lazy_until_found; trivial.
Qed.

Lemma delimited_differs a lit close b s :
  Ascii.eqb a b = false -> delimited (String a lit) close (String b s) = None.
Proof. intros E. unfold delimited. now rewrite strip_prefix_differs. Qed.

Lemma token_at_head tok node post :
  token tok node -> token_at (tok ++ post) = Some (tok, post).
Proof.
  intros [ | x F O | x N F O | x F O ].
  - reflexivity.
  - rewrite !append_assoc. unfold token_at, LF.
    change ("**" ++ x ++ "**" ++ post) with (String "*" ("*" ++ x ++ "**" ++ post)) at 1.
    rewrite strip_prefix_differs by reflexivity. cbn [option_map or_try].
    rewrite (delimited_found "**" "*" "*" x post low_ascii_star F O).
    reflexivity.
  - destruct x as [|c x]; [contradiction|].
    pose proof F as F'. simpl in F'. apply andb_true_iff in F'.
    destruct F' as [Fc _]. apply negb_true_iff in Fc.
    rewrite !append_assoc. unfold token_at, LF.
    change ("*" ++ String c x ++ "*" ++ post)
      with (String "*" (String c x ++ "*" ++ post)) at 1.
    rewrite strip_prefix_differs by reflexivity. cbn [option_map or_try].
    replace (delimited "**" "**" ("*" ++ String c x ++ "*" ++ post)) with (@None (string * string)).
    2:{ unfold delimited. cbn [append strip_prefix].
        change (Ascii.eqb "*" "*") with true. cbv iota.
        now rewrite (Ascii.eqb_sym "*" c), Fc. }
    cbn [or_try].
    rewrite (delimited_found "*" "*" "" (String c x) post low_ascii_star F O).
    reflexivity.
  - rewrite !append_assoc. unfold token_at, LF.
    change ("[" ++ x ++ "]" ++ post) with (String "[" (x ++ "]" ++ post)) at 1 2 3.
    rewrite strip_prefix_differs by reflexivity. cbn [option_map or_try].
    rewrite !delimited_differs by reflexivity. cbn [or_try].
    change (String "[" (x ++ "]" ++ post)) with ("[" ++ x ++ "]" ++ post).
    rewrite (delimited_found "[" "]" "" x post low_ascii_bracket F O).
    reflexivity.
Qed.

Lemma substring_skip a : forall n s,
  String.substring (String.length a) n (a ++ s) = String.substring 0 n s.
Proof. induction a; simpl; auto. Qed.

Lemma substring_head x : forall r,
  String.substring 0 (String.length x) (x ++ r) = x.
Proof.
  induction x as [|c x IH]; intros r; simpl.
  - now destruct r.
  - now rewrite IH.
Qed.

Lemma endsWith_app a p : endsWith p (a ++ p) = true.
Proof.
  unfold endsWith. rewrite append_length.
  replace (String.length a + String.length p - String.length p)
    with (String.length a) by lia.
  rewrite substring_skip.
  pose proof (substring_head p "") as H. rewrite append_nil_r in H.
  rewrite H, String.eqb_refl.
  replace (Nat.leb (String.length p) (String.length a + String.length p)) with true
    by (symmetry; apply Nat.leb_le; lia).
  reflexivity.
Qed.

Lemma endsWith_token o x c : endsWith c (o ++ x ++ c) = true.
Proof. rewrite <- append_assoc. apply endsWith_app. Qed.

Lemma slice_middle o x c :
  slice (String.length o) (String.length c) (o ++ x ++ c) = x.
Proof.
  unfold slice. rewrite !append_length.
  replace (String.length o + (String.length x + String.length c)
           - String.length c - String.length o) with (String.length x) by lia.
  rewrite substring_skip. apply substring_head.
Qed.

Lemma prefix_app p : forall s, String.prefix p (p ++ s) = true.
Proof.
  induction p as [|a p IH]; intros s; cbn [append String.prefix].
  - now destruct s.
  - destruct (ascii_dec a a); [apply IH | contradiction].
Qed.

Lemma prefix_differs a q b p s :
  a <> b -> String.prefix (String a q) (String b p ++ s) = false.
Proof.
  intros N. cbn [append String.prefix].
  destruct (ascii_dec a b); [contradiction | reflexivity].
Qed.

Lemma eqb_differs a p s b q :
  Ascii.eqb a b = false -> String.eqb (String a p ++ s) (String b q) = false.
Proof. intros E. cbn [append String.eqb]. now rewrite E. Qed.

Lemma token_element tok node : token tok node -> element tok = node.
Proof.
  intros [ | x F O | x N F O | x F O ].
  - reflexivity.
  - unfold element, startsWith, LF.
    rewrite eqb_differs by reflexivity.
    rewrite prefix_app, endsWith_token.
    cbn [andb]. f_equal. apply (slice_middle "**" x "**").
  - destruct x as [|c x]; [contradiction|].
    pose proof F as F'. simpl in F'. apply andb_true_iff in F'.
    destruct F' as [Fc _]. apply negb_true_iff in Fc.
    unfold element, startsWith, LF.
    rewrite eqb_differs by reflexivity.
    replace (String.prefix "**" ("*" ++ String c x ++ "*")) with false.
    2:{ cbn [append String.prefix].
        destruct (ascii_dec "*" "*"); [|reflexivity].
        destruct (ascii_dec "*" c) as [<-|_]; [discriminate Fc | reflexivity]. }
    rewrite prefix_app, endsWith_token.
    cbn [andb]. f_equal. apply (slice_middle "*" (String c x) "*").
  - unfold element, startsWith, LF.
    rewrite eqb_differs by reflexivity.
    rewrite !prefix_differs by discriminate.
    rewrite prefix_app, endsWith_token.
    cbn [andb]. f_equal. apply (slice_middle "[" x "]").
Qed.

Lemma split_tokens_token fuel seg s tok rest parts :
  token_at s = Some (tok, rest) ->
  split_tokens fuel "" rest = Some parts ->
  split_tokens (S fuel) seg s = Some (seg :: tok :: parts).
Proof.
  intros T R. destruct s as [|c s].
  - apply token_at_app in T. destruct T as [E L].
    destruct tok; [simpl in L; lia | discriminate].
  - cbn [split_tokens]. now rewrite T, R.
Qed.

(** X3: a well-formed token that follows plain text is recognised whatever
    comes after it: the split gives the plain text, the token, and the split
    of the rest, and the token becomes its element. *)
Theorem token_is_recognised (pre tok post : string) (node : Node) :
  plain pre = true -> token tok node ->
  split (pre ++ tok ++ post) = pre :: tok :: split post
  /\ element pre = span pre
  /\ element tok = node.
Proof.
  intros P T. split; [|split; [now apply plain_element | now apply token_element]].
  assert (H : split_tokens (S (S (String.length post))) ("" ++ pre) (tok ++ post)
              = Some (pre :: tok :: split post)).
  { cbn [append].
    apply (split_tokens_token _ _ _ tok post);
      [now apply (token_at_head tok node) | apply split_spec]. }
  apply split_tokens_plain in H; [|exact P].
  unfold split.
  rewrite (split_tokens_more _ (S (String.length (pre ++ tok ++ post))) _ _ _ H).
  - reflexivity.
  - rewrite !append_length. 
    assert (0 < String.length tok).
    { apply (token_at_head tok node "") in T. apply token_at_app in T. tauto. }
    lia.
Qed.

Lemma token_is_recognised_witness :
  split ("Look for the " ++ ("[" ++ "Red Wire" ++ "]") ++ " first.")
  = "Look for the " :: ("[" ++ "Red Wire" ++ "]") :: split " first."
  /\ element "Look for the " = span "Look for the "
  /\ element ("[" ++ "Red Wire" ++ "]") = highlight "Red Wire".
Proof.
  apply (token_is_recognised "Look for the " ("[" ++ "Red Wire" ++ "]") " first."
           (highlight "Red Wire")).
  - reflexivity.
  - apply token_highlight; reflexivity.
Defined.

Lemma lazy_until_absent x : free_of "*" x = true -> lazy_until "**" x = None.
Proof.
  induction x as [|c x IH]; intros F; [reflexivity|].
  cbn [free_of] in F. apply andb_true_iff in F. destruct F as [Fc F].
  apply negb_true_iff in Fc. cbn [lazy_until].
  rewrite strip_prefix_differs by now apply eqb_sym_false.
  destruct (at_line_terminator (String c x)); [reflexivity|].
  now rewrite (IH F).
Qed.

Lemma token_at_unclosed x :
  free_of "*" x = true -> token_at ("**" ++ x) = Some ("**", x).
Proof.
  intros F. unfold token_at, LF.
  change ("**" ++ x) with (String "*" (String "*" x)) at 1.
  rewrite strip_prefix_differs by reflexivity. cbn [option_map or_try].
  unfold delimited at 1. rewrite (strip_prefix_yes "**" x), (lazy_until_absent x F).
  cbn [or_try]. unfold delimited at 1.
  change ("**" ++ x) with ("*" ++ ("*" ++ x)).
  rewrite (strip_prefix_yes "*" ("*" ++ x)).
  change ("*" ++ x) with ("*" ++ "" ++ x) at 1.
  assert (L : lazy_until "*" ("*" ++ x) = Some ("", x)).
  { destruct x; reflexivity. }
  cbn [append] in L |- *. rewrite L. reflexivity.
Qed.

(** X4: a bold marker that is never closed is not shown: after plain text, two
    stars with no star after them become an empty bold element, and what
    follows is rendered as if the marker were not there. *)
Theorem unclosed_bold_leaves_an_empty_element (pre x : string) :
  plain pre = true -> free_of "*" x = true ->
  formatText (pre ++ "**" ++ x)
  = Some (span pre :: strong "" :: map element (split x)).
Proof.
  intros P F.
  assert (H : split_tokens (S (S (String.length x))) ("" ++ pre) ("**" ++ x)
              = Some (pre :: "**" :: split x)).
  { cbn [append].
    apply (split_tokens_token _ _ _ "**" x);
      [now apply token_at_unclosed | apply split_spec]. }
  apply split_tokens_plain in H; [|exact P].
  assert (S : split (pre ++ "**" ++ x) = pre :: "**" :: split x).
  { unfold split.
    rewrite (split_tokens_more _ (S (String.length (pre ++ "**" ++ x))) _ _ _ H);
      [reflexivity|].
    rewrite !append_length. cbn [String.length]. lia. }
  unfold formatText. rewrite S.
  replace (nonempty (pre ++ "**" ++ x)) with true.
  - cbn [map]. rewrite (plain_element pre P). reflexivity.
  - unfold nonempty. destruct pre; reflexivity.
Qed.

Lemma unclosed_bold_leaves_an_empty_element_witness :
  formatText "Turn the **valve slowly."
  = Some [span "Turn the "; strong ""; span "valve slowly."].
Proof.
  apply (unclosed_bold_leaves_an_empty_element "Turn the " "valve slowly.");
    reflexivity.
Defined.

Lemma free_of_app c a b : free_of c (a ++ b) = free_of c a && free_of c b.
Proof.
  induction a as [|x a IH]; cbn [append free_of]; [reflexivity|].
  now rewrite IH, andb_assoc.
Qed.

Lemma lazy_until_line_end a rest :
  free_of "]" a = true -> lazy_until "]" (a ++ LF ++ rest) = None.
Proof.
  induction a as [|c a IH]; intros F.
  - reflexivity.
  - cbn [free_of] in F. apply andb_true_iff in F. destruct F as [Fc F].
    apply negb_true_iff in Fc. cbn [append lazy_until].
    rewrite strip_prefix_differs by now apply eqb_sym_false.
    destruct (at_line_terminator (String c (a ++ LF ++ rest))); [reflexivity|].
    now rewrite (IH F).
Qed.

Lemma token_at_open_bracket a rest :
  free_of "]" a = true -> token_at ("[" ++ a ++ LF ++ rest) = None.
Proof.
  intros F. unfold token_at, LF.
  change ("[" ++ a ++ String (ascii_of_nat 10) "" ++ rest)
    with (String "[" (a ++ String (ascii_of_nat 10) "" ++ rest)) at 1 2 3.
  rewrite strip_prefix_differs by reflexivity. cbn [option_map or_try].
  rewrite !delimited_differs by reflexivity. cbn [or_try].
  unfold delimited.
  change (String "[" (a ++ String (ascii_of_nat 10) "" ++ rest))
    with ("[" ++ (a ++ String (ascii_of_nat 10) "" ++ rest)).
  rewrite (strip_prefix_yes "[" (a ++ String (ascii_of_nat 10) "" ++ rest)).
  pose proof (lazy_until_line_end a rest F) as L. unfold LF in L.
  now rewrite L.
Qed.

Lemma split_tokens_char fuel seg c s parts :
  token_at (String c s) = None ->
  split_tokens fuel (seg ++ String c "") s = Some parts ->
  split_tokens (S fuel) seg (String c s) = Some parts.
Proof. intros T H. cbn [split_tokens]. now rewrite T. Qed.

Lemma last_char_free c : forall s,
  free_of c s = true ->
  String.eqb (String.substring (String.length s - 1) 1 s) (String c "") = false.
Proof.
  induction s as [|x s IH]; intros F; [reflexivity|].
  cbn [free_of] in F. apply andb_true_iff in F. destruct F as [Fx F].
  apply negb_true_iff in Fx.
  destruct s as [|y s].
  - cbn. now rewrite Fx.
  - specialize (IH F).
    cbn [String.length Nat.sub String.substring] in IH |- *.
    now rewrite Nat.sub_0_r in *.
Qed.

Lemma endsWith_free c s : free_of c s = true -> endsWith (String c "") s = false.
Proof.
  intros F. unfold endsWith. cbn [String.length].
  rewrite (last_char_free c s F). apply andb_false_r.
Qed.

(** X5: a highlight never spans a line break: after plain text, an opening
    bracket whose line ends before any closing bracket is not a token; the
    text up to the line feed is rendered as it is, bracket included, in one
    span, and the line feed and what follows are treated as usual. *)
Theorem highlight_never_spans_a_line (pre a rest : string) :
  plain pre = true -> free_of "]" pre = true ->
  plain a = true -> free_of "]" a = true ->
  split (pre ++ "[" ++ a ++ LF ++ rest) = (pre ++ "[" ++ a) :: LF :: split rest
  /\ element (pre ++ "[" ++ a) = span (pre ++ "[" ++ a).
Proof.
  intros P Fp A Fa. split.
  - assert (H : split_tokens (S (S (String.length rest))) ((("" ++ pre) ++ "[") ++ a)
                  (LF ++ rest)
                = Some ((pre ++ "[" ++ a) :: LF :: split rest)).
    { cbn [append]. rewrite append_assoc.
      apply (split_tokens_token _ _ _ LF rest);
        [apply (token_at_head LF br rest); constructor | apply split_spec]. }
    apply split_tokens_plain in H; [|exact A].
    apply split_tokens_char in H; [|now apply token_at_open_bracket].
    apply split_tokens_plain in H; [|exact P].
    unfold split.
    change ("[" ++ a ++ LF ++ rest) with (String "[" (a ++ LF ++ rest)).
    rewrite (split_tokens_more _ _ _ _ _ H); [reflexivity|].
    rewrite !append_length. cbn [String.length append]. rewrite !append_length.
    unfold LF. cbn [String.length]. lia.
  - assert (E : endsWith "]" (pre ++ "[" ++ a) = false).
    { apply endsWith_free. rewrite !free_of_app, Fp, Fa. reflexivity. }
    unfold element, startsWith, LF. rewrite E, andb_false_r.
    destruct pre as [|c pre].
    + cbn [append String.eqb String.prefix].
      assert (Ascii.eqb "[" (ascii_of_nat 10) = false) as -> by reflexivity.
      destruct (ascii_dec "*" "[") as [X|_]; [discriminate X | reflexivity].
    + apply plain_cons in P. destruct P as (N & S & B & _).
      cbn [append String.eqb String.prefix]. rewrite N.
      destruct (ascii_dec "*" c) as [<-|_]; [discriminate S|].
      reflexivity.
Qed.

Lemma highlight_never_spans_a_line_witness :
  split ("Check the " ++ "[" ++ "red" ++ LF ++ "wire] first.")
  = ("Check the " ++ "[" ++ "red") :: LF :: split "wire] first."
  /\ element ("Check the " ++ "[" ++ "red") = span ("Check the " ++ "[" ++ "red").
Proof.
  apply (highlight_never_spans_a_line "Check the " "red" "wire] first.");
    reflexivity.
Defined.

End MarkupFacts.

(** ** The gateway, further *)

Module GatewayMore.

Import Json Gateway GatewaySpec JsonFacts.

Lemma nonempty_true s : nonempty s = true <-> s <> "".
Proof.
  unfold nonempty. destruct (String.eqb_spec s ""); simpl; split;
    congruence || discriminate || auto.
Qed.

Lemma require_key_cases env msg :
  (truthy_opt (API_KEY env) = false /\ require_key env msg = Threw msg)
  \/ (exists k, API_KEY env = Some k /\ nonempty k = true
                /\ require_key env msg = Returned k).
Proof.
  unfold require_key, truthy_opt. destruct (API_KEY env) as [k|]; [|now left].
  destruct (nonempty k) eqn:N; [right | now left].
  exists k. auto.
Qed.

(** X6: [analyzeMedia] returns a value exactly when the service answered its
    request with a non-empty text that is JSON, and the value is what the
    text parses to: no default stands in for a missing or malformed
    answer. *)
Theorem analyzeMedia_returns_what_it_parsed
    (env : Env) (b m : string) (focus : option string) (v : JsValue) :
  analyzeMedia env b m focus = Returned v <->
  exists apiKey response t,
    require_key env "API Key not found in environment variables" = Returned apiKey
    /\ generateContent (connect env apiKey) (analysis_request b m focus)
       = Returned response
    /\ Response.text response = Some t
    /\ t <> ""
    /\ JSON_parse t = Some v.
Proof.
  unfold analyzeMedia. split.
  - destruct (require_key env _) as [k|] eqn:K; simpl; [|discriminate].
    destruct (generateContent _ _) as [r|] eqn:G; simpl; [|discriminate].
    destruct (Response.text r) as [t|] eqn:T; [|discriminate].
    destruct (nonempty t) eqn:N; [|discriminate].
    unfold parse_or_throw. destruct (JSON_parse t) as [v'|] eqn:P; [|discriminate].
    intros H; inv H. exists k, r, t. repeat split; trivial.
    now apply nonempty_true.
  - intros (k & r & t & K & G & T & N & P).
    rewrite K. simpl. rewrite G. simpl. rewrite T.
    apply nonempty_true in N. rewrite N. unfold parse_or_throw. now rewrite P.
Qed.

(** X7: with no credential in the environment (absent or empty), each of the
    four operations fails with its own message, whatever the service would
    have answered. *)
Theorem missing_key_fails_every_operation
    (env : Env) (b m : string) (focus : option string)
    (ctx : FixItResponse.t) (history : list ChatMessage.t) (msg : string) :
  truthy_opt (API_KEY env) = false ->
  detectItems env b m = Threw "API Key not found"
  /\ analyzeMedia env b m focus = Threw "API Key not found in environment variables"
  /\ getChatResponse env ctx history msg = Threw "API Key not found"
  /\ getSupportChatResponse env history msg = Threw "API Key not found".
Proof.
  intros F.
  assert (K : forall text, require_key env text = Threw text).
  { intros text. destruct (require_key_cases env text) as [[_ E] | (k & E & N & _)];
      [exact E|]. rewrite E in F. simpl in F. congruence. }
  unfold detectItems, analyzeMedia, getChatResponse, getSupportChatResponse.
  rewrite !K. repeat split.
Qed.

Lemma missing_key_fails_every_operation_witness :
  detectItems GatewayCases.no_key "QUJD" "image/jpeg" = Threw "API Key not found"
  /\ analyzeMedia GatewayCases.no_key "QUJD" "image/jpeg" None
     = Threw "API Key not found in environment variables"
  /\ getChatResponse GatewayCases.no_key MachineSpec.stored_analysis [] "Which washer?"
     = Threw "API Key not found"
  /\ getSupportChatResponse GatewayCases.no_key [] "Which washer?" = Threw "API Key not found".
Proof.
  apply (missing_key_fails_every_operation GatewayCases.no_key "QUJD" "image/jpeg" None
           MachineSpec.stored_analysis [] "Which washer?").
  reflexivity.
Defined.

Lemma focus_nonempty name description : nonempty (name ++ " - " ++ description) = true.
Proof. destruct name; reflexivity. Qed.

(** X8: the diagnosis of a selected item always goes out with the focused
    prompt, which quotes [name - description], even when both are empty;
    without an item it goes out with the generic prompt, and the two prompts
    differ. *)
Theorem selected_item_focuses_the_prompt (item : DetectedItem.t) (b m : string) :
  let focus := DetectedItem.name item ++ " - " ++ DetectedItem.description item in
  Session.focus_of (Some item) = Some focus
  /\ GenerateContent.parts (analysis_request b m (Session.focus_of (Some item)))
     = [inlineData b m;
        text ("Analyze the image focusing specifically on this item: " ++ dq
              ++ focus ++ dq
              ++ ". Provide a detailed repair guide and annotations for this specific problem.")]
  /\ GenerateContent.parts (analysis_request b m (Session.focus_of None))
     = [inlineData b m; text "Analyze this and provide a repair guide with annotations."]
  /\ analysis_prompt (Session.focus_of (Some item))
     <> analysis_prompt (Session.focus_of None).
Proof.
  cbv zeta. unfold analysis_request, analysis_prompt. cbn [Session.focus_of GenerateContent.parts].
  rewrite focus_nonempty. repeat split. discriminate.
Qed.

(** What a chat gateway call returns is never the empty text. *)
Lemma chat_reply_nonempty env ctx history msg t :
  (getChatResponse env ctx history msg = Returned t -> t <> "")
  /\ (getSupportChatResponse env history msg = Returned t -> t <> "").
Proof.
  assert (O : forall o d, d <> "" -> or_else o d <> "").
  { intros [s|] d D; simpl; [|exact D].
    destruct (nonempty s) eqn:N; [now apply nonempty_true | exact D]. }
  unfold getChatResponse, getSupportChatResponse.
  destruct (require_key env _) as [k|]; simpl; [|split; discriminate].
  split.
  - destruct (sendMessage _ _ _) as [r|]; simpl; [|discriminate].
    intros H; inv H. apply O. discriminate.
  - destruct (sendMessage _ _ _) as [r|]; simpl; [|discriminate].
    intros H; inv H. apply O. discriminate.
Qed.

(** X9: whatever a chat call does (an answer, an answer without text, a
    failure, no credential), the turn that the send appends when the call
    settles is a [model] message that is not empty, put at the end of the
    transcript as it then is, and the loading flag is cleared.  The support
    chat does so in every state; the repair chat does so when the result
    view that sent the message is still mounted ([UI.chatGen u = gen]), and
    otherwise the settled call changes nothing. *)
Theorem chat_turn_is_never_empty
    (env : Env) (gen : nat) (data : FixItResponse.t)
    (render srender : ChatPanel.State) :
  blank (ChatPanel.input render) = false ->
  ChatPanel.isChatLoading render = false ->
  blank (ChatPanel.input srender) = false ->
  ChatPanel.isChatLoading srender = false ->
  (exists k,
      (forall tick u,
          started (run (Chats.handleSendChat gen data render) tick u)
          = [(ChatResponse data (ChatPanel.chatHistory render) (ChatPanel.input render),
              OnText k)])
      /\ forall tick u,
          let settled :=
            getChatResponse env data (ChatPanel.chatHistory render)
              (ChatPanel.input render) in
          let after := UI.chat (state (run (k settled) tick u)) in
          (UI.chatGen u = gen ->
           exists t,
             t <> ""
             /\ ChatPanel.chatHistory after
                = (ChatPanel.chatHistory (UI.chat u) ++ [ChatMessage.mk model t])%list
             /\ ChatPanel.isChatLoading after = false)
          /\ (UI.chatGen u <> gen -> state (run (k settled) tick u) = u))
  /\ (exists k,
      (forall tick u,
          started (run (Chats.handleSend srender) tick u)
          = [(SupportChatResponse (ChatPanel.chatHistory srender)
                (ChatPanel.input srender), OnText k)])
      /\ forall tick u,
          let settled :=
            getSupportChatResponse env (ChatPanel.chatHistory srender)
              (ChatPanel.input srender) in
          let after := UI.support (state (run (k settled) tick u)) in
          exists t,
            t <> ""
            /\ ChatPanel.chatHistory after
               = (ChatPanel.chatHistory (UI.support u) ++ [ChatMessage.mk model t])%list
            /\ ChatPanel.isChatLoading after = false).
Proof.
  intros B L SB SL. split.
  - unfold Chats.handleSendChat. rewrite B, L. cbn [orb]. eexists. split.
    + intros tick u. reflexivity.
    + intros tick u. cbv zeta. split.
      * intros G.
        destruct (getChatResponse env data _ _) as [t|msg] eqn:E;
          cbn [run state]; unfold UI.onChat; rewrite G, Nat.eqb_refl; cbn;
          rewrite Nat.eqb_refl; cbn.
        -- exists t. repeat split.
           exact (proj1 (chat_reply_nonempty env data (ChatPanel.chatHistory render)
                           (ChatPanel.input render) t) E).
        -- exists Chats.REPAIR_APOLOGY. repeat split. discriminate.
      * intros G. apply Nat.eqb_neq in G. rewrite Nat.eqb_sym in G.
        destruct (getChatResponse env data _ _) as [t|msg];
          cbn [run state]; unfold UI.onChat; rewrite G; now rewrite G.
  - unfold Chats.handleSend. rewrite SB, SL. cbn [orb]. eexists. split.
    + intros tick u. reflexivity.
    + intros tick u. cbv zeta.
      destruct (getSupportChatResponse env _ _) as [t|msg] eqn:E; cbn.
      * exists t. repeat split.
        exact (proj2 (chat_reply_nonempty env data (ChatPanel.chatHistory srender)
                        (ChatPanel.input srender) t) E).
      * exists Chats.SUPPORT_APOLOGY. repeat split. discriminate.
Qed.

Lemma chat_turn_is_never_empty_witness :
  (exists k : outcome string -> Proc,
      (forall tick u,
          started (run (Chats.handleSendChat 0 MachineSpec.stored_analysis
                          (MachineSpec.asking "Which washer?")) tick u)
          = [(ChatResponse MachineSpec.stored_analysis [] "Which washer?", OnText k)])
      /\ forall tick u,
          UI.chatGen u = 0 ->
          exists t,
            t <> ""
            /\ ChatPanel.chatHistory
                 (UI.chat (state (run (k (getChatResponse GatewayCases.no_key
                                           MachineSpec.stored_analysis []
                                           "Which washer?")) tick u)))
               = (ChatPanel.chatHistory (UI.chat u) ++ [ChatMessage.mk model t])%list)
  /\ (exists k : outcome string -> Proc,
      forall tick u,
        started (run (Chats.handleSend (MachineSpec.asking "How do I upload?")) tick u)
        = [(SupportChatResponse [] "How do I upload?", OnText k)]).
Proof.
  destruct (chat_turn_is_never_empty GatewayCases.no_key 0 MachineSpec.stored_analysis
              (MachineSpec.asking "Which washer?")
              (MachineSpec.asking "How do I upload?")
              eq_refl eq_refl eq_refl eq_refl)
    as [(k & S & R) (k' & S' & _)].
  split; [|exists k'; exact S'].
  exists k. split; [exact S|].
  intros tick u G. destruct (proj1 (R tick u) G) as (t & N & H & _).
  exists t. split; [exact N | exact H].
Defined.

End GatewayMore.

(** ** What holds in every state of the page *)

Module CoherenceFacts.

Import App Machine JsonFacts MachineSpec Coherence.

Section Keeping.

Variable I : UI.State -> Prop.

Lemma run_later p :
  later I p -> forall tick u, Forall (waiting_keeps I) (started (run p tick u)).
Proof.
  assert (W : forall A (k : A -> Proc) (wrap : (A -> Proc) -> Waiting) call,
             (forall a, resume (wrap k) a = None
                        \/ exists x, resume (wrap k) a = Some (k x)) ->
             (forall x, task I (k x) /\ later I (k x)) ->
             Forall (waiting_keeps I) [(call, wrap k)]).
  { intros A k wrap call R K. constructor; [|constructor].
    intros a q E. cbn [snd] in E.
    destruct (R a) as [N | [x X]]; rewrite E in *; [discriminate|].
    inv X. apply K. }
  induction p as [ | upd k IH | msg k IH | k IH | k IH | k IH | f k IH
                 | b m k IH | b m fc k IH | c h m k IH | h m k IH | p IHp k IHk ];
    intros L tick u; cbn [later] in L; cbn [run started].
  - constructor.
  - apply (IH L).
  - apply (IH L).
  - apply (IH _ (L _)).
  - apply (IH _ (L _)).
  - apply (IH _ (L _)).
  - apply (W _ k OnRead); [|exact L]. intros [x|x|x|x]; cbn; eauto.
  - apply (W _ k OnItems); [|exact L]. intros [x|x|x|x]; cbn; eauto.
  - apply (W _ k OnAnalysis); [|exact L]. intros [x|x|x|x]; cbn; eauto.
  - apply (W _ k OnText); [|exact L]. intros [x|x|x|x]; cbn; eauto.
  - apply (W _ k OnText); [|exact L]. intros [x|x|x|x]; cbn; eauto.
  - destruct L as [Lp Lk]. apply Forall_app. split; [apply (IHp Lp) | apply (IHk Lk)].
Qed.

Hypothesis I_rerender : forall old new, I new -> I (rerender old new).

(** Every handler the page offers keeps [I] in the state it is offered in,
    and its continuations keep it in whatever state they run. *)
Hypothesis handlers : forall s e p rest,
  (forall i a, e <> Settle i a) ->
  dispatch s e = Some (p, rest) ->
  later I p /\ (I (ui s) -> forall tick, I (state (run p tick (ui s)))).

Lemma dispatch_rest s e p rest :
  dispatch s e = Some (p, rest) ->
  (exists i a, e = Settle i a)
  \/ (rest = pending s /\ forall i a, e <> Settle i a).
Proof.
  intros D.
  assert (O : forall (b : bool) q,
             (if b then Some (q, pending s) else None) = Some (p, rest) ->
             rest = pending s).
  { intros [|] q E; [|discriminate]. now inv E. }
  destruct e; simpl in D;
    try (destruct (nth_error (detectedItems (UI.app (ui s))) i); [|discriminate]);
    try (destruct (nth_error (history (UI.app (ui s))) i); [|discriminate]);
    try (destruct (shownResult (UI.app (ui s))) eqn:?; [|discriminate]);
    try (right; split; [|discriminate];
         first [eapply O; exact D | eapply (O true); exact D]).
  left. eauto.
Qed.

Lemma step_keeps tick s e s' shown :
  I (ui s) -> Forall (waiting_keeps I) (pending s) ->
  step tick s e = Some (s', shown) ->
  I (ui s') /\ Forall (waiting_keeps I) (pending s').
Proof.
  intros H W S. unfold step in S.
  destruct (dispatch s e) as [[p rest]|] eqn:D; [|discriminate].
  inv S. cbn [ui pending].
  assert (K : (later I p /\ I (state (run p tick (ui s))))
              /\ Forall (waiting_keeps I) rest).
  { destruct (dispatch_rest _ _ _ _ D) as [(i & a & ->) | [-> NS]].
    - simpl in D.
      destruct (nth_error (pending s) i) as [[call w]|] eqn:N; [|discriminate].
      destruct (resume w a) as [q|] eqn:R; [|discriminate].
      match type of D with (if ?b then _ else _) = _ => destruct b end;
        [|discriminate].
      inv D. split; [|now apply MachineFacts.Forall_remove_nth].
      apply nth_error_In in N. rewrite Forall_forall in W.
      destruct (W _ N a p R) as [T L]. split; [exact L | now apply T].
    - split; [|exact W].
      destruct (handlers s e p (pending s) NS D) as [L T].
      split; [exact L | now apply T]. }
  destruct K as [[L T] F]. split.
  - now apply I_rerender.
  - apply Forall_app. split; [exact F | now apply run_later].
Qed.

Lemma exec_keeps trace : forall s s',
  I (ui s) -> Forall (waiting_keeps I) (pending s) ->
  exec s trace = Some s' ->
  I (ui s') /\ Forall (waiting_keeps I) (pending s').
Proof.
  induction trace as [|[tick e] trace IH]; simpl; intros s s' H W E.
  - inv E. now split.
  - destruct (step tick s e) as [[s1 shown]|] eqn:S; [|discriminate].
    destruct (step_keeps _ _ _ _ _ H W S) as [H1 W1].
    apply (IH s1 s' H1 W1 E).
Qed.

Lemma reachable_keeps s :
  I UI.initial -> reachable s -> I (ui s) /\ Forall (waiting_keeps I) (pending s).
Proof.
  intros H0 [trace E]. apply (exec_keeps trace initial); [exact H0 | constructor | exact E].
Qed.

End Keeping.

(** *** The handlers keep the session coherent *)

Ltac coherence :=
  intros;
  unfold task, coherent_page, coherent in *; intros;
  repeat match goal with
    | C : _ /\ _ |- _ => destruct C
    end;
  cbn [run state]; unfold Session.set; cbn;
  rewrite ?MachineFacts.onUpload_app, ?MachineFacts.onChat_app; cbn;
  repeat split; intros;
  try discriminate; try congruence; auto.

Lemma handleFileSelect_task media :
  task coherent_page (Session.handleFileSelect media).
Proof.
  unfold Session.handleFileSelect.
  destruct (truthy_opt (MediaFile.base64 media)) eqn:B; cbn [negb].
  - coherence.
  - coherence.
Qed.

Lemma handleItemSelect_keeps render item :
  task coherent_page (Session.handleItemSelect render item)
  /\ later coherent_page (Session.handleItemSelect render item).
Proof.
  unfold Session.handleItemSelect.
  destruct (Session.captured render) as [[media b]|]; cbn [later]; [|split; [coherence | exact I]].
  split; [coherence|].
  intros [r|msg]; cbn [later]; (split; [|auto]).
  - coherence. constructor; [|assumption]. repeat split; discriminate.
  - coherence.
Qed.

Lemma handleStartDetection_keeps render :
  task coherent_page (Session.handleStartDetection render)
  /\ later coherent_page (Session.handleStartDetection render).
Proof.
  unfold Session.handleStartDetection.
  destruct (Session.captured render) as [[media b]|]; cbn [later]; [|split; [coherence | exact I]].
  split; [coherence|].
  intros [items|msg]; [destruct items as [|item items]; cbn [Nat.ltb Nat.leb List.length]|];
    cbn [later].
  - destruct (handleItemSelect_keeps render None) as [T L].
    split; [|now split].
    intros tick u C. cbn [run state]. now apply T.
  - split; [coherence | exact I].
  - split; [coherence | exact I].
Qed.

Lemma handleFile_keeps gen file :
  task coherent_page (FileUpload.handleFile gen Session.handleFileSelect file)
  /\ later coherent_page (FileUpload.handleFile gen Session.handleFileSelect file).
Proof.
  unfold FileUpload.handleFile.
  destruct (FileUpload.MAX_SIZE <? File.size file)%Z; cbn [later];
    [split; [coherence | exact I]|].
  split; [coherence|].
  intros result. destruct (truthy_opt result); cbn [later]; [|split; [coherence | exact I]].
  split.
  - intros tick u C. cbn [run state].
    apply handleFileSelect_task. revert C. unfold coherent_page.
    now rewrite MachineFacts.onUpload_app.
  - intros url. unfold Session.handleFileSelect.
    now destruct (negb _).
Qed.

Lemma handleSendChat_keeps gen data render :
  task coherent_page (Chats.handleSendChat gen data render)
  /\ later coherent_page (Chats.handleSendChat gen data render).
Proof.
  unfold Chats.handleSendChat.
  destruct (blank _ || _); cbn [later]; [split; [coherence | exact I]|].
  split; [coherence|].
  intros [r|msg]; cbn [later]; (split; [coherence | exact I]).
Qed.

Lemma handleSend_keeps render :
  task coherent_page (Chats.handleSend render)
  /\ later coherent_page (Chats.handleSend render).
Proof.
  unfold Chats.handleSend.
  destruct (blank _ || _); cbn [later]; [split; [coherence | exact I]|].
  split; [coherence|].
  intros [r|msg]; cbn [later]; (split; [coherence | exact I]).
Qed.

Lemma coherent_handlers s e p rest :
  (forall i a, e <> Settle i a) ->
  dispatch s e = Some (p, rest) ->
  later coherent_page p
  /\ (coherent_page (ui s) -> forall tick, coherent_page (state (run p tick (ui s)))).
Proof.
  intros NS D.
  assert (O : forall (b : bool) q,
             (if b then Some (q, pending s) else None) = Some (p, rest) ->
             task coherent_page q /\ later coherent_page q ->
             later coherent_page p
             /\ (coherent_page (ui s) ->
                 forall tick, coherent_page (state (run p tick (ui s))))).
  { intros [|] q E [T L]; [|discriminate]. inv E. split; [exact L|].
    intros C tick. now apply T. }
  destruct e; simpl in D;
    try (destruct (nth_error (detectedItems (UI.app (ui s))) i); [|discriminate]);
    try (destruct (nth_error (history (UI.app (ui s))) i); [|discriminate]);
    try (destruct (shownResult (UI.app (ui s))) eqn:?; [|discriminate]);
    try (first [eapply O; [exact D|] | eapply (O true); [exact D|]];
         first [ apply handleFile_keeps | apply handleStartDetection_keeps
               | apply handleItemSelect_keeps | apply handleSendChat_keeps
               | apply handleSend_keeps
               | solve [ unfold FileUpload.clearFile, Session.handleClearFile,
                           Session.handleReset, Session.handleHistorySelect;
                         cbn [later]; split; [coherence | auto] ] ]).
  - destruct (is_some _ && _) eqn:G; [|discriminate]. inv D.
    apply andb_prop in G. destruct G as [_ G].
    split; [exact I|]. intros C tick. revert C.
    unfold coherent_page, coherent, Session.handleSelectAnother; cbn.
    destruct (detectedItems (UI.app (ui s))); [discriminate|].
    intros (C1 & C2 & C3 & C4 & C5 & C6).
    repeat split; intros; try discriminate; auto.
  - now destruct (NS i a).
Qed.

Lemma coherent_rerender old new :
  coherent_page new -> coherent_page (rerender old new).
Proof. unfold coherent_page. now rewrite MachineFacts.rerender_app. Qed.

Lemma coherent_initial : coherent_page UI.initial.
Proof. unfold coherent_page, coherent; cbn. repeat split; intros; discriminate || auto. Qed.

Lemma reachable_coherent s : reachable s -> coherent (UI.app (ui s)).
Proof.
  intros R.
  apply (reachable_keeps coherent_page coherent_rerender coherent_handlers s
           coherent_initial R).
Qed.

Lemma reachable_run_trace trace :
  exec initial trace <> None -> reachable (run_trace trace).
Proof.
  intros E. exists trace. unfold run_trace.
  destruct (exec initial trace); [reflexivity | contradiction].
Qed.

(** X15: in every state the page can reach, the status [SUCCESS] comes with
    a stored result, so the result view is shown: the [&& result] of its
    guard never hides it. *)
Theorem success_always_shows_a_result (s : Sys) :
  reachable s ->
  status (UI.app (ui s)) = SUCCESS ->
  exists r,
    result (UI.app (ui s)) = Some r
    /\ shownResult (UI.app (ui s)) = Some r.
Proof.
  intros R S. destruct (reachable_coherent s R) as (C & _).
  specialize (C S). unfold shownResult. rewrite S.
  destruct (result (UI.app (ui s))) as [r|]; [|contradiction].
  exists r. now split.
Qed.

Lemma success_always_shows_a_result_witness :
  exists r,
    result (UI.app (ui (run_trace faucet_trace))) = Some r
    /\ shownResult (UI.app (ui (run_trace faucet_trace))) = Some r.
Proof.
  apply (success_always_shows_a_result (run_trace faucet_trace)).
  - apply reachable_run_trace. vm_compute. discriminate.
  - vm_compute. reflexivity.
Defined.

(** X16: in every state the page can reach, the status [SELECTING] comes
    with at least one detected item to choose from. *)
Theorem selection_always_has_candidates (s : Sys) :
  reachable s ->
  status (UI.app (ui s)) = SELECTING ->
  exists item items, detectedItems (UI.app (ui s)) = item :: items.
Proof.
  intros R S. destruct (reachable_coherent s R) as (_ & C & _).
  specialize (C S).
  destruct (detectedItems (UI.app (ui s))) as [|item items]; [contradiction|].
  now exists item, items.
Qed.

Lemma selection_always_has_candidates_witness :
  exists item items,
    detectedItems (UI.app (ui (run_trace detected_trace))) = item :: items.
Proof.
  apply (selection_always_has_candidates (run_trace detected_trace)).
  - apply reachable_run_trace. vm_compute. discriminate.
  - vm_compute. reflexivity.
Defined.

Lemma reachable_captured s media :
  reachable s ->
  currentMedia (UI.app (ui s)) = Some media ->
  exists base64,
    MediaFile.base64 media = Some base64 /\ base64 <> ""
    /\ Session.captured (UI.app (ui s)) = Some (media, base64).
Proof.
  intros R M. destruct (reachable_coherent s R) as (_ & _ & _ & _ & C & _).
  specialize (C media M). unfold truthy_opt in C.
  destruct (MediaFile.base64 media) as [b|] eqn:B; [|discriminate].
  exists b. apply GatewayMore.nonempty_true in C.
  repeat split; trivial. apply SessionFacts.captured_spec. auto.
Qed.

(** X17: whenever the Analyze button is shown (status [UPLOADED]), a media
    with a non-empty payload is held, and the click is one step to
    [DETECTING] that clears the error and puts exactly one detection call,
    for that payload and the MIME type of its file, in flight: the early
    return of [handleStartDetection] never fires. *)
Theorem analyze_always_starts_detection (tick : Tick) (s : Sys) :
  reachable s ->
  status (UI.app (ui s)) = UPLOADED ->
  exists media base64 k s',
    currentMedia (UI.app (ui s)) = Some media
    /\ MediaFile.base64 media = Some base64
    /\ base64 <> ""
    /\ step tick s ClickAnalyze = Some (s', [])
    /\ UI.app (ui s') = setError None (setStatus DETECTING (UI.app (ui s)))
    /\ pending s'
       = (pending s
          ++ [(DetectItems base64 (File.type (MediaFile.file media)), OnItems k)])%list.
Proof.
  intros R U. destruct (reachable_coherent s R) as (_ & _ & C & _).
  specialize (C U).
  destruct (currentMedia (UI.app (ui s))) as [media|] eqn:M; [|contradiction].
  destruct (reachable_captured s media R M) as (b & B & N & K).
  exists media, b.
  unfold step, dispatch. rewrite U. cbn match.
  unfold Session.handleStartDetection. rewrite K.
  eexists. eexists. repeat split; trivial.
  cbn [ui]. now rewrite MachineFacts.rerender_app.
Qed.

Lemma analyze_always_starts_detection_witness :
  exists media base64 k s',
    currentMedia (UI.app (ui (run_trace captured_trace))) = Some media
    /\ MediaFile.base64 media = Some base64
    /\ base64 <> ""
    /\ step late (run_trace captured_trace) ClickAnalyze = Some (s', [])
    /\ UI.app (ui s')
       = setError None (setStatus DETECTING (UI.app (ui (run_trace captured_trace))))
    /\ pending s'
       = (pending (run_trace captured_trace)
          ++ [(DetectItems base64 (File.type (MediaFile.file media)), OnItems k)])%list.
Proof.
  apply (analyze_always_starts_detection late (run_trace captured_trace)).
  - apply reachable_run_trace. vm_compute. discriminate.
  - vm_compute. reflexivity.
Defined.

(** X18: whenever the selector is shown, a click on one of its items is one
    step to [ANALYZING] that puts exactly one diagnosis call in flight, for
    the payload held and focused on [name - description] of that item: the
    early return of [handleItemSelect] never fires. *)
Theorem item_click_always_starts_diagnosis
    (tick : Tick) (s : Sys) (i : nat) (item : DetectedItem.t) :
  reachable s ->
  showsSelector (UI.app (ui s)) = true ->
  nth_error (detectedItems (UI.app (ui s))) i = Some item ->
  exists media base64 k s',
    currentMedia (UI.app (ui s)) = Some media
    /\ MediaFile.base64 media = Some base64
    /\ base64 <> ""
    /\ step tick s (ClickItem i) = Some (s', [])
    /\ UI.app (ui s') = setStatus ANALYZING (UI.app (ui s))
    /\ pending s'
       = (pending s
          ++ [(AnalyzeMedia base64 (File.type (MediaFile.file media))
                 (Some (DetectedItem.name item ++ " - " ++ DetectedItem.description item)%string),
               OnAnalysis k)])%list.
Proof.
  intros R V N.
  assert (M : exists media, currentMedia (UI.app (ui s)) = Some media).
  { unfold showsSelector in V. destruct (status _); try discriminate.
    destruct (currentMedia _) as [media|]; [now exists media | discriminate]. }
  destruct M as [media M].
  destruct (reachable_captured s media R M) as (b & B & NE & K).
  exists media, b.
  unfold step, dispatch. rewrite N, V.
  unfold Session.handleItemSelect. rewrite K.
  eexists. eexists. repeat split; trivial.
  cbn [ui]. now rewrite MachineFacts.rerender_app.
Qed.

Lemma item_click_always_starts_diagnosis_witness :
  exists media base64 k s',
    currentMedia (UI.app (ui (run_trace detected_trace))) = Some media
    /\ MediaFile.base64 media = Some base64
    /\ base64 <> ""
    /\ step late (run_trace detected_trace) (ClickItem 0) = Some (s', [])
    /\ UI.app (ui s') = setStatus ANALYZING (UI.app (ui (run_trace detected_trace)))
    /\ pending s'
       = (pending (run_trace detected_trace)
          ++ [(AnalyzeMedia base64 (File.type (MediaFile.file media))
                 (Some "Faucet - dripping"),
               OnAnalysis k)])%list.
Proof.
  apply (item_click_always_starts_diagnosis late (run_trace detected_trace) 0 faucet).
  - apply reachable_run_trace. vm_compute. discriminate.
  - vm_compute. reflexivity.
  - vm_compute. reflexivity.
Defined.

(** X19: every entry of the history, in every state the page can reach,
    carries an identifier, a time stamp and an image reference. *)
Theorem history_entries_are_stamped (s : Sys) (r : FixItResponse.t) :
  reachable s ->
  In r (history (UI.app (ui s))) ->
  exists id timestamp imageUrl,
    FixItResponse.id r = Some id
    /\ FixItResponse.timestamp r = Some timestamp
    /\ FixItResponse.imageUrl r = Some imageUrl.
Proof.
  intros R H. destruct (reachable_coherent s R) as (_ & _ & _ & _ & _ & C).
  rewrite Forall_forall in C. destruct (C r H) as (A & B & D).
  destruct (FixItResponse.id r) as [x|]; [|contradiction].
  destruct (FixItResponse.timestamp r) as [y|]; [|contradiction].
  destruct (FixItResponse.imageUrl r) as [z|]; [|contradiction].
  now exists x, y, z.
Qed.

Lemma history_entries_are_stamped_witness :
  exists id timestamp imageUrl,
    FixItResponse.id stored_analysis = Some id
    /\ FixItResponse.timestamp stored_analysis = Some timestamp
    /\ FixItResponse.imageUrl stored_analysis = Some imageUrl.
Proof.
  apply (history_entries_are_stamped (run_trace faucet_trace) stored_analysis).
  - apply reachable_run_trace. vm_compute. discriminate.
  - vm_compute. left. reflexivity.
Defined.

Lemma reachable_coherent_media s :
  reachable s ->
  status (UI.app (ui s)) = UPLOADED ->
  exists media base64, Session.captured (UI.app (ui s)) = Some (media, base64).
Proof.
  intros R U. destruct (reachable_coherent s R) as (_ & _ & C & _).
  specialize (C U).
  destruct (currentMedia (UI.app (ui s))) as [media|] eqn:M; [|contradiction].
  destruct (reachable_captured s media R M) as (b & _ & _ & K).
  now exists media, b.
Qed.

(** X20: in every state the page can reach, the status [ERROR] comes with
    one of the two fixed messages, that of the detection or that of the
    diagnosis. *)
Theorem error_screen_has_its_message (s : Sys) :
  reachable s ->
  status (UI.app (ui s)) = ERROR ->
  error (UI.app (ui s))
  = Some "Failed to identify items in the image. Please try again."
  \/ error (UI.app (ui s))
     = Some "Failed to generate repair guide. Please try again.".
Proof.
  intros R S. destruct (reachable_coherent s R) as (_ & _ & _ & C & _).
  exact (C S).
Qed.

Lemma error_screen_has_its_message_witness :
  error (UI.app (ui (run_trace failed_trace)))
  = Some "Failed to identify items in the image. Please try again."
  \/ error (UI.app (ui (run_trace failed_trace)))
     = Some "Failed to generate repair guide. Please try again.".
Proof.
  apply (error_screen_has_its_message (run_trace failed_trace)).
  - apply reachable_run_trace. vm_compute. discriminate.
  - vm_compute. reflexivity.
Defined.

End CoherenceFacts.

(** ** Witnesses of two facts of the page and of the overlay *)

Module MachineMore.

Import App Machine MachineSpec.

Lemma percent_binary64_close_witness : PresentationSpec.close 250 = true.
Proof.
  apply (PresentationFacts.percent_binary64_close 250). lia.
Defined.

End MachineMore.

(** ** The support chat, over runs of the page *)

Module SupportFacts.

Import App Machine JsonFacts MachineSpec SupportSpec.

Section Respecting.

Variable P : UI.State -> UI.State -> Prop.
Hypothesis P_refl : forall u, P u u.
Hypothesis P_trans : forall u v w, P u v -> P v w -> P u w.
Hypothesis P_rerender : forall old new, P old new -> P old (rerender old new).

(** Every update of every handler the page offers respects [P]. *)
Hypothesis handlers : forall s e p rest,
  (forall i a, e <> Settle i a) ->
  dispatch s e = Some (p, rest) ->
  respects P p.

Lemma step_respecting tick s e s' shown :
  Forall (respects_waiting P) (pending s) ->
  step tick s e = Some (s', shown) ->
  Forall (respects_waiting P) (pending s') /\ P (ui s) (ui s').
Proof.
  intros W S. unfold step in S.
  destruct (dispatch s e) as [[p rest]|] eqn:D; [|discriminate].
  inv S. cbn [ui pending].
  assert (K : respects P p /\ Forall (respects_waiting P) rest).
  { destruct (CoherenceFacts.dispatch_rest _ _ _ _ D) as [(i & a & ->) | [-> NS]].
    - simpl in D.
      destruct (nth_error (pending s) i) as [[call w]|] eqn:N; [|discriminate].
      destruct (resume w a) as [q|] eqn:R; [|discriminate].
      match type of D with (if ?b then _ else _) = _ => destruct b end;
        [|discriminate].
      inv D. split; [|now apply MachineFacts.Forall_remove_nth].
      apply nth_error_In in N. rewrite Forall_forall in W.
      exact (W _ N a p R).
    - split; [|exact W]. exact (handlers s e p (pending s) NS D). }
  destruct K as [K F].
  destruct (MachineFacts.run_respects P P_refl P_trans p K tick (ui s)) as [G F'].
  split.
  - apply Forall_app. now split.
  - now apply P_rerender.
Qed.

Lemma exec_respecting trace : forall s s',
  Forall (respects_waiting P) (pending s) ->
  exec s trace = Some s' ->
  Forall (respects_waiting P) (pending s') /\ P (ui s) (ui s').
Proof.
  induction trace as [|[tick e] trace IH]; simpl; intros s s' W E.
  - inv E. split; [assumption | apply P_refl].
  - destruct (step tick s e) as [[s1 shown]|] eqn:S; [|discriminate].
    destruct (step_respecting _ _ _ _ _ W S) as [W1 G1].
    destruct (IH _ _ W1 E) as [W' G'].
    split; [assumption | eapply P_trans; eauto].
Qed.

End Respecting.

Lemma extends_refl u : extends u u.
Proof. exists []. now rewrite app_nil_r. Qed.

Lemma extends_trans u v w : extends u v -> extends v w -> extends u w.
Proof.
  intros [m1 E1] [m2 E2]. exists (m1 ++ m2)%list.
  now rewrite E2, E1, app_assoc.
Qed.

Lemma extends_same u u' :
  ChatPanel.chatHistory (UI.support u') = ChatPanel.chatHistory (UI.support u) ->
  extends u u'.
Proof. intros E. exists []. now rewrite E, app_nil_r. Qed.

Lemma onUpload_support gen f u : UI.support (UI.onUpload gen f u) = UI.support u.
Proof. unfold UI.onUpload. now destruct (Nat.eqb gen (UI.uploadGen u)). Qed.

Lemma onChat_support gen f u : UI.support (UI.onChat gen f u) = UI.support u.
Proof. unfold UI.onChat. now destruct (Nat.eqb gen (UI.chatGen u)). Qed.

Lemma rerender_support old new : UI.support (rerender old new) = UI.support new.
Proof.
  unfold rerender.
  destruct (showsUpload (UI.app old) && negb (showsUpload (UI.app new)));
    destruct (shownResult (UI.app old)); destruct (shownResult (UI.app new));
    try destruct (same_id _ _); reflexivity.
Qed.

Ltac extend :=
  repeat match goal with
    | |- _ /\ _ => split
    | |- forall _, _ => intro
    | |- True => exact I
    | |- extends _ (UI.onUpload _ _ _) => apply extends_same; now rewrite onUpload_support
    | |- extends _ (UI.onChat _ _ _) => apply extends_same; now rewrite onChat_support
    | |- extends _ (UI.onSupport (ChatPanel.setChatHistory (Chats.append ?m)) _) =>
        now exists [m]
    | |- extends _ _ => apply extends_same; reflexivity
    | |- respects _ (match ?x with _ => _ end) => destruct x
    | |- respects _ (if ?b then _ else _) => destruct b
    | |- respects _ _ => progress cbn [respects]
    end.

Lemma extends_handlers s e p rest :
  (forall i a, e <> Settle i a) ->
  dispatch s e = Some (p, rest) ->
  respects extends p.
Proof.
  intros NS D.
  assert (O : forall (b : bool) q,
             (if b then Some (q, pending s) else None) = Some (p, rest) ->
             respects extends q -> respects extends p).
  { intros [|] q E K; [|discriminate]. now inv E. }
  destruct e; simpl in D;
    try (destruct (nth_error (detectedItems (UI.app (ui s))) i); [|discriminate]);
    try (destruct (nth_error (history (UI.app (ui s))) i); [|discriminate]);
    try (destruct (shownResult (UI.app (ui s))) eqn:?; [|discriminate]);
    try (first [eapply O; [exact D|] | eapply (O true); [exact D|]];
         solve [ unfold FileUpload.handleFile, FileUpload.clearFile,
                   Session.handleFileSelect, Session.handleStartDetection,
                   Session.handleItemSelect, Session.handleClearFile,
                   Session.handleReset, Session.handleSelectAnother,
                   Session.handleHistorySelect, Chats.handleSendChat,
                   Chats.handleSend;
                 extend ]).
  now destruct (NS i a).
Qed.

Lemma extends_rerender old new : extends old new -> extends old (rerender old new).
Proof. intros [m E]. exists m. now rewrite rerender_support. Qed.

Lemma reachable_extends_waiting s :
  reachable s -> Forall (respects_waiting extends) (pending s).
Proof.
  intros [trace E].
  apply (exec_respecting extends extends_refl extends_trans extends_rerender
           extends_handlers trace initial s); [constructor | exact E].
Qed.

(** X24: the support transcript starts with the greeting and only grows: in
    every state the page can reach its first message is the greeting, and
    whatever happens from there leaves it as it was with messages put at its
    end. *)
Theorem support_transcript_only_grows
    (s s' : Sys) (trace : list (Tick * Event)) :
  reachable s ->
  exec s trace = Some s' ->
  (exists more,
      ChatPanel.chatHistory (UI.support (ui s)) = ChatPanel.WELCOME :: more)
  /\ (exists more,
      ChatPanel.chatHistory (UI.support (ui s'))
      = (ChatPanel.chatHistory (UI.support (ui s)) ++ more)%list).
Proof.
  intros R E. split.
  - destruct R as [trace0 E0].
    destruct (exec_respecting extends extends_refl extends_trans extends_rerender
                extends_handlers trace0 initial s) as [_ [more G]];
      [constructor | exact E0 |].
    exists more. exact G.
  - apply (exec_respecting extends extends_refl extends_trans extends_rerender
             extends_handlers trace s s'); [|exact E].
    now apply reachable_extends_waiting.
Qed.

Lemma support_transcript_only_grows_witness :
  (exists more,
      ChatPanel.chatHistory (UI.support (ui (run_trace faucet_trace)))
      = ChatPanel.WELCOME :: more)
  /\ (exists more,
      ChatPanel.chatHistory
        (UI.support (ui (run_from (run_trace faucet_trace) support_trace)))
      = (ChatPanel.chatHistory (UI.support (ui (run_trace faucet_trace))) ++ more)%list).
Proof.
  apply (support_transcript_only_grows (run_trace faucet_trace)
           (run_from (run_trace faucet_trace) support_trace) support_trace).
  - apply CoherenceFacts.reachable_run_trace. vm_compute. discriminate.
  - vm_compute. reflexivity.
Defined.

End SupportFacts.

(** ** The capture adapter, further *)

Module CaptureMore.

Import App FileUpload MarkupSpec CaptureSpec JsonFacts.

Lemma split_on_whole c s : free_of c s = true -> split_on c s = [s].
Proof.
  induction s as [|x s IH]; cbn [free_of split_on]; [reflexivity|].
  intros F. apply andb_prop in F. destruct F as [X F].
  apply negb_true_iff in X. rewrite X, (IH F). reflexivity.
Qed.

Lemma split_on_first c a b :
  free_of c a = true -> split_on c (a ++ String c b) = a :: split_on c b.
Proof.
  induction a as [|x a IH]; cbn [append free_of split_on].
  - intros _. now rewrite Ascii.eqb_refl.
  - intros F. apply andb_prop in F. destruct F as [X F].
    apply negb_true_iff in X. rewrite X, (IH F). reflexivity.
Qed.

(** [split(',')[1]] of the data URL of a file is its content in base64. *)
Lemma dataURL_payload file :
  free_of "," (File.type file) = true ->
  free_of "," (File.bytes64 file) = true ->
  nth_error (split_on "," (dataURL file)) 1 = Some (File.bytes64 file).
Proof.
  intros T B. unfold dataURL.
  set (mime := if nonempty (File.type file) then File.type file
               else "application/octet-stream").
  assert (M : free_of "," mime = true) by (unfold mime; now destruct (nonempty _)).
  change ("data:" ++ mime ++ ";base64," ++ File.bytes64 file)
    with ("data:" ++ (mime ++ (";base64" ++ String "," (File.bytes64 file)))).
  rewrite <- !MarkupFacts.append_assoc.
  rewrite split_on_first.
  - rewrite (split_on_whole _ _ B). reflexivity.
  - rewrite !MarkupFacts.free_of_app, M. reflexivity.
Qed.

(** X10: a file of at most 20 MB whose MIME type and content hold no comma and
    whose content is not empty: [handleFile] shows nothing and starts the
    read; when the read delivers the data URL of the file, the media built
    holds exactly the content of the file as its payload, the object URL
    drawn then, and the kind [video] exactly when the MIME type starts with
    [video].  In whatever state the page then is, that media becomes the
    current media of the session, the status becomes [UPLOADED] and the
    error is cleared.  It becomes the preview when the capture adapter that
    started the read is still mounted ([UI.uploadGen u = gen]); otherwise
    the cells of the adapter now mounted are left as they are. *)
Theorem capture_recovers_the_payload (gen : nat) (file : File.t) :
  (File.size file <= 20 * 1024 * 1024)%Z ->
  free_of "," (File.type file) = true ->
  free_of "," (File.bytes64 file) = true ->
  File.bytes64 file <> "" ->
  exists k,
    (forall tick u,
        run (handleFile gen Session.handleFileSelect file) tick u
        = {| state := u; alerts := []; started := [(FileRead file, OnRead k)] |})
    /\ forall tick u,
        let media := media_of file tick (Some (File.bytes64 file)) in
        let after := run (k (Some (dataURL file))) tick u in
        UI.app (state after)
        = setError None (setStatus UPLOADED (setCurrentMedia (Some media) (UI.app u)))
        /\ alerts after = [] /\ started after = []
        /\ (UI.uploadGen u = gen ->
            Upload.preview (UI.upload (state after)) = Some media)
        /\ (UI.uploadGen u <> gen -> UI.upload (state after) = UI.upload u).
Proof.
  intros S T B N. unfold handleFile, MAX_SIZE.
  destruct (Z.ltb_spec (20 * 1024 * 1024) (File.size file)) as [L|_]; [lia|].
  eexists. split; [reflexivity|].
  intros tick u.
  assert (D : truthy_opt (Some (dataURL file)) = true) by reflexivity.
  assert (O : or_else (Some (dataURL file)) "" = dataURL file) by reflexivity.
  cbv beta zeta. rewrite D, O, (dataURL_payload file T B).
  cbn [run state alerts started]. unfold Session.handleFileSelect.
  cbn [MediaFile.base64 truthy_opt].
  apply GatewayMore.nonempty_true in N. rewrite N. cbn [negb run state alerts started].
  unfold UI.onUpload.
  destruct (Nat.eqb_spec gen (UI.uploadGen u)) as [E|E]; cbn.
  - repeat split. intros G. now contradiction G.
  - repeat split. intros G. now contradiction E.
Qed.

Lemma capture_recovers_the_payload_witness :
  exists k,
    (forall tick u,
        run (handleFile 0 Session.handleFileSelect film) tick u
        = {| state := u; alerts := []; started := [(FileRead film, OnRead k)] |})
    /\ forall tick u,
        UI.app (state (run (k (Some (dataURL film))) tick u))
        = setError None
            (setStatus UPLOADED
               (setCurrentMedia
                  (Some (MediaFile.mk film (blobUrl tick) video (Some "AAAAIGZ0eXA=")))
                  (UI.app u)))
        /\ (UI.uploadGen u = 0 ->
            Upload.preview (UI.upload (state (run (k (Some (dataURL film))) tick u)))
            = Some (MediaFile.mk film (blobUrl tick) video (Some "AAAAIGZ0eXA="))).
Proof.
  destruct (capture_recovers_the_payload 0 film) as (k & S & A);
    [vm_compute; discriminate | reflexivity | reflexivity | discriminate |].
  exists k. split; [exact S|]. intros tick u.
  destruct (A tick u) as (H & _ & _ & P & _). split; [exact H | exact P].
Defined.

(** X11: a read that delivers a text without payload (nothing, or an empty
    text, after its first comma): the session is not told of the file, its
    state stays exactly as it was, whatever it was.  The media, without
    payload, becomes the preview when the capture adapter that started the
    read is still mounted ([UI.uploadGen u = gen]); otherwise the read
    changes nothing at all. *)
Theorem payloadless_capture_is_previewed_only
    (gen : nat) (file : File.t) (url : string) :
  (File.size file <= 20 * 1024 * 1024)%Z ->
  url <> "" ->
  truthy_opt (nth_error (split_on "," url) 1) = false ->
  exists k,
    (forall tick u,
        started (run (handleFile gen Session.handleFileSelect file) tick u)
        = [(FileRead file, OnRead k)])
    /\ forall tick u,
        let after := run (k (Some url)) tick u in
        UI.app (state after) = UI.app u
        /\ alerts after = [] /\ started after = []
        /\ (UI.uploadGen u = gen ->
            Upload.preview (UI.upload (state after))
            = Some (media_of file tick (nth_error (split_on "," url) 1)))
        /\ (UI.uploadGen u <> gen -> state after = u).
Proof.
  intros S N P. unfold handleFile, MAX_SIZE.
  destruct (Z.ltb_spec (20 * 1024 * 1024) (File.size file)) as [L|_]; [lia|].
  eexists. split; [reflexivity|].
  intros tick u.
  apply GatewayMore.nonempty_true in N.
  cbv beta zeta. cbn [truthy_opt or_else]. rewrite N.
  cbn [run state alerts started]. unfold Session.handleFileSelect.
  cbn [MediaFile.base64]. rewrite P. cbn [negb run state alerts started].
  unfold UI.onUpload.
  destruct (Nat.eqb_spec gen (UI.uploadGen u)) as [E|E]; cbn.
  - repeat split. intros G. now contradiction G.
  - repeat split. intros G. now contradiction E.
Qed.

Lemma payloadless_capture_is_previewed_only_witness :
  exists k,
    (forall tick u,
        started (run (handleFile 0 Session.handleFileSelect empty_file) tick u)
        = [(FileRead empty_file, OnRead k)])
    /\ forall tick u,
        UI.app (state (run (k (Some (dataURL empty_file))) tick u)) = UI.app u
        /\ (UI.uploadGen u = 0 ->
            Upload.preview (UI.upload (state (run (k (Some (dataURL empty_file))) tick u)))
            = Some (MediaFile.mk empty_file (blobUrl tick) image (Some EmptyString))).
Proof.
  destruct (payloadless_capture_is_previewed_only 0 empty_file (dataURL empty_file))
    as (k & S & A); [vm_compute; discriminate | discriminate | reflexivity |].
  exists k. split; [exact S|]. intros tick u.
  destruct (A tick u) as (H & _ & _ & P & _). split; [exact H | exact P].
Defined.

End CaptureMore.

(** ** The operations in flight *)

Module FlightFacts.

Import App Machine JsonFacts MachineSpec Flight.

Lemma flying_app f l l' : flying f (l ++ l') = flying f l + flying f l'.
Proof. unfold flying. now rewrite map_app, filter_app, length_app. Qed.

Lemma flying_remove_nth f i : forall l c w,
  nth_error l i = Some (c, w) ->
  flying f l = (if f c then 1 else 0) + flying f (remove_nth i l).
Proof.
  induction i as [|i IH]; intros [|[c' w'] l] c w N; simpl in N; try discriminate.
  - inv N. unfold flying. simpl. now destruct (f c).
  - specialize (IH l c w N). unfold flying in *. simpl.
    destruct (f c'); simpl; lia.
Qed.

Lemma flying_positive f l i c w :
  nth_error l i = Some (c, w) -> f c = true -> 0 < flying f l.
Proof. intros N F. rewrite (flying_remove_nth f i l c w N), F. lia. Qed.

Lemma flying_found f : forall l,
  0 < flying f l -> exists i c w, nth_error l i = Some (c, w) /\ f c = true.
Proof.
  induction l as [|[c w] l IH]; unfold flying; simpl; [lia|].
  destruct (f c) eqn:F.
  - intros _. exists 0, c, w. now split.
  - intros H. destruct (IH H) as (i & c' & w' & N & F').
    exists (S i), c', w'. now split.
Qed.

Lemma whenever_read k Q :
  (forall x tick u, Q u (run (k x) tick u)) -> whenever (OnRead k) Q.
Proof. intros H [x|x|x|x] p tick u R; simpl in R; inv R. apply H. Qed.

Lemma whenever_items k Q :
  (forall x tick u, Q u (run (k x) tick u)) -> whenever (OnItems k) Q.
Proof. intros H [x|x|x|x] p tick u R; simpl in R; inv R. apply H. Qed.

Lemma whenever_analysis k Q :
  (forall x tick u, Q u (run (k x) tick u)) -> whenever (OnAnalysis k) Q.
Proof. intros H [x|x|x|x] p tick u R; simpl in R; inv R. apply H. Qed.

Lemma whenever_text k Q :
  (forall x tick u, Q u (run (k x) tick u)) -> whenever (OnText k) Q.
Proof. intros H [x|x|x|x] p tick u R; simpl in R; inv R. apply H. Qed.

(** *** What each handler starts *)

Lemma handleFile_run gen file tick u :
  let r := run (FileUpload.handleFile gen Session.handleFileSelect file) tick u in
  state r = u
  /\ (started r = []
      \/ exists k, started r = [(FileRead file, OnRead k)]
                   /\ whenever (OnRead k) ends_read).
Proof.
  unfold FileUpload.handleFile.
  destruct (FileUpload.MAX_SIZE <? File.size file)%Z; cbn; (split; [reflexivity|]);
    [now left|].
  right. eexists. split; [reflexivity|].
  apply whenever_read. intros x tick' u'. unfold ends_read.
  destruct (truthy_opt x); cbn [run state started]; [|now repeat split; try left].
  unfold Session.handleFileSelect. cbn [MediaFile.base64].
  destruct (negb _); cbn [run state started]; cbn;
    rewrite ?SupportFacts.onUpload_support, ?MachineFacts.onUpload_app;
    repeat split; auto.
Qed.

Lemma handleItemSelect_run render item tick u :
  let r := run (Session.handleItemSelect render item) tick u in
  (state r = u /\ started r = [])
  \/ (UI.app (state r) = setStatus ANALYZING (UI.app u)
      /\ UI.support (state r) = UI.support u
      /\ exists b m f k,
          started r = [(AnalyzeMedia b m f, OnAnalysis k)]
          /\ whenever (OnAnalysis k) ends_diagnosis).
Proof.
  unfold Session.handleItemSelect.
  destruct (Session.captured render) as [[media b]|]; cbn; [|now left].
  right. repeat split. eexists. eexists. eexists. eexists. split; [reflexivity|].
  apply whenever_analysis. intros [x|x] tick' u'; unfold ends_diagnosis; cbn; auto.
Qed.

Lemma handleStartDetection_run render tick u :
  let r := run (Session.handleStartDetection render) tick u in
  (state r = u /\ started r = [])
  \/ (UI.app (state r) = setError None (setStatus DETECTING (UI.app u))
      /\ UI.support (state r) = UI.support u
      /\ exists b m k,
          started r = [(DetectItems b m, OnItems k)]
          /\ whenever (OnItems k) ends_detection).
Proof.
  unfold Session.handleStartDetection.
  destruct (Session.captured render) as [[media b]|] eqn:C; cbn; [|now left].
  right. repeat split. eexists. eexists. eexists. split; [reflexivity|].
  apply whenever_items. intros [[|item items]|x] tick' u'; unfold ends_detection.
  - cbn [List.length Nat.ltb Nat.leb run].
    destruct (handleItemSelect_run render None tick' u')
      as [[_ S] | (A & P & b' & m' & f' & k' & S & W)].
    + exfalso. revert S. unfold Session.handleItemSelect. rewrite C. discriminate.
    + cbn [state started]. rewrite app_nil_r. split; [exact P|]. right.
      rewrite A. split; [reflexivity|]. now exists b', m', f', k'.
  - cbn. split; [reflexivity|]. left. auto.
  - cbn. split; [reflexivity|]. left. auto.
Qed.

Lemma handleSendChat_run gen data render tick u :
  let r := run (Chats.handleSendChat gen data render) tick u in
  UI.app (state r) = UI.app u
  /\ UI.support (state r) = UI.support u
  /\ (started r = []
      \/ exists c h m k, started r = [(ChatResponse c h m, OnText k)]
                         /\ whenever (OnText k) ends_chat).
Proof.
  unfold Chats.handleSendChat.
  destruct (blank _ || _); cbn [run state started].
  - repeat split. now left.
  - rewrite !MachineFacts.onChat_app, !SupportFacts.onChat_support.
    repeat split. right. eexists. eexists. eexists. eexists. split; [reflexivity|].
    apply whenever_text. intros [x|x] tick' u'; unfold ends_chat; cbn [run state started];
      rewrite !MachineFacts.onChat_app, !SupportFacts.onChat_support; auto.
Qed.

Lemma handleSend_run render tick u :
  let r := run (Chats.handleSend render) tick u in
  UI.app (state r) = UI.app u
  /\ ((blank (ChatPanel.input render) || ChatPanel.isChatLoading render = true
       /\ state r = u /\ started r = [])
      \/ (blank (ChatPanel.input render) || ChatPanel.isChatLoading render = false
          /\ loading (state r) = true
          /\ exists h m k, started r = [(SupportChatResponse h m, OnText k)]
                           /\ whenever (OnText k) ends_support)).
Proof.
  unfold Chats.handleSend.
  destruct (blank _ || _); cbn [run state started].
  - split; [reflexivity|]. left. auto.
  - split; [reflexivity|]. right. repeat split.
    eexists. eexists. eexists. split; [reflexivity|].
    apply whenever_text. intros [x|x] tick' u'; unfold ends_support; cbn; auto.
Qed.

(** *** Every step keeps the operations in flight in order *)

Lemma flying_nil f : flying f [] = 0.
Proof. reflexivity. Qed.

Lemma flying_one f c w : flying f [(c, w)] = if f c then 1 else 0.
Proof. unfold flying. simpl. now destruct (f c). Qed.

Lemma orderly_next old u' rest news :
  Forall disciplined rest -> Forall disciplined news ->
  (status (UI.app u') = DETECTING ->
   0 < flying is_detection rest + flying is_detection news) ->
  (status (UI.app u') = ANALYZING ->
   0 < flying is_diagnosis rest + flying is_diagnosis news) ->
  flying is_support rest + flying is_support news = (if loading u' then 1 else 0) ->
  orderly {| ui := rerender old u'; pending := (rest ++ news)%list |}.
Proof.
  intros F N D A S. unfold orderly, loading. cbn [ui pending].
  rewrite MachineFacts.rerender_app, SupportFacts.rerender_support, !flying_app.
  repeat split; trivial. apply Forall_app. now split.
Qed.

Ltac offered D :=
  match type of D with
  | (if ?b then _ else _) = _ => destruct b eqn:?; [|discriminate]; inv D
  end.

Lemma step_orderly tick s e s' shown :
  orderly s -> step tick s e = Some (s', shown) -> orderly s'.
Proof.
  intros (F & HD & HA & HS) S. unfold step in S.
  destruct (dispatch s e) as [[p rest]|] eqn:D; [|discriminate].
  inv S.
  assert (Calm : forall r : Ran,
             Forall disciplined (started r) ->
             flying is_support (started r) = 0 ->
             loading (state r) = loading (ui s) ->
             (status (UI.app (state r)) = DETECTING ->
              status (UI.app (ui s)) = DETECTING
              \/ 0 < flying is_detection (started r)) ->
             (status (UI.app (state r)) = ANALYZING ->
              status (UI.app (ui s)) = ANALYZING
              \/ 0 < flying is_diagnosis (started r)) ->
             orderly {| ui := rerender (ui s) (state r);
                        pending := (pending s ++ started r)%list |}).
  { intros r N NS L CD CA. apply orderly_next; trivial.
    - intros E. destruct (CD E) as [E'|P]; [specialize (HD E')|]; lia.
    - intros E. destruct (CA E) as [E'|P]; [specialize (HA E')|]; lia.
    - rewrite L, NS. lia. }
  destruct e; simpl in D.
  - (* Pick *)
    offered D.
    destruct (handleFile_run (UI.uploadGen (ui s)) f tick (ui s)) as [E [N | (k & N & W)]];
      apply Calm; rewrite ?E, ?N; auto;
      solve [constructor | constructor; [exact W | constructor]].
  - (* Paste *)
    offered D.
    destruct (handleFile_run (UI.uploadGen (ui s)) f tick (ui s)) as [E [N | (k & N & W)]];
      apply Calm; rewrite ?E, ?N; auto;
      solve [constructor | constructor; [exact W | constructor]].
  - (* ClickClear *)
    offered D. apply Calm; cbn; auto; try discriminate.
    unfold loading, Session.set. cbn [UI.onApp UI.support].
    now rewrite SupportFacts.onUpload_support.
  - (* ClickAnalyze *)
    offered D.
    destruct (handleStartDetection_run (UI.app (ui s)) tick (ui s))
      as [[E N] | (A & P & b & m & k & N & W)]; apply Calm; rewrite ?E, ?N; auto;
      try solve [ constructor | constructor; [exact W | constructor]
                | unfold loading; now rewrite P
                | intros _; right; rewrite flying_one; cbn; lia
                | rewrite A; discriminate ].
  - (* ClickItem *)
    destruct (nth_error (detectedItems (UI.app (ui s))) i) as [item|]; [|discriminate].
    offered D.
    destruct (handleItemSelect_run (UI.app (ui s)) (Some item) tick (ui s))
      as [[E N] | (A & P & b & m & f & k & N & W)]; apply Calm; rewrite ?E, ?N; auto;
      try solve [ constructor | constructor; [exact W | constructor]
                | unfold loading; now rewrite P
                | intros _; right; rewrite flying_one; cbn; lia
                | rewrite A; discriminate ].
  - (* ClickReset *)
    inv D. apply Calm; cbn; auto; discriminate.
  - (* ClickSelectAnother *)
    offered D. apply Calm; cbn; auto; discriminate.
  - (* OpenSidebar *)
    inv D. apply Calm; cbn; auto.
  - (* CloseSidebar *)
    offered D. apply Calm; cbn; auto.
  - (* ClickHistory *)
    destruct (nth_error (history (UI.app (ui s))) i) as [item|]; [|discriminate].
    offered D. apply Calm; cbn; auto; discriminate.
  - (* ToggleDarkMode *)
    inv D. apply Calm; cbn; auto.
  - (* TypeChat *)
    offered D. apply Calm; cbn; rewrite ?MachineFacts.onChat_app; auto.
    unfold loading. now rewrite SupportFacts.onChat_support.
  - (* SendChat *)
    destruct (shownResult (UI.app (ui s))) as [data|]; [|discriminate].
    inv D.
    destruct (handleSendChat_run (UI.chatGen (ui s)) data (UI.chat (ui s)) tick (ui s))
      as (A & P & [N | (c & h & m & k & N & W)]); apply Calm; rewrite ?A, ?N; auto;
      solve [ constructor | constructor; [exact W | constructor]
            | unfold loading; now rewrite P ].
  - (* TypeSupport *)
    inv D. apply Calm; cbn; auto.
  - (* SendSupport *)
    inv D.
    destruct (handleSend_run (UI.support (ui s)) tick (ui s))
      as (A & [(G & E & N) | (G & L & h & m & k & N & W)]).
    + apply Calm; rewrite ?E, ?N; auto; constructor.
    + apply orderly_next; rewrite ?A, ?N, ?flying_one; cbn [is_detection is_diagnosis is_support];
        trivial.
      * constructor; [exact W | constructor].
      * intros E. specialize (HD E). lia.
      * intros E. specialize (HA E). lia.
      * rewrite L, HS. apply orb_false_elim in G. destruct G as [_ G].
        unfold loading. now rewrite G.
  - (* Settle *)
    destruct (nth_error (pending s) i) as [[call w]|] eqn:N; [|discriminate].
    destruct (resume w a) as [q|] eqn:R; [|discriminate].
    offered D.
    assert (W : disciplined (call, w)).
    { rewrite Forall_forall in F. apply F. eapply nth_error_In; eauto. }
    assert (F' : Forall disciplined (remove_nth i (pending s)))
      by now apply MachineFacts.Forall_remove_nth.
    pose proof (flying_remove_nth is_detection i _ _ _ N) as ND.
    pose proof (flying_remove_nth is_diagnosis i _ _ _ N) as NA.
    pose proof (flying_remove_nth is_support i _ _ _ N) as NS.
    destruct call, w; cbn [disciplined] in W; try contradiction;
      cbn [is_detection is_diagnosis is_support] in *;
      specialize (W a p tick (ui s) R).
    + (* a read *)
      destruct W as (St & P & K). apply orderly_next; rewrite ?St, ?flying_nil; trivial.
      * intros E. destruct K as [K|K]; [|congruence].
        rewrite K in E. specialize (HD E). lia.
      * intros E. destruct K as [K|K]; [|congruence].
        rewrite K in E. specialize (HA E). lia.
      * unfold loading. rewrite P. fold (loading (ui s)). lia.
    + (* a detection *)
      destruct W as (P & [(St & K) | (K & b & m & f & k0 & St & W')]);
        apply orderly_next; rewrite ?St, ?flying_nil, ?flying_one; trivial;
        cbn [is_detection is_diagnosis is_support].
      * destruct K; congruence.
      * destruct K; congruence.
      * unfold loading. rewrite P. fold (loading (ui s)). lia.
      * constructor; [exact W' | constructor].
      * congruence.
      * intros _. lia.
      * unfold loading. rewrite P. fold (loading (ui s)). lia.
    + (* a diagnosis *)
      destruct W as (St & P & K). apply orderly_next; rewrite ?St, ?flying_nil; trivial.
      * destruct K; congruence.
      * destruct K; congruence.
      * unfold loading. rewrite P. fold (loading (ui s)). lia.
    + (* a repair chat answer *)
      destruct W as (St & A & P). apply orderly_next; rewrite ?St, ?flying_nil, ?A; trivial.
      * intros E. specialize (HD E). lia.
      * intros E. specialize (HA E). lia.
      * unfold loading. rewrite P. fold (loading (ui s)). lia.
    + (* a support chat answer *)
      destruct W as (St & A & L). apply orderly_next; rewrite ?St, ?flying_nil, ?A; trivial.
      * intros E. specialize (HD E). lia.
      * intros E. specialize (HA E). lia.
      * rewrite L. destruct (loading (ui s)); lia.
Qed.

Lemma exec_orderly trace : forall s s',
  orderly s -> exec s trace = Some s' -> orderly s'.
Proof.
  induction trace as [|[tick e] trace IH]; simpl; intros s s' O E.
  - now inv E.
  - destruct (step tick s e) as [[s1 shown]|] eqn:S; [|discriminate].
    apply (IH s1 s'); [|exact E]. exact (step_orderly _ _ _ _ _ O S).
Qed.

Lemma reachable_orderly s : reachable s -> orderly s.
Proof.
  intros [trace E]. apply (exec_orderly trace initial s); [|exact E].
  unfold orderly. cbn. repeat split; try discriminate. constructor.
Qed.

Lemma settle_step tick s i call w a p :
  nth_error (pending s) i = Some (call, w) ->
  resume w a = Some p ->
  (forall f r, call = FileRead f -> a = Loaded r -> False) ->
  step tick s (Settle i a)
  = Some ({| ui := rerender (ui s) (state (run p tick (ui s)));
             pending := (remove_nth i (pending s) ++ started (run p tick (ui s)))%list |},
          alerts (run p tick (ui s))).
Proof.
  intros N R NF. unfold step, dispatch. rewrite N, R.
  destruct call; try reflexivity.
  destruct a; try reflexivity. destruct (NF f dataUrl eq_refl eq_refl).
Qed.

(** X22: a spinner of the session always has its request in flight: in every
    state the page can reach with status [DETECTING] a detection call is in
    flight, and whatever settles it, that is a step of the page which leaves
    [DETECTING] (for the selection, the error, or the diagnosis); and with
    status [ANALYZING] a diagnosis call is in flight, and whatever settles
    it, that is a step of the page to [SUCCESS] or to [ERROR]. *)
Theorem spinner_has_its_request_in_flight (s : Sys) :
  reachable s ->
  (status (UI.app (ui s)) = DETECTING ->
   exists i b m k,
     nth_error (pending s) i = Some (DetectItems b m, OnItems k)
     /\ forall tick o,
         exists s' shown,
           step tick s (Settle i (Items o)) = Some (s', shown)
           /\ (status (UI.app (ui s')) = SELECTING
               \/ status (UI.app (ui s')) = ERROR
               \/ status (UI.app (ui s')) = ANALYZING))
  /\ (status (UI.app (ui s)) = ANALYZING ->
      exists i b m f k,
        nth_error (pending s) i = Some (AnalyzeMedia b m f, OnAnalysis k)
        /\ forall tick o,
            exists s' shown,
              step tick s (Settle i (Analysis o)) = Some (s', shown)
              /\ (status (UI.app (ui s')) = SUCCESS
                  \/ status (UI.app (ui s')) = ERROR)).
Proof.
  intros R. destruct (reachable_orderly s R) as (F & HD & HA & _).
  rewrite Forall_forall in F. split; intros E.
  - destruct (flying_found _ _ (HD E)) as (i & c & w & N & K).
    pose proof (F _ (nth_error_In _ _ N)) as W.
    destruct c as [x|b m|b m x|x h m|h m]; try discriminate.
    destruct w; cbn [disciplined] in W; try contradiction.
    exists i, b, m, k. split; [exact N|].
    intros tick o. eexists. eexists. split.
    + apply (settle_step tick s i _ _ (Items o) (k o) N eq_refl). discriminate.
    + cbn [ui]. rewrite MachineFacts.rerender_app.
      destruct (W (Items o) (k o) tick (ui s) eq_refl) as (_ & [(_ & [K'|K']) | (K' & _)]);
        auto.
  - destruct (flying_found _ _ (HA E)) as (i & c & w & N & K).
    pose proof (F _ (nth_error_In _ _ N)) as W.
    destruct c as [x|b m|b m x|x h m|h m]; try discriminate.
    destruct w; cbn [disciplined] in W; try contradiction.
    exists i, b, m, x, k. split; [exact N|].
    intros tick o. eexists. eexists. split.
    + apply (settle_step tick s i _ _ (Analysis o) (k o) N eq_refl). discriminate.
    + cbn [ui]. rewrite MachineFacts.rerender_app.
      destruct (W (Analysis o) (k o) tick (ui s) eq_refl) as (_ & _ & K'). exact K'.
Qed.

Lemma spinner_has_its_request_in_flight_witness :
  (exists i b m k,
      nth_error (pending (run_trace detecting_trace)) i
      = Some (DetectItems b m, OnItems k))
  /\ (exists i b m f k,
      nth_error (pending (run_trace analyzing_trace)) i
      = Some (AnalyzeMedia b m f, OnAnalysis k)).
Proof.
  split.
  - destruct (proj1 (spinner_has_its_request_in_flight (run_trace detecting_trace)
                       (CoherenceFacts.reachable_run_trace detecting_trace
                          ltac:(vm_compute; discriminate)))
                eq_refl) as (i & b & m & k & N & _).
    exists i, b, m, k. exact N.
  - destruct (proj2 (spinner_has_its_request_in_flight (run_trace analyzing_trace)
                       (CoherenceFacts.reachable_run_trace analyzing_trace
                          ltac:(vm_compute; discriminate)))
                eq_refl) as (i & b & m & f & k & N & _).
    exists i, b, m, f, k. exact N.
Defined.

(** X23: the support chat never has two requests in flight, and it shows as
    loading exactly while its request is in flight: in every state the page
    can reach, the number of support chat calls in flight is one when the
    loading flag is set and none otherwise; when it is set, whatever settles
    the call, that is a step of the page which clears the flag and leaves no
    support chat call in flight. *)
Theorem support_chat_has_one_request_in_flight (s : Sys) :
  reachable s ->
  flying is_support (pending s) = (if loading (ui s) then 1 else 0)
  /\ (loading (ui s) = true ->
      exists i h m k,
        nth_error (pending s) i = Some (SupportChatResponse h m, OnText k)
        /\ forall tick o,
            exists s' shown,
              step tick s (Settle i (Reply o)) = Some (s', shown)
              /\ loading (ui s') = false
              /\ flying is_support (pending s') = 0).
Proof.
  intros R. pose proof (reachable_orderly s R) as O.
  destruct O as (F & _ & _ & HS). split; [exact HS|].
  intros L. rewrite L in HS.
  destruct (flying_found is_support (pending s)) as (i & c & w & N & K); [lia|].
  rewrite Forall_forall in F. pose proof (F _ (nth_error_In _ _ N)) as W.
  destruct c as [x|b m|b m x|x h m|h m]; try discriminate.
  destruct w; cbn [disciplined] in W; try contradiction.
  exists i, h, m, k. split; [exact N|].
  intros tick o.
  assert (S : step tick s (Settle i (Reply o))
              = Some ({| ui := rerender (ui s) (state (run (k o) tick (ui s)));
                         pending := (remove_nth i (pending s)
                                     ++ started (run (k o) tick (ui s)))%list |},
                      alerts (run (k o) tick (ui s)))).
  { apply (settle_step tick s i _ _ (Reply o) (k o) N eq_refl). discriminate. }
  eexists. eexists. split; [exact S|].
  destruct (step_orderly _ _ _ _ _ (reachable_orderly s R) S) as (_ & _ & _ & HS').
  assert (L' : loading (rerender (ui s) (state (run (k o) tick (ui s)))) = false).
  { unfold loading. rewrite SupportFacts.rerender_support.
    destruct (W (Reply o) (k o) tick (ui s) eq_refl) as (_ & _ & L'). exact L'. }
  cbn [ui pending] in *. split; [exact L'|]. now rewrite L' in HS'.
Qed.

Lemma support_chat_has_one_request_in_flight_witness :
  flying is_support (pending (run_trace asking_trace)) = 1
  /\ exists i h m k,
      nth_error (pending (run_trace asking_trace)) i
      = Some (SupportChatResponse h m, OnText k).
Proof.
  destruct (support_chat_has_one_request_in_flight (run_trace asking_trace)
              (CoherenceFacts.reachable_run_trace asking_trace
                 ltac:(vm_compute; discriminate)))
    as [C P].
  split; [exact C|].
  destruct (P eq_refl) as (i & h & m & k & N & _).
  exists i, h, m, k. exact N.
Defined.

End FlightFacts.

(** ** Sessions that overlap *)

Module OverlapFacts.

Import App Machine JsonFacts MachineSpec Overlap.

(** What a click on Analyze starts, with a payload captured. *)
Lemma analyze_step tick s media base64 :
  status (UI.app (ui s)) = UPLOADED ->
  Session.captured (UI.app (ui s)) = Some (media, base64) ->
  exists s1 k,
    step tick s ClickAnalyze = Some (s1, [])
    /\ UI.app (ui s1) = setError None (setStatus DETECTING (UI.app (ui s)))
    /\ pending s1
       = (pending s
          ++ [(DetectItems base64 (File.type (MediaFile.file media)), OnItems k)])%list
    /\ (forall item items,
          k (Returned (item :: items))
          = (Session.set (setDetectedItems (item :: items))
             >> Session.set (setStatus SELECTING) >> Return)%proc)
    /\ (forall msg,
          k (Threw msg)
          = (Session.set (setStatus ERROR)
             >> Session.set (setError (Some Session.DETECTION_FAILED)) >> Return)%proc).
Proof.
  intros U C. unfold step, dispatch. rewrite U. cbn match.
  unfold Session.handleStartDetection. rewrite C.
  eexists. eexists. split; [reflexivity|]. cbn [ui pending].
  rewrite MachineFacts.rerender_app.
  split; [reflexivity|]. split; [reflexivity|]. split; reflexivity.
Qed.

(** What the step that settles the last operation started does. *)
Lemma settle_last tick s rest call w a p :
  pending s = (rest ++ [(call, w)])%list ->
  resume w a = Some p ->
  (forall f r, call = FileRead f -> a = Loaded r -> False) ->
  step tick s (Settle (List.length rest) a)
  = Some ({| ui := rerender (ui s) (state (run p tick (ui s)));
             pending := (rest ++ started (run p tick (ui s)))%list |},
          alerts (run p tick (ui s))).
Proof.
  intros P R NF.
  rewrite (FlightFacts.settle_step tick s (List.length rest) call w a p); trivial.
  - now rewrite P, MachineFacts.remove_nth_last.
  - rewrite P. apply MachineFacts.nth_error_last.
Qed.

(** X27: a reset does not call off a detection in flight: from any state the
    page can reach with status [UPLOADED], Analyze, then a reset, then the
    detection answering with items are three steps of the page, after which
    the status is [SELECTING] with those items and no media, and the main
    area shows nothing: no capture adapter, no selector, no spinner, no
    error, no result. *)
Theorem late_detection_answer_shows_nothing
    (tick1 tick2 tick3 : Tick) (s : Sys) (items : list DetectedItem.t) :
  reachable s ->
  status (UI.app (ui s)) = UPLOADED ->
  items <> [] ->
  exists s1 s2 s3,
    step tick1 s ClickAnalyze = Some (s1, [])
    /\ step tick2 s1 ClickReset = Some (s2, [])
    /\ status (UI.app (ui s2)) = IDLE
    /\ step tick3 s2 (Settle (List.length (pending s)) (Items (Returned items)))
       = Some (s3, [])
    /\ status (UI.app (ui s3)) = SELECTING
    /\ detectedItems (UI.app (ui s3)) = items
    /\ currentMedia (UI.app (ui s3)) = None
    /\ shows_nothing (UI.app (ui s3))
    /\ pending s3 = pending s.
Proof.
  intros R U NE.
  destruct (CoherenceFacts.reachable_coherent_media s R U) as (media & b & C).
  destruct (analyze_step tick1 s media b U C) as (s1 & k & S1 & A1 & P1 & K & _).
  destruct (MachineFacts.reset_step tick2 s1) as (s2 & S2 & A2 & P2).
  destruct items as [|item items]; [contradiction|].
  assert (S3 : step tick3 s2 (Settle (List.length (pending s))
                                (Items (Returned (item :: items))))
               = Some ({| ui := rerender (ui s2)
                                  (state (run (k (Returned (item :: items))) tick3 (ui s2)));
                          pending := (pending s
                                      ++ started (run (k (Returned (item :: items)))
                                                    tick3 (ui s2)))%list |},
                       alerts (run (k (Returned (item :: items))) tick3 (ui s2)))).
  { apply (settle_last tick3 s2 (pending s)
             (DetectItems b (File.type (MediaFile.file media))) (OnItems k));
      [congruence | reflexivity | discriminate]. }
  rewrite K in S3. cbn [run state alerts started] in S3. rewrite app_nil_r in S3.
  eexists. eexists. eexists. split; [exact S1|]. split; [exact S2|].
  split; [now rewrite A2|]. split; [exact S3|].
  cbn [ui pending]. rewrite MachineFacts.rerender_app.
  unfold Session.set. cbn [UI.onApp UI.app]. rewrite A2. cbn.
  unfold shows_nothing. cbn. repeat split; discriminate.
Qed.

Lemma late_detection_answer_shows_nothing_witness :
  exists s1 s2 s3,
    step early (run_trace Coherence.captured_trace) ClickAnalyze = Some (s1, [])
    /\ step late s1 ClickReset = Some (s2, [])
    /\ step late s2 (Settle 0 (Items (Returned [faucet]))) = Some (s3, [])
    /\ status (UI.app (ui s3)) = SELECTING
    /\ shows_nothing (UI.app (ui s3)).
Proof.
  destruct (late_detection_answer_shows_nothing early late late
              (run_trace Coherence.captured_trace) [faucet])
    as (s1 & s2 & s3 & S1 & S2 & _ & S3 & St & _ & _ & N & _).
  - apply CoherenceFacts.reachable_run_trace. vm_compute. discriminate.
  - vm_compute. reflexivity.
  - discriminate.
  - exists s1, s2, s3.
    split; [exact S1|]. split; [exact S2|]. split; [exact S3|].
    split; [exact St | exact N].
Defined.

(** What a click on an item of the selector starts. *)
Lemma item_step tick s i item media base64 :
  showsSelector (UI.app (ui s)) = true ->
  nth_error (detectedItems (UI.app (ui s))) i = Some item ->
  Session.captured (UI.app (ui s)) = Some (media, base64) ->
  exists s1 k,
    step tick s (ClickItem i) = Some (s1, [])
    /\ UI.app (ui s1) = setStatus ANALYZING (UI.app (ui s))
    /\ pending s1
       = (pending s
          ++ [(AnalyzeMedia base64 (File.type (MediaFile.file media))
                 (Session.focus_of (Some item)), OnAnalysis k)])%list
    /\ (forall msg,
          k (Threw msg)
          = (Session.set (setStatus ERROR)
             >> Session.set (setError (Some Session.DIAGNOSIS_FAILED)) >> Return)%proc)
    /\ (forall analysisResult tick' u,
          run (k (Returned analysisResult)) tick' u
          = let stored :=
              Session.with_meta analysisResult (uuid tick') (now tick')
                (MediaFile.previewUrl media) in
            {| state :=
                 Session.set (setStatus SUCCESS)
                   (Session.set (setHistory (cons stored))
                      (Session.set (setResult (Some stored)) u));
               alerts := []; started := [] |}).
Proof.
  intros V N C. unfold step, dispatch. rewrite N, V.
  unfold Session.handleItemSelect. rewrite C.
  eexists. eexists. split; [reflexivity|]. cbn [ui pending].
  rewrite MachineFacts.rerender_app.
  split; [reflexivity|]. split; [reflexivity|]. split; reflexivity.
Qed.

(** X25: a call that fails shows the error of its stage and changes nothing
    else: from any state the page can reach, Analyze followed by the failure
    of the detection, and a click on an item followed by the failure of the
    diagnosis, are two steps of the page after which the status is [ERROR]
    with the message of that stage, while the result, the history, the media
    and the detected items are as they were and nothing more is in
    flight. *)
Theorem failed_call_shows_the_error_of_its_stage
    (tick1 tick2 : Tick) (s : Sys) (msg : string) :
  reachable s ->
  (status (UI.app (ui s)) = UPLOADED ->
   exists s1 s2,
     step tick1 s ClickAnalyze = Some (s1, [])
     /\ step tick2 s1 (Settle (List.length (pending s)) (Items (Threw msg)))
        = Some (s2, [])
     /\ UI.app (ui s2)
        = setError (Some "Failed to identify items in the image. Please try again.")
            (setStatus ERROR (UI.app (ui s)))
     /\ pending s2 = pending s)
  /\ (forall i item,
        showsSelector (UI.app (ui s)) = true ->
        nth_error (detectedItems (UI.app (ui s))) i = Some item ->
        exists s1 s2,
          step tick1 s (ClickItem i) = Some (s1, [])
          /\ step tick2 s1 (Settle (List.length (pending s)) (Analysis (Threw msg)))
             = Some (s2, [])
          /\ UI.app (ui s2)
             = setError (Some "Failed to generate repair guide. Please try again.")
                 (setStatus ERROR (UI.app (ui s)))
          /\ pending s2 = pending s).
Proof.
  intros R. split.
  - intros U.
    destruct (CoherenceFacts.reachable_coherent_media s R U) as (media & b & C).
    destruct (analyze_step tick1 s media b U C) as (s1 & k & S1 & A1 & P1 & _ & K).
    pose proof (settle_last tick2 s1 (pending s)
                  (DetectItems b (File.type (MediaFile.file media))) (OnItems k)
                  (Items (Threw msg)) (k (Threw msg)) P1 eq_refl) as S2.
    rewrite K in S2. cbn [run state alerts started] in S2. rewrite app_nil_r in S2.
    eexists. eexists. split; [exact S1|]. split; [apply S2; discriminate|].
    cbn [ui pending]. rewrite MachineFacts.rerender_app.
    unfold Session.set. cbn [UI.onApp UI.app]. rewrite A1. split; reflexivity.
  - intros i item V N.
    assert (M : exists media, currentMedia (UI.app (ui s)) = Some media).
    { unfold showsSelector in V. destruct (status _); try discriminate.
      destruct (currentMedia _) as [media|]; [now exists media | discriminate]. }
    destruct M as [media M].
    destruct (CoherenceFacts.reachable_captured s media R M) as (b & _ & _ & C).
    destruct (item_step tick1 s i item media b V N C) as (s1 & k & S1 & A1 & P1 & K & _).
    pose proof (settle_last tick2 s1 (pending s)
                  (AnalyzeMedia b (File.type (MediaFile.file media))
                     (Session.focus_of (Some item))) (OnAnalysis k)
                  (Analysis (Threw msg)) (k (Threw msg)) P1 eq_refl) as S2.
    rewrite K in S2. cbn [run state alerts started] in S2. rewrite app_nil_r in S2.
    eexists. eexists. split; [exact S1|]. split; [apply S2; discriminate|].
    cbn [ui pending]. rewrite MachineFacts.rerender_app.
    unfold Session.set. cbn [UI.onApp UI.app]. rewrite A1. split; reflexivity.
Qed.

Lemma failed_call_shows_the_error_of_its_stage_witness :
  exists s1 s2,
    step early (run_trace Coherence.captured_trace) ClickAnalyze = Some (s1, [])
    /\ step late s1 (Settle 0 (Items (Threw "503"))) = Some (s2, [])
    /\ UI.app (ui s2)
       = setError (Some "Failed to identify items in the image. Please try again.")
           (setStatus ERROR (UI.app (ui (run_trace Coherence.captured_trace)))).
Proof.
  destruct (proj1 (failed_call_shows_the_error_of_its_stage early late
                     (run_trace Coherence.captured_trace) "503"
                     (CoherenceFacts.reachable_run_trace Coherence.captured_trace
                        ltac:(vm_compute; discriminate)))
              eq_refl)
    as (s1 & s2 & S1 & S2 & A & _).
  exists s1, s2. repeat split; assumption.
Defined.

(** X26: diagnosing an item and coming back: from any state the page can reach
    in which the selector is shown, a click on an item, the diagnosis
    succeeding and a click on "select another" are three steps of the page
    that lead back to the selector with the same items and the same media;
    the result is cleared again and the history has gained the stamped
    result. *)
Theorem select_another_returns_to_the_selector
    (tick1 tick2 tick3 : Tick) (s : Sys) (i : nat) (item : DetectedItem.t)
    (analysisResult : FixItResponse.t) :
  reachable s ->
  showsSelector (UI.app (ui s)) = true ->
  nth_error (detectedItems (UI.app (ui s))) i = Some item ->
  exists media s1 s2 s3,
    currentMedia (UI.app (ui s)) = Some media
    /\ step tick1 s (ClickItem i) = Some (s1, [])
    /\ step tick2 s1 (Settle (List.length (pending s)) (Analysis (Returned analysisResult)))
       = Some (s2, [])
    /\ status (UI.app (ui s2)) = SUCCESS
    /\ step tick3 s2 ClickSelectAnother = Some (s3, [])
    /\ UI.app (ui s3)
       = setHistory
           (cons (Session.with_meta analysisResult (uuid tick2) (now tick2)
                    (MediaFile.previewUrl media)))
           (setResult None (UI.app (ui s)))
    /\ showsSelector (UI.app (ui s3)) = true
    /\ pending s3 = pending s.
Proof.
  intros R V N.
  assert (M : exists media,
             currentMedia (UI.app (ui s)) = Some media
             /\ status (UI.app (ui s)) = SELECTING).
  { unfold showsSelector in V. destruct (status _); try discriminate.
    destruct (currentMedia _) as [media|]; [now exists media | discriminate]. }
  destruct M as (media & M & St).
  destruct (CoherenceFacts.reachable_captured s media R M) as (b & _ & _ & C).
  destruct (item_step tick1 s i item media b V N C) as (s1 & k & S1 & A1 & P1 & _ & K).
  pose proof (settle_last tick2 s1 (pending s)
                (AnalyzeMedia b (File.type (MediaFile.file media))
                   (Session.focus_of (Some item))) (OnAnalysis k)
                (Analysis (Returned analysisResult)) (k (Returned analysisResult))
                P1 eq_refl) as S2.
  rewrite K in S2. cbv zeta in S2. cbn [state alerts started] in S2.
  rewrite app_nil_r in S2.
  exists media. eexists. eexists. eexists.
  split; [exact M|]. split; [exact S1|]. split; [apply S2; discriminate|].
  split; [cbn [ui]; now rewrite MachineFacts.rerender_app|].
  assert (I : detectedItems (UI.app (ui s)) <> []).
  { intros E. rewrite E in N. now destruct i. }
  split.
  { unfold step, dispatch. cbn [ui pending]. rewrite MachineFacts.rerender_app.
    unfold Session.set. cbn [UI.onApp UI.app]. rewrite A1.
    unfold shownResult. cbn [status result setStatus setHistory setResult detectedItems
                             is_some andb].
    destruct (detectedItems (UI.app (ui s))) as [|d ds] eqn:E; [contradiction|].
    cbn [List.length Nat.ltb Nat.leb]. reflexivity. }
  cbn [ui pending]. unfold Session.handleSelectAnother, Session.set.
  cbn [run state started UI.onApp UI.app]. rewrite app_nil_r.
  repeat (rewrite MachineFacts.rerender_app; cbn [UI.onApp UI.app]). rewrite A1.

  split; [unfold setStatus, setHistory, setResult; cbn; now rewrite St|].
  split; [unfold showsSelector; cbn; now rewrite M | reflexivity].
Qed.

Lemma select_another_returns_to_the_selector_witness :
  exists media s1 s2 s3,
    currentMedia (UI.app (ui (run_trace Coherence.detected_trace))) = Some media
    /\ step early (run_trace Coherence.detected_trace) (ClickItem 0) = Some (s1, [])
    /\ step early s1 (Settle 0 (Analysis (Returned analysis))) = Some (s2, [])
    /\ status (UI.app (ui s2)) = SUCCESS
    /\ step late s2 ClickSelectAnother = Some (s3, [])
    /\ showsSelector (UI.app (ui s3)) = true.
Proof.
  destruct (select_another_returns_to_the_selector early early late
              (run_trace Coherence.detected_trace) 0 faucet analysis)
    as (media & s1 & s2 & s3 & M & S1 & S2 & St & S3 & _ & V & _).
  - apply CoherenceFacts.reachable_run_trace. vm_compute. discriminate.
  - vm_compute. reflexivity.
  - vm_compute. reflexivity.
  - exists media, s1, s2, s3. repeat split; assumption.
Defined.

(** X28: the repair chat is not told apart by result: a question sent under
    one result while another result of the history is opened before the
    answer arrives.  Opening the other result empties the transcript and the
    input but leaves the loading flag set and the call in flight; the answer
    to the question about the first result then becomes the only message of
    the transcript shown under the second. *)
Theorem chat_reply_crosses_to_the_selected_result
    (tick1 tick2 tick3 tick4 : Tick) (s : Sys)
    (data r : FixItResponse.t) (i : nat) (t : string) :
  shownResult (UI.app (ui s)) = Some data ->
  blank (ChatPanel.input (UI.chat (ui s))) = false ->
  ChatPanel.isChatLoading (UI.chat (ui s)) = false ->
  nth_error (history (UI.app (ui s))) i = Some r ->
  same_id (Some data) (Some r) = false ->
  exists s1 s2 s3 s4,
    step tick1 s SendChat = Some (s1, [])
    /\ map fst (pending s1)
       = (map fst (pending s)
          ++ [ChatResponse data (ChatPanel.chatHistory (UI.chat (ui s)))
                (ChatPanel.input (UI.chat (ui s)))])%list
    /\ step tick2 s1 OpenSidebar = Some (s2, [])
    /\ step tick3 s2 (ClickHistory i) = Some (s3, [])
    /\ shownResult (UI.app (ui s3)) = Some r
    /\ UI.chat (ui s3) = ChatPanel.mk [] "" true
    /\ step tick4 s3 (Settle (List.length (pending s)) (Reply (Returned t)))
       = Some (s4, [])
    /\ shownResult (UI.app (ui s4)) = Some r
    /\ UI.chat (ui s4) = ChatPanel.mk [ChatMessage.mk model t] "" false
    /\ pending s4 = pending s.
Proof.
  intros D B L N Sid.
  destruct s as [[[st res err hist side dark media items] ug up cg [tr inp ld]] pend].
  cbn [ui pending UI.app UI.chat ChatPanel.input ChatPanel.isChatLoading
       ChatPanel.chatHistory history] in *.
  unfold shownResult in D. cbn [status result] in D.
  destruct st; try discriminate. subst res ld.
  unfold step at 1, dispatch. cbn [ui pending UI.app UI.chat UI.chatGen shownResult status result].
  unfold Chats.handleSendChat. cbn [ChatPanel.input ChatPanel.isChatLoading ChatPanel.chatHistory].
  rewrite B. cbn [orb].
  eexists. eexists. eexists. eexists.
  split.
  { cbn [run state alerts started]. unfold UI.onChat. cbn [UI.chatGen].
    rewrite Nat.eqb_refl. cbn [UI.chatGen UI.app UI.uploadGen UI.upload UI.chat UI.support].
    rewrite Nat.eqb_refl. cbn [UI.chatGen UI.app UI.uploadGen UI.upload UI.chat UI.support].
    rewrite Nat.eqb_refl. cbn [UI.chatGen UI.app UI.uploadGen UI.upload UI.chat UI.support].
    rewrite MachineFacts.rerender_same_app by reflexivity. reflexivity. }
  split.
  { cbn [pending]. rewrite map_app. reflexivity. }
  split.
  { unfold step, dispatch. cbn -[same_id rerender].
    unfold rerender. cbn -[same_id]. rewrite MachineFacts.same_id_refl. reflexivity. }
  split.
  { unfold step, dispatch. cbn -[same_id rerender]. rewrite N.
    cbn -[same_id rerender].
    unfold rerender. cbn -[same_id]. rewrite Sid. reflexivity. }
  split; [reflexivity|]. split; [reflexivity|].
  split.
  { unfold step, dispatch. cbn [ui pending]. rewrite !app_nil_r.
    rewrite MachineFacts.nth_error_last. cbn [resume].
    rewrite MachineFacts.remove_nth_last.
    cbn [run state alerts started]. rewrite app_nil_r.
    cbn -[same_id rerender Nat.eqb]. rewrite Nat.eqb_refl.
    cbn -[same_id rerender Nat.eqb]. rewrite Nat.eqb_refl.
    unfold rerender. cbn -[same_id]. rewrite MachineFacts.same_id_refl. reflexivity. }
  split; [reflexivity|]. split; reflexivity.
Qed.

Lemma chat_reply_crosses_to_the_selected_result_witness :
  exists s3 s4,
    shownResult (UI.app (ui s3)) = Some stored_analysis
    /\ UI.chat (ui s3) = ChatPanel.mk [] "" true
    /\ step late s3 (Settle 0 (Reply (Returned "The small one."))) = Some (s4, [])
    /\ shownResult (UI.app (ui s4)) = Some stored_analysis
    /\ UI.chat (ui s4)
       = ChatPanel.mk [ChatMessage.mk model "The small one."] "" false.
Proof.
  destruct (chat_reply_crosses_to_the_selected_result late late late late
              (run_trace two_results_trace)
              (Session.with_meta analysis "uuid-2" 1700000060000%Z "blob:2")
              stored_analysis 1 "The small one.")
    as (s1 & s2 & s3 & s4 & _ & _ & _ & _ & R3 & C3 & S4 & R4 & C4 & _);
    try (vm_compute; reflexivity).
  exists s3, s4.
  split; [exact R3|]. split; [exact C3|]. split; [exact S4|].
  split; [exact R4 | exact C4].
Defined.

End OverlapFacts.

(** ** Pasting *)

Module ClipboardFacts.

Import Clipboard JsonFacts.

Lemma first_image_file_some items file :
  first_image_file items = Some file ->
  exists before item after,
    items = (before ++ item :: after)%list
    /\ Forall passed_over before
    /\ Machine.contains "image" (type item) = true
    /\ getAsFile item = Some file.
Proof.
  induction items as [|x items IH]; cbn [first_image_file]; [discriminate|].
  destruct (Machine.contains "image" (type x)) eqn:C.
  - destruct (getAsFile x) as [f|] eqn:G.
    + intros E; inv E. exists [], x, items. repeat split; trivial.
    + intros E. destruct (IH E) as (before & item & after & -> & F & C' & G').
      exists (x :: before), item, after. repeat split; trivial.
      constructor; [now right | exact F].
  - intros E. destruct (IH E) as (before & item & after & -> & F & C' & G').
    exists (x :: before), item, after. repeat split; trivial.
    constructor; [now left | exact F].
Qed.

Lemma first_image_file_none items :
  first_image_file items = None -> Forall passed_over items.
Proof.
  induction items as [|x items IH]; cbn [first_image_file]; [constructor|].
  destruct (Machine.contains "image" (type x)) eqn:C.
  - destruct (getAsFile x) as [f|] eqn:G; [discriminate|].
    intros E. constructor; [now right | auto].
  - intros E. constructor; [now left | auto].
Qed.

(** X12: a paste hands exactly one file to [handleFile], the file of the first
    clipboard item whose type contains [image] and that has a file (whatever
    comes after it), and does what [handleFile] does with it; while loading
    or with the camera open, or when every item is passed over, it does
    nothing at all. *)
Theorem paste_takes_the_first_image_file
    (gen : nat) (isLoading isCameraOpen : bool) (items : list Item)
    (tick : Tick) (u : UI.State) :
  let pasted :=
    run (handlePaste gen Session.handleFileSelect isLoading isCameraOpen (Some items))
      tick u in
  (isLoading = false /\ isCameraOpen = false
   /\ exists before item after file,
       items = (before ++ item :: after)%list
       /\ Forall passed_over before
       /\ Machine.contains "image" (type item) = true
       /\ getAsFile item = Some file
       /\ pasted = run (FileUpload.handleFile gen Session.handleFileSelect file) tick u)
  \/ ((isLoading = true \/ isCameraOpen = true \/ Forall passed_over items)
      /\ pasted = {| state := u; alerts := []; started := [] |}).
Proof.
  cbv zeta. unfold handlePaste.
  destruct isLoading; [right; split; [auto | reflexivity]|].
  destruct isCameraOpen; [right; split; [auto | reflexivity]|].
  cbn [orb]. destruct (first_image_file items) as [file|] eqn:E.
  - left. repeat split.
    destruct (first_image_file_some items file E) as (before & item & after & I & F & C & G).
    now exists before, item, after, file.
  - right. split; [|reflexivity]. right. right. now apply first_image_file_none.
Qed.

End ClipboardFacts.

(** ** The presentation mapper, further *)

Module PresentationMore.

Import Presentation PresentationSpec.

(** X13: nothing is put in order or clamped: for a box whose first four entries
    are between 0 and 1000 (whatever follows them), the height the code
    computes, in binary64, is below zero exactly when [yMax < yMin], and the
    width exactly when [xMax < xMin]. *)
Theorem reversed_box_gives_negative_sides
    (label : string) (yMin xMin yMax xMax : Z) (more : list Z) :
  (0 <= yMin <= 1000)%Z -> (0 <= xMin <= 1000)%Z ->
  (0 <= yMax <= 1000)%Z -> (0 <= xMax <= 1000)%Z ->
  let o := overlay (Annotation.mk label (yMin :: xMin :: yMax :: xMax :: more)) in
  (PrimFloat.ltb (height o) (of_integer 0) = true <-> (yMax < yMin)%Z)
  /\ (PrimFloat.ltb (width o) (of_integer 0) = true <-> (xMax < xMin)%Z).
Proof.
  intros Hy Hx Hy' Hx' o.
  assert (K : forall a b, (0 <= a <= 1000)%Z -> (0 <= b <= 1000)%Z ->
              PrimFloat.ltb (percent (PrimFloat.sub (of_integer b) (of_integer a)))
                (of_integer 0) = (b <? a)%Z).
  { intros a b A B. unfold percent.
    rewrite !PresentationFacts.of_integer_quick by lia.
    pose proof (PresentationFacts.pairs negative_when_reversed
                  PresentationFacts.reversed_table a b A B) as T.
    unfold negative_when_reversed in T. now apply eqb_prop in T. }
  unfold o, overlay. cbn [Annotation.box_2d nth_error number height width].
  rewrite (K yMin yMax Hy Hy'), (K xMin xMax Hx Hx').
  split; apply Z.ltb_lt.
Qed.

Lemma reversed_box_gives_negative_sides_witness :
  PrimFloat.ltb (height (overlay (Annotation.mk "Leak" [300; 200; 100; 400]%Z)))
    (of_integer 0) = true.
Proof.
  destruct (reversed_box_gives_negative_sides "Leak" 300 200 100 400 [])
    as [[_ H] _]; try lia.
  apply H. lia.
Defined.

End PresentationMore.

(** ** The identifiers of the history, when each draw is fresh *)

Module DrawsFacts.

Import App Machine JsonFacts MachineSpec Draws.

Lemma run_draws_first p : forall tick drawn u,
  draws_first tick drawn p ->
  (drawn = false -> draws tick p = false ->
   history (UI.app (state (run p tick u))) = history (UI.app u))
  /\ Forall draws_waiting (started (run p tick u)).
Proof.
  assert (W : forall A (k : A -> Proc) (wrap : (A -> Proc) -> Waiting) call,
             (forall a, resume (wrap k) a = None
                        \/ exists x, resume (wrap k) a = Some (k x)) ->
             (forall tick' x, draws_first tick' false (k x)) ->
             Forall draws_waiting [(call, wrap k)]).
  { intros A k wrap call R K. constructor; [|constructor].
    intros tick a q E. cbn [snd] in E.
    destruct (R a) as [N | [x X]]; rewrite E in *; [discriminate|].
    inv X. apply K. }
  induction p as [ | upd k IH | msg k IH | k IH | k IH | k IH | f k IH
                 | b m k IH | b m fc k IH | c h m k IH | h m k IH | p IHp k IHk ];
    intros tick drawn u S; cbn [draws_first] in S; cbn [run state started draws].
  - split; [reflexivity | constructor].
  - destruct S as [Same K]. destruct (IH tick drawn (upd u) K) as [H F].
    split; [|exact F]. intros D N. rewrite (H D N).
    destruct Same as [T | Same]; [congruence | apply Same].
  - apply (IH tick drawn u S).
  - destruct (IH _ tick true u S) as [_ F]. split; [discriminate | exact F].
  - apply (IH _ tick drawn u S).
  - apply (IH _ tick drawn u S).
  - split; [reflexivity|]. apply (W _ k OnRead); [|exact S].
    intros [x|x|x|x]; cbn; eauto.
  - split; [reflexivity|]. apply (W _ k OnItems); [|exact S].
    intros [x|x|x|x]; cbn; eauto.
  - split; [reflexivity|]. apply (W _ k OnAnalysis); [|exact S].
    intros [x|x|x|x]; cbn; eauto.
  - split; [reflexivity|]. apply (W _ k OnText); [|exact S].
    intros [x|x|x|x]; cbn; eauto.
  - split; [reflexivity|]. apply (W _ k OnText); [|exact S].
    intros [x|x|x|x]; cbn; eauto.
  - destruct S as [Sp Sk].
    destruct (IHp tick drawn u Sp) as [Hp Fp].
    destruct (IHk tick drawn (state (run p tick u)) Sk) as [Hk Fk].
    split; [|apply Forall_app; split; assumption].
    intros D N. apply orb_false_iff in N. destruct N as [Np Nk].
    rewrite (Hk D Nk). apply (Hp D Np).
Qed.

Lemma draws_first_same tick drawn upd k :
  (forall u, history (UI.app (upd u)) = history (UI.app u)) ->
  draws_first tick drawn k -> draws_first tick drawn (Set_ upd k).
Proof. intros Same K. cbn [draws_first]. split; [now right | exact K]. Qed.

Lemma draws_first_after tick upd k :
  draws_first tick true k -> draws_first tick true (Set_ upd k).
Proof. intros K. cbn [draws_first]. split; [now left | exact K]. Qed.

Ltac drawing :=
  repeat match goal with
    | |- forall _, _ => intro
    | |- draws_first _ _ Return => exact I
    | |- draws_first _ _ (match ?x with _ => _ end) => destruct x
    | |- draws_first _ _ (if ?b then _ else _) => destruct b
    | |- draws_first _ true (Set_ _ _) => apply draws_first_after
    | |- draws_first _ _ (Set_ _ _) =>
        apply draws_first_same;
        [intro; first [ reflexivity | now rewrite MachineFacts.onUpload_app
                      | now rewrite MachineFacts.onChat_app ]|]
    | |- draws_first ?t ?b (Spawn ?p ?k) =>
        change (draws_first t b p /\ draws_first t b k); split
    | |- draws_first ?t ?b (Alert _ ?k) => change (draws_first t b k)
    | |- draws_first ?t ?b (RandomUUID ?k) =>
        change (draws_first t true (k (uuid t))); cbv beta
    | |- draws_first ?t ?b (DateNow ?k) =>
        change (draws_first t b (k (now t))); cbv beta
    | |- draws_first ?t ?b (CreateObjectURL ?k) =>
        change (draws_first t b (k (blobUrl t))); cbv beta
    | |- draws_first _ _ (ReadAsDataURL _ ?k) =>
        change (forall tick' x, draws_first tick' false (k x)); cbv beta
    | |- draws_first _ _ (AwaitDetectItems _ _ ?k) =>
        change (forall tick' x, draws_first tick' false (k x)); cbv beta
    | |- draws_first _ _ (AwaitAnalyzeMedia _ _ _ ?k) =>
        change (forall tick' x, draws_first tick' false (k x)); cbv beta
    | |- draws_first _ _ (AwaitChatResponse _ _ _ ?k) =>
        change (forall tick' x, draws_first tick' false (k x)); cbv beta
    | |- draws_first _ _ (AwaitSupportChatResponse _ _ ?k) =>
        change (forall tick' x, draws_first tick' false (k x)); cbv beta
    end.

Lemma handleFileSelect_draws_first tick drawn media :
  draws_first tick drawn (Session.handleFileSelect media).
Proof. unfold Session.handleFileSelect. drawing. Qed.

Lemma handleItemSelect_draws_first tick drawn render item :
  draws_first tick drawn (Session.handleItemSelect render item).
Proof.
  unfold Session.handleItemSelect.
  destruct (Session.captured render) as [[media b]|]; drawing.
Qed.

Lemma handleStartDetection_draws_first tick drawn render :
  draws_first tick drawn (Session.handleStartDetection render).
Proof.
  unfold Session.handleStartDetection.
  destruct (Session.captured render) as [[media b]|]; drawing.
  apply handleItemSelect_draws_first.
Qed.

Lemma handleFile_draws_first tick drawn gen file :
  draws_first tick drawn (FileUpload.handleFile gen Session.handleFileSelect file).
Proof.
  unfold FileUpload.handleFile.
  destruct (FileUpload.MAX_SIZE <? File.size file)%Z; drawing.
  apply handleFileSelect_draws_first.
Qed.

Lemma handleSendChat_draws_first tick drawn gen data render :
  draws_first tick drawn (Chats.handleSendChat gen data render).
Proof. unfold Chats.handleSendChat. drawing. Qed.

Lemma handleSend_draws_first tick drawn render :
  draws_first tick drawn (Chats.handleSend render).
Proof. unfold Chats.handleSend, UI.onSupport. drawing. Qed.

Lemma dispatch_draws_first tick s e p rest :
  well_drawn s -> dispatch s e = Some (p, rest) ->
  draws_first tick false p /\ Forall draws_waiting rest.
Proof.
  intros W D.
  assert (O : forall (b : bool) q,
             (if b then Some (q, pending s) else None) = Some (p, rest) ->
             draws_first tick false q ->
             draws_first tick false p /\ Forall draws_waiting rest).
  { intros [|] q E K; [|discriminate]. inv E. split; assumption. }
  destruct e as [f|f| | |i| | | | |i| |t| |t| |i a]; simpl in D;
    try (destruct (nth_error (detectedItems (UI.app (ui s))) i); [|discriminate]);
    try (destruct (nth_error (history (UI.app (ui s))) i); [|discriminate]);
    try (destruct (shownResult (UI.app (ui s))) eqn:?; [|discriminate]);
    try solve
      [ first [eapply O; [exact D|] | eapply (O true); [exact D|]];
        first [ apply handleFile_draws_first | apply handleStartDetection_draws_first
              | apply handleItemSelect_draws_first | apply handleSendChat_draws_first
              | apply handleSend_draws_first
              | unfold FileUpload.clearFile, Session.handleClearFile,
                  Session.handleReset, Session.handleSelectAnother,
                  Session.handleHistorySelect, UI.onSupport; drawing ] ].
  destruct (nth_error (pending s) i) as [[call w]|] eqn:N; [|discriminate].
  destruct (resume w a) as [q|] eqn:R; [|discriminate].
  match type of D with (if ?b then _ else _) = _ => destruct b end;
    [|discriminate].
  inv D. split.
  - apply nth_error_In in N.
    unfold well_drawn in W. rewrite Forall_forall in W.
    exact (W _ N tick a p R).
  - now apply MachineFacts.Forall_remove_nth.
Qed.

(** A step whose task draws no identifier leaves the identifiers of the
    history as they are. *)
Lemma step_draws_first tick s e p rest s' shown :
  well_drawn s -> dispatch s e = Some (p, rest) ->
  step tick s e = Some (s', shown) ->
  well_drawn s' /\ (draws tick p = false -> identifiers s' = identifiers s).
Proof.
  intros W D S. unfold step in S. rewrite D in S. inv S.
  destruct (dispatch_draws_first tick _ _ _ _ W D) as [K F].
  destruct (run_draws_first p tick false (ui s) K) as [H F'].
  split.
  - unfold well_drawn; simpl. apply Forall_app. split; assumption.
  - intros N. unfold identifiers. cbn [ui]. rewrite MachineFacts.rerender_app.
    now rewrite (H eq_refl N).
Qed.

Lemma distinct_along trace : forall s s',
  well_stamped s -> well_drawn s -> NoDup (identifiers s) ->
  fresh_draws s trace -> exec s trace = Some s' ->
  NoDup (identifiers s').
Proof.
  induction trace as [|[tick e] trace IH]; simpl; intros s s' W V N F E.
  - now inv E.
  - destruct F as [Fresh F].
    destruct (step tick s e) as [[s1 shown]|] eqn:S; [|discriminate].
    destruct (dispatch s e) as [[p rest]|] eqn:D;
      [|unfold step in S; rewrite D in S; discriminate S].
    destruct (MachineFacts.step_stamps _ _ _ _ _ W S) as [W1 Grown].
    destruct (step_draws_first _ _ _ _ _ _ _ V D S) as [V1 Quiet].
    apply (IH s1 s' W1 V1); [|exact F | exact E].
    destruct (draws tick p) eqn:Drawn.
    + destruct Grown as [-> | ->]; [exact N|].
      constructor; [exact (Fresh eq_refl) | exact N].
    + now rewrite (Quiet eq_refl).
Qed.

(** X21: from the initial page, in every run in which each call of
    [crypto.randomUUID()] gives an identifier that is not stored at that
    moment, the identifiers of the history are pairwise distinct in the
    state reached.  Nothing is asked of the tasks that draw no
    identifier. *)
Theorem identifiers_distinct_when_draws_are_fresh trace s :
  fresh_draws initial trace -> exec initial trace = Some s ->
  NoDup (identifiers s).
Proof.
  apply distinct_along; constructor.
Qed.

Lemma identifiers_distinct_when_draws_are_fresh_witness :
  NoDup (identifiers (run_trace Overlap.two_results_trace))
  /\ identifiers (run_trace Overlap.two_results_trace)
     = [Some "uuid-2"; Some "uuid-1"]
  /\ ~ fresh_run initial Overlap.two_results_trace.
Proof.
  split; [|split].
  - apply (identifiers_distinct_when_draws_are_fresh Overlap.two_results_trace
             (run_trace Overlap.two_results_trace)).
    + vm_compute; repeat split;
        repeat match goal with
          | |- _ -> _ => intro
          | H : false = true |- _ => discriminate H
          | H : False |- _ => destruct H
          | H : _ \/ _ |- _ => destruct H
          | H : Some _ = Some _ |- _ => discriminate H
          | |- True => exact I
          end.
    + vm_compute. reflexivity.
  - vm_compute. reflexivity.
  - vm_compute. intros F.
    repeat match goal with H : _ /\ _ |- _ => destruct H end.
    match goal with H : ?a = ?a \/ _ -> False |- _ => apply H; left; reflexivity end.
Defined.

End DrawsFacts.
